(** * draf / SEMDR: the CaseStudy time window and scenario store

    A shallow embedding of [draf/core/datetime_handler.py] and
    [draf/core/case_study.py].  Python objects are records, Python
    dictionaries that are only looked up are [gmap]s, the scenario
    collection (whose insertion order the code reads) is an association
    list, and methods are computations in a small state/exception/log
    monad: a raised exception keeps the mutations made before it. *)

From Stdlib Require Import ZArith Lia.
From stdpp Require Import base list strings gmap pretty.

Local Open Scope Z_scope.

(** ** Python primitives *)

Module Py.

Inductive exn :=
| AssertionError (msg : string)
| ValueError (msg : string)
| RuntimeError (msg : string)
| KeyError (key : string)
| AttributeError (attr : string)
| UnknownEntityError (ent : string)
| IndexError
| TypeError.

Inductive outcome (A : Type) :=
| Returns (a : A)
| Raises (e : exn).
Arguments Returns {A} a.
Arguments Raises {A} e.

(** [len(l)] *)
Definition len {A} (l : list A) : Z := Z.of_nat (length l).

(** [l[i]] for an integer [i]: negative positions count from the end,
    [None] stands for [IndexError]. *)
Definition getitem {A} (l : list A) (i : Z) : option A :=
  if i <? 0 then
    if i + len l <? 0 then None else l !! Z.to_nat (i + len l)
  else l !! Z.to_nat i.

(** A slice bound brought into [0 .. n], as [slice.indices] does for
    step 1. *)
Definition clamp (n i : Z) : Z :=
  if i <? 0 then Z.max (i + n) 0 else Z.min i n.

(** [l[a:b]] *)
Definition slice {A} (l : list A) (a b : Z) : list A :=
  let lo := clamp (len l) a in
  let hi := clamp (len l) b in
  take (Z.to_nat (hi - lo)) (drop (Z.to_nat lo) l).

(** [str(n)] for an integer. *)
Definition str (z : Z) : string := pretty z.

(** The outcome of running a method: what it returned or raised, the
    object state it left behind and the records it sent to the logger
    at WARNING level or above. *)
Record run (S A : Type) := Run {
  result : outcome A;
  final : S;
  logged : list string
}.
Arguments Run {S A} _ _ _.
Arguments result {S A} _.
Arguments final {S A} _.
Arguments logged {S A} _.

Definition M (S A : Type) : Type := S -> run S A.

Definition ret {S A} (a : A) : M S A := fun s => Run (Returns a) s [].

Definition raise {S A} (e : exn) : M S A := fun s => Run (Raises e) s [].

Definition bind {S A B} (c : M S A) (k : A -> M S B) : M S B :=
  fun s =>
    match c s with
    | Run (Returns a) s1 l1 =>
        match k a s1 with
        | Run o s2 l2 => Run o s2 (l1 ++ l2)
        end
    | Run (Raises e) s1 l1 => Run (Raises e) s1 l1
    end.

Definition get {S} : M S S := fun s => Run (Returns s) s [].

Definition gets {S A} (f : S -> A) : M S A := fun s => Run (Returns (f s)) s [].

Definition modify {S} (f : S -> S) : M S unit := fun s => Run (Returns tt) (f s) [].

(** [logger.warning(msg)] *)
Definition warning {S} (msg : string) : M S unit := fun s => Run (Returns tt) s [msg].

(** [assert b, msg] *)
Definition assert {S} (b : bool) (msg : string) : M S unit :=
  if b then ret tt else raise (AssertionError msg).

(** An optional value or the given exception. *)
Definition unwrap {S A} (o : option A) (e : exn) : M S A :=
  match o with Some a => ret a | None => raise e end.

(** A method of a parent class, or of an attribute, run on the part of
    the state it owns. *)
Definition zoom {S T A} (proj : S -> T) (upd : T -> S -> S) (c : M T A) : M S A :=
  fun s =>
    match c (proj s) with
    | Run o t l => Run o (upd t s) l
    end.

(** The outcome of a call that touches no state of the caller. *)
Definition lift {S A} (o : outcome A) : M S A := fun s => Run o s [].

(** A [for] loop over a list, in order. *)
Fixpoint for_each {S A} (l : list A) (body : A -> M S unit) : M S unit :=
  match l with
  | [] => ret tt
  | x :: l' => bind (body x) (fun _ => for_each l' body)
  end.

End Py.

Import Py.

Notation "x <- c1 ;; c2" := (Py.bind c1 (fun x => c2))
  (at level 100, c1 at next level, right associativity).
Notation "c1 ;; c2" := (Py.bind c1 (fun _ => c2))
  (at level 100, right associativity).

(** ** Dictionaries whose insertion order the code observes

    [CaseStudy.scens] is read through [scens_ids[-1]], [len(scens_list)]
    and iteration, so it is an association list with the behaviour of a
    Python [dict]: assigning an existing key replaces the value where it
    stands, a new key goes to the end. *)

Module Dict.
Section Dict.
Context {V : Type}.

Fixpoint get (d : list (string * V)) (k : string) : option V :=
  match d with
  | [] => None
  | (k', v) :: d' => if decide (k' = k) then Some v else get d' k
  end.

Fixpoint set (d : list (string * V)) (k : string) (v : V) : list (string * V) :=
  match d with
  | [] => [(k, v)]
  | (k', v') :: d' =>
      if decide (k' = k) then (k, v) :: d' else (k', v') :: set d' k v
  end.

Fixpoint del (d : list (string * V)) (k : string) : list (string * V) :=
  match d with
  | [] => []
  | (k', v') :: d' => if decide (k' = k) then d' else (k', v') :: del d' k
  end.

Definition keys (d : list (string * V)) : list string := d.*1.

Definition values (d : list (string * V)) : list V := d.*2.
End Dict.
End Dict.

(** ** Data model *)

(** Values the code stores, copies or prints without looking inside:
    floats and pandas series, component plugins, model callbacks,
    collector contributions (lambdas), solved results, dimension
    overrides. *)
Class Opaque := {
  Object : Type;
  Component : Type;
  Callable : Type;
  Contribution : Type;
  Results : Type;
  Dims : Type
}.

(** A timestamp of a [DatetimeIndex], as its integer value. *)
Definition Timestamp := Z.

(** What [Index.get_loc] returns for a (partial) date string: a position
    or a [slice(start, stop)]. *)
Inductive location :=
| LocInt (i : Z)
| LocSlice (start stop : Z).

(** The attributes [DateTimeHandler] sets and reads on [self]. *)
Record DateTimeHandler := {
  year : Z;
  freq : string;
  dtindex : list Timestamp;
  dtindex_custom : list Timestamp;
  _t1 : Z;
  _t2 : Z
}.

(** An argument that is an integer offset or a date string. *)
Inductive position :=
| PInt (i : Z)
| PStr (s : string).

(** An object identity: scenarios live in a heap and the scenario
    collection of a case study holds references to them. *)
Definition ref := nat.

Section DataModel.
Context {opq : Opaque}.

(** A sweep value or a parameter value: an integer, a string (the name
    of another entity) or anything else. *)
Inductive Value :=
| VInt (z : Z)
| VStr (s : string)
| VObj (o : Object).

(** An axis label of a [DataFrame]: a position of a [RangeIndex] or a
    name. *)
Inductive Label :=
| LPos (i : Z)
| LName (s : string).

(** A [DataFrame]: row labels, column labels and the cells row by row. *)
Record DataFrame := {
  index : list Label;
  columns : list Label;
  cells : list (list Value)
}.

(** [sc.vars]: the variable objects and the templates kept in [_meta]
    (a dict of dicts: [_meta[ent]["lb"]], [_meta[ent]["ub"]], ...). *)
Record Vars := {
  entities : gmap string Object;
  _meta : gmap string (gmap string Value)
}.

(** The attributes of a [Scenario] that [CaseStudy] reads or writes.
    [res] is an attribute that exists only after a solve: [None] is
    [not hasattr(sc, "res")].  A collector is a dict from contributor
    id to contribution. *)
Record Scenario := {
  id : string;
  name : string;
  doc : string;
  custom_model : option Callable;
  params : gmap string Value;
  vars : Vars;
  collectors : gmap string (gmap string Contribution);
  res : option Results
}.

(** The keyword arguments of the [Scenario(...)] call in [add_scen]. *)
Record ScenarioArgs := {
  a_id : string;
  a_name : string;
  a_doc : string;
  a_coords : option (Object * Object);
  a_year : Z;
  a_country : string;
  a_freq : string;
  a_cs_name : string;
  a_dtindex : list Timestamp;
  a_dtindex_custom : list Timestamp;
  a_t1 : Z;
  a_t2 : Z;
  a_components : option (list Component);
  a_consider_invest : bool;
  a_mdl_language : string;
  a_obj_vars : string * string;
  a_custom_model : option Callable;
  a_update_dims : option Dims
}.

(** One entry of [scen_vars]: long name, short name, variations. *)
Definition ScenVar : Type := string * string * list Value.

(** A [CaseStudy]; [dth] holds the attributes of its parent class
    [DateTimeHandler].  [cs_name] and [cs_doc] are the attributes [name]
    and [doc].  [scen_vars] and [scen_df] exist only once [add_scens]
    has set them; [scen_vars] may then be [None]. *)
Record CaseStudy := {
  cs_name : string;
  cs_doc : string;
  dth :> DateTimeHandler;
  country : string;
  consider_invest : bool;
  coords : option (Object * Object);
  scens : list (string * ref);
  obj_vars : string * string;
  mdl_language : string;
  scen_vars : option (option (list ScenVar));
  scen_df : option DataFrame
}.

(** The case study together with the scenario objects it refers to. *)
Record World := {
  self : CaseStudy;
  heap : list Scenario
}.

End DataModel.

Arguments Value {_}.
Arguments DataFrame {_}.
Arguments Vars {_}.
Arguments Scenario {_}.
Arguments ScenarioArgs {_}.
Arguments ScenVar {_}.
Arguments CaseStudy {_}.
Arguments World {_}.

(** Functions the code calls whose definitions are not among the
    sources, taken as parameters: [hp.make_datetimeindex], pandas'
    [Index.get_loc] ([None] is its [KeyError]), [np.linspace(0, 1, n)],
    [str] of an opaque value, the [Scenario] constructor and
    [Scenario.get_entity]. *)
Class Library `{Opaque} := {
  make_datetimeindex : Z -> string -> list Timestamp;
  get_loc : list Timestamp -> string -> option location;
  linspace : Z -> list Object;
  str_object : Object -> string;
  Scenario_init : ScenarioArgs -> outcome Scenario;
  get_entity : Scenario -> string -> outcome Value
}.

(** ** [draf/core/datetime_handler.py] *)

Definition with_dtindex_custom (v : list Timestamp) (d : DateTimeHandler) : DateTimeHandler :=
  {| year := year d; freq := freq d; dtindex := dtindex d;
     dtindex_custom := v; _t1 := _t1 d; _t2 := _t2 d |}.

Definition with__t1 (v : Z) (d : DateTimeHandler) : DateTimeHandler :=
  {| year := year d; freq := freq d; dtindex := dtindex d;
     dtindex_custom := dtindex_custom d; _t1 := v; _t2 := _t2 d |}.

Definition with__t2 (v : Z) (d : DateTimeHandler) : DateTimeHandler :=
  {| year := year d; freq := freq d; dtindex := dtindex d;
     dtindex_custom := dtindex_custom d; _t1 := _t1 d; _t2 := v |}.

Definition valid_freqs : list string := ["1min"; "5min"; "15min"; "30min"; "60min"].

Definition freq_message (freq : string) : string :=
  "Frequency must be one of ['1min', '5min', '15min', '30min', '60min'], got " +:+ freq.

(** Modelled from the spec: [hp.int_from_freq], the helper that gives
    the minutes of a frequency string, is not part of the sources; the
    frequencies are the {1,5,15,30,60}-minute steps (section 4.1) and
    any other string is an error. *)
Definition int_from_freq (freq : string) : option Z :=
  if decide (freq = "1min") then Some 1
  else if decide (freq = "5min") then Some 5
  else if decide (freq = "15min") then Some 15
  else if decide (freq = "30min") then Some 30
  else if decide (freq = "60min") then Some 60
  else None.

Section DateTimeHandler.
Context {opq : Opaque} {lib : Library}.

(** [_set_dtindex] runs on an object that has none of the six
    attributes yet.  Both assertions come before the first assignment,
    so it raises with nothing assigned or assigns all six. *)
Definition _set_dtindex (year_ : Z) (freq_ : string) : outcome DateTimeHandler :=
  if (1980 <=? year_) && (year_ <? 2100) then
    if bool_decide (freq_ ∈ valid_freqs) then
      let dt := make_datetimeindex year_ freq_ in
      Returns {| year := year_; freq := freq_; dtindex := dt;
                 dtindex_custom := dt; _t1 := 0; _t2 := len dt - 1 |}
    else Raises (AssertionError (freq_message freq_))
  else Raises (AssertionError "").

Definition _get_int_loc_from_dtstring (s : string) : M DateTimeHandler location :=
  d <- get;;
  let key := str (year d) +:+ "-" +:+ s in
  unwrap (get_loc (dtindex d) key) (KeyError key).

Definition _get_first_int_loc_from_dtstring (s : string) : M DateTimeHandler Z :=
  x <- _get_int_loc_from_dtstring s;;
  match x with
  | LocSlice start _ => ret start
  | LocInt i => ret i
  end.

Definition _get_last_int_loc_from_dtstring (s : string) : M DateTimeHandler Z :=
  x <- _get_int_loc_from_dtstring s;;
  match x with
  | LocSlice _ stop => ret stop
  | LocInt i => ret i
  end.

Definition _get_integer_locations (start : position) (steps : option Z)
    (end_ : option position) : M DateTimeHandler (Z * Z) :=
  t1 <- match start with
        | PStr s => _get_first_int_loc_from_dtstring s
        | PInt i => ret i
        end;;
  match steps, end_ with
  | Some n, None =>
      d <- get;;
      assert (t1 + n <? len (dtindex d)) "Too many steps are given.";;
      ret (t1, t1 + n - 1)
  | None, Some e =>
      t2 <- match e with
            | PStr s => _get_last_int_loc_from_dtstring s
            | PInt i => ret i
            end;;
      ret (t1, t2)
  | None, None =>
      d <- get;;
      ret (t1, len (dtindex d) - 1)
  | Some _, Some _ => raise (ValueError "One of steps or end must be given.")
  end.

(** [int(horizon_hours * 60 / int_from_freq(freq))]: [horizon_hours] is
    an [int]; [int] truncates towards zero, as [Z.quot] does.  The
    division is Python's float division of two integers.  Its result
    is this exact quotient as long as the product is at most [2^53] in
    absolute value ([exact_horizon] below): the product is then a float
    as it stands, and for a divisor of 1, 5, 15, 30 or 60 minutes the
    float nearest to the quotient has the integer part of the
    quotient.  Beyond that the float rounds, and past the range of
    floats the code raises [OverflowError]; what is stated about
    arbitrary horizons is stated for [exact_horizon] ones. *)
Definition steps_for (horizon_hours f : Z) : Z := Z.quot (horizon_hours * 60) f.

(** The horizons whose number of steps the float division gives
    exactly. *)
Definition exact_horizon (horizon_hours : Z) : Prop :=
  Z.abs (horizon_hours * 60) <= 2 ^ 53.

Definition horizon_message (horizon_hours : Z) : string :=
  "Horizon " +:+ str horizon_hours +:+ "h exceeds available data, using full year".

Definition set_rolling_horizon (horizon_hours : Z) : M DateTimeHandler unit :=
  d <- get;;
  f <- unwrap (int_from_freq (freq d)) (ValueError (freq d));;
  steps_ahead <-
    (if len (dtindex d) <? steps_for horizon_hours f then
       warning (horizon_message horizon_hours);;
       ret (len (dtindex d) - 1)
     else ret (steps_for horizon_hours f));;
  modify (with__t2 (Z.min (_t1 d + steps_ahead - 1) (len (dtindex d) - 1)));;
  d' <- get;;
  modify (with_dtindex_custom (slice (dtindex d') (_t1 d') (_t2 d' + 1))).

(** The handler [set_rolling_horizon] leaves once it has chosen [t2]. *)
Definition rolled (d : DateTimeHandler) (t2 : Z) : DateTimeHandler :=
  with_dtindex_custom (slice (dtindex d) (_t1 d) (t2 + 1)) (with__t2 t2 d).

End DateTimeHandler.

(** ** [draf/core/case_study.py]: construction and the time window *)

Section CaseStudyWindow.
Context {opq : Opaque} {lib : Library}.

Definition with_dth (v : DateTimeHandler) (cs : CaseStudy) : CaseStudy :=
  {| cs_name := cs_name cs; cs_doc := cs_doc cs; dth := v; country := country cs;
     consider_invest := consider_invest cs; coords := coords cs; scens := scens cs;
     obj_vars := obj_vars cs; mdl_language := mdl_language cs;
     scen_vars := scen_vars cs; scen_df := scen_df cs |}.

Definition with_scens (v : list (string * ref)) (cs : CaseStudy) : CaseStudy :=
  {| cs_name := cs_name cs; cs_doc := cs_doc cs; dth := dth cs; country := country cs;
     consider_invest := consider_invest cs; coords := coords cs; scens := v;
     obj_vars := obj_vars cs; mdl_language := mdl_language cs;
     scen_vars := scen_vars cs; scen_df := scen_df cs |}.

Definition with_scen_vars (v : option (list ScenVar)) (cs : CaseStudy) : CaseStudy :=
  {| cs_name := cs_name cs; cs_doc := cs_doc cs; dth := dth cs; country := country cs;
     consider_invest := consider_invest cs; coords := coords cs; scens := scens cs;
     obj_vars := obj_vars cs; mdl_language := mdl_language cs;
     scen_vars := Some v; scen_df := scen_df cs |}.

Definition with_scen_df (v : DataFrame) (cs : CaseStudy) : CaseStudy :=
  {| cs_name := cs_name cs; cs_doc := cs_doc cs; dth := dth cs; country := country cs;
     consider_invest := consider_invest cs; coords := coords cs; scens := scens cs;
     obj_vars := obj_vars cs; mdl_language := mdl_language cs;
     scen_vars := scen_vars cs; scen_df := Some v |}.

(** A method of [DateTimeHandler] called on a [CaseStudy]. *)
Definition inherited {A} (c : M DateTimeHandler A) : M CaseStudy A :=
  zoom dth with_dth c.

(** What a constructor call leaves: the object, or the exception
    together with the attributes assigned on [self] before it. *)
Inductive constructed :=
| Built (cs : CaseStudy)
| Aborted (e : exn) (assigned : list string).

(** [CaseStudy.__init__].  The plotting helper [self.plot] holds no
    state of the case study and is left out. *)
Definition CaseStudy__init__ (name_ : string) (year_ : Z) (freq_ : string)
    (country_ : string) (consider_invest_ : bool) (doc_ : string)
    (coords_ : option (Object * Object)) (obj_vars_ : string * string)
    (mdl_language_ : string) : constructed :=
  if bool_decide (freq_ ∈ valid_freqs) then
    match _set_dtindex year_ freq_ with
    | Returns d =>
        Built {| cs_name := name_; cs_doc := doc_; dth := d; country := country_;
                 consider_invest := consider_invest_; coords := coords_; scens := [];
                 obj_vars := obj_vars_; mdl_language := mdl_language_;
                 scen_vars := None; scen_df := None |}
    | Raises e => Aborted e ["name"; "doc"]
    end
  else Aborted (AssertionError (freq_message freq_)) [].

(** [set_time_horizon]; it returns [self], which the state carries. *)
Definition set_time_horizon (start : position) (steps : option Z)
    (end_ : option position) : M CaseStudy unit :=
  t <- inherited (_get_integer_locations start steps end_);;
  let t1 := t.1 in
  let t2 := t.2 in
  cs <- gets (fun cs : CaseStudy => cs);;
  modify (with_dth (with_dtindex_custom (slice (dtindex cs) t1 (t2 + 1)) cs));;
  cs <- gets (fun cs : CaseStudy => cs);;
  c0 <- unwrap (getitem (dtindex_custom cs) 0) IndexError;;
  f1 <- unwrap (getitem (dtindex cs) t1) IndexError;;
  assert (c0 =? f1) "";;
  cl <- unwrap (getitem (dtindex_custom cs) (-1)) IndexError;;
  f2 <- unwrap (getitem (dtindex cs) t2) IndexError;;
  assert (cl =? f2) "";;
  modify (fun cs : CaseStudy => with_dth (with__t1 t1 cs) cs);;
  modify (fun cs : CaseStudy => with_dth (with__t2 t2 cs) cs).

(** The case study a [set_time_horizon] that resolved [(t1, t2)] and
    passed its two assertions leaves behind. *)
Definition windowed (cs : CaseStudy) (t1 t2 : Z) : CaseStudy :=
  with_dth
    (with__t2 t2 (with__t1 t1
       (with_dtindex_custom (slice (dtindex cs) t1 (t2 + 1)) cs))) cs.

(** The offset [start] stands for on the handler [d]: itself, or what
    the date string resolves to. *)
Definition start_location (d : DateTimeHandler) (start : position) (t1 : Z) : Prop :=
  match start with
  | PInt i => t1 = i
  | PStr s => result (_get_first_int_loc_from_dtstring s d) = Returns t1
  end.

End CaseStudyWindow.

(** ** [draf/core/case_study.py]: the scenario collection *)

Section ScenarioObjects.
Context {opq : Opaque}.

Definition with_collectors (v : gmap string (gmap string Contribution)) (sc : Scenario)
    : Scenario :=
  {| id := id sc; name := name sc; doc := doc sc; custom_model := custom_model sc;
     params := params sc; vars := vars sc; collectors := v; res := res sc |}.

Definition with_res (v : option Results) (sc : Scenario) : Scenario :=
  {| id := id sc; name := name sc; doc := doc sc; custom_model := custom_model sc;
     params := params sc; vars := vars sc; collectors := collectors sc; res := v |}.

Definition with_vars (v : Vars) (sc : Scenario) : Scenario :=
  {| id := id sc; name := name sc; doc := doc sc; custom_model := custom_model sc;
     params := params sc; vars := v; collectors := collectors sc; res := res sc |}.

Definition with_params (v : gmap string Value) (sc : Scenario) : Scenario :=
  {| id := id sc; name := name sc; doc := doc sc; custom_model := custom_model sc;
     params := v; vars := vars sc; collectors := collectors sc; res := res sc |}.

(** The four assignments [sc.id = id; sc.name = name; sc.doc = doc;
    sc.custom_model = custom_model]. *)
Definition relabel (id_ name_ doc_ : string) (custom_model_ : option Callable)
    (sc : Scenario) : Scenario :=
  {| id := id_; name := name_; doc := doc_; custom_model := custom_model_;
     params := params sc; vars := vars sc; collectors := collectors sc; res := res sc |}.

(** [for k, v in sc.collectors.get_all().items(): v.clear()]: every
    collector stays declared and loses all its contributions. *)
Definition clear_collectors (sc : Scenario) : Scenario :=
  with_collectors ((fun _ => ∅) <$> collectors sc) sc.

(** Modelled from the spec: [sc.vars.delete_all()] belongs to the
    entity-store class, which is not part of the sources.  A derived
    scenario keeps the variable templates and has the variable state
    dropped (section 3 and 4.4), so the variable objects go and [_meta]
    stays. *)
Definition vars_delete_all (v : Vars) : Vars :=
  {| entities := ∅; _meta := _meta v |}.

(** [delattr(sc, "res"); sc.vars.delete_all()] *)
Definition drop_solution (sc : Scenario) : Scenario :=
  with_vars (vars_delete_all (vars sc)) (with_res None sc).

(** Modelled from the spec: [Scenario.update_params], called with one
    keyword argument [ent=value], is not part of the sources.  Section 4.4: a key that names a
    declared variable fixes its lower and upper bound to the value, a
    key that names a parameter overwrites the stored value, and a key
    that names neither fails with [UnknownEntityError]. *)
Definition update_params (ent : string) (value : Value) (sc : Scenario) : outcome Scenario :=
  match _meta (vars sc) !! ent with
  | Some m =>
      Returns (with_vars
                 {| entities := entities (vars sc);
                    _meta := <[ent := <["ub" := value]> (<["lb" := value]> m)]>
                               (_meta (vars sc)) |} sc)
  | None =>
      match params sc !! ent with
      | Some _ => Returns (with_params (<[ent := value]> (params sc)) sc)
      | None => Raises (UnknownEntityError ent)
      end
  end.

(** [sc.vars._meta[ent]["lb"] = value; sc.vars._meta[ent]["ub"] = value]
    for an [ent] that is in [sc.vars._meta]. *)
Definition fix_bounds (ent : string) (value : Value) (sc : Scenario) : Scenario :=
  with_vars
    {| entities := entities (vars sc);
       _meta := alter (fun m => <["ub" := value]> (<["lb" := value]> m)) ent
                  (_meta (vars sc)) |} sc.

Definition with_self (v : CaseStudy) (w : World) : World :=
  {| self := v; heap := heap w |}.

Definition with_heap (v : list Scenario) (w : World) : World :=
  {| self := self w; heap := v |}.

End ScenarioObjects.

Section ScenarioStore.
Context {opq : Opaque} {lib : Library}.

(** [scens_dic], [scens_ids] and [scens_list], as references. *)
Definition scens_dic (cs : CaseStudy) : list (string * ref) := scens cs.

Definition scens_ids (cs : CaseStudy) : list string := Dict.keys (scens_dic cs).

Definition scens_list (cs : CaseStudy) : list ref := Dict.values (scens_dic cs).

(** Heap access.  A reference held by a well-formed world always points
    into the heap; reading any other reference raises [AttributeError]
    and updating it does nothing. *)
Definition new_object (sc : Scenario) : M World ref :=
  w <- get;;
  modify (with_heap (heap w ++ [sc]));;
  ret (length (heap w)).

Definition read_object (r : ref) : M World Scenario :=
  w <- get;;
  unwrap (heap w !! r) (AttributeError "").

Definition update_object (r : ref) (f : Scenario -> Scenario) : M World unit :=
  modify (fun w : World => with_heap (alter f r (heap w)) w).

(** Modelled from the spec: the class of [CaseStudy.scens] is not part
    of the sources; it is an attribute store, the ordered mapping from
    scenario id to scenario of section 3.  [getattr] of a missing id
    raises [AttributeError], [setattr] binds the id, [delattr] removes
    an id that is bound. *)
Definition getattr_scens (key : string) : M World ref :=
  w <- get;;
  r <- unwrap (Dict.get (scens (self w)) key) (AttributeError key);;
  read_object r;;
  ret r.

Definition setattr_scens (key : string) (r : ref) : M World unit :=
  modify (fun w : World =>
            with_self (with_scens (Dict.set (scens (self w)) key r) (self w)) w).

Definition delattr_scens (key : string) : M World unit :=
  w <- get;;
  unwrap (Dict.get (scens (self w)) key) (AttributeError key);;
  modify (fun w : World =>
            with_self (with_scens (Dict.del (scens (self w)) key) (self w)) w).

(** Modelled from the spec: [Scenario._special_copy] is not part of the
    sources.  Derivation is a structural value copy of the base
    scenario, not a reference to it (sections 4.4 and 5): a new object
    with the attributes the base has at that moment. *)
Definition _special_copy (base : ref) : M World ref :=
  sc <- read_object base;;
  new_object sc.

Definition has_res (sc : Scenario) : bool :=
  match res sc with Some _ => true | None => false end.

(** The keyword arguments [add_scen] passes to [Scenario(...)]. *)
Definition scenario_args (cs : CaseStudy) (id_ name_ doc_ : string)
    (components : option (list Component)) (custom_model_ : option Callable)
    (update_dims : option Dims) : ScenarioArgs :=
  {| a_id := id_; a_name := name_; a_doc := doc_;
     a_coords := coords cs; a_year := year cs;
     a_country := country cs; a_freq := freq cs;
     a_cs_name := cs_name cs; a_dtindex := dtindex cs;
     a_dtindex_custom := dtindex_custom cs;
     a_t1 := _t1 cs; a_t2 := _t2 cs;
     a_components := components;
     a_consider_invest := consider_invest cs;
     a_mdl_language := mdl_language cs;
     a_obj_vars := obj_vars cs;
     a_custom_model := custom_model_;
     a_update_dims := update_dims |}.

(** [CaseStudy.add_scen] *)
Definition add_scen (id_ : option string) (name_ doc_ : string)
    (based_on : option string) (based_on_last : bool)
    (components : option (list Component)) (custom_model_ : option Callable)
    (update_dims : option Dims) : M World ref :=
  bd <- (if based_on_last then
           w <- get;;
           b <- unwrap (getitem (scens_ids (self w)) (-1)) IndexError;;
           ret (Some b, b +:+ " + " +:+ doc_)
         else ret (based_on, doc_));;
  let based_on := bd.1 in
  let doc_ := bd.2 in
  id_ <- match id_ with
         | None => w <- get;; ret ("sc" +:+ str (len (scens_list (self w))))
         | Some i => ret i
         end;;
  sc <- match based_on with
        | None =>
            w <- get;;
            s <- lift (Scenario_init
                         (scenario_args (self w) id_ name_ doc_ components
                            custom_model_ update_dims));;
            new_object s
        | Some b =>
            match components with
            | Some _ => raise (RuntimeError "Components can only be set if based_on='None'")
            | None => ret tt
            end;;
            base_sc <- getattr_scens b;;
            update_object base_sc
              (fun s => if has_res s then clear_collectors s else s);;
            sc <- _special_copy base_sc;;
            update_object sc (fun s => if has_res s then drop_solution s else s);;
            update_object sc (relabel id_ name_ doc_ custom_model_);;
            ret sc
        end;;
  setattr_scens id_ sc;;
  ret sc.

(** [CaseStudy.add_REF_scen], without the keyword arguments it only
    forwards. *)
Definition add_REF_scen (name_ doc_ : string) (components : option (list Component))
    : M World ref :=
  add_scen (Some "REF") name_ doc_ None false components None None.

End ScenarioStore.

Section DerivationVocabulary.
Context {opq : Opaque}.

(** The id [add_scen] uses: the one given, or the positional
    [sc<number of scenarios>]. *)
Definition chosen_id (cs : CaseStudy) (id_ : option string) : string :=
  match id_ with
  | Some i => i
  | None => "sc" +:+ str (len (Dict.values (scens cs)))
  end.

(** The id [add_scen] derives from, when there is one: the last id of
    the collection if [based_on_last] is set, else [based_on]; and the
    doc string the derived scenario gets. *)
Definition effective_base (cs : CaseStudy) (based_on : option string)
    (based_on_last : bool) : option string :=
  if based_on_last then getitem (Dict.keys (scens cs)) (-1) else based_on.

Definition effective_doc (b : string) (based_on_last : bool) (doc_ : string) : string :=
  if based_on_last then b +:+ " + " +:+ doc_ else doc_.

(** The base scenario once [add_scen] has looked at it: its collectors
    are cleared if it carries results. *)
Definition visited_base (base : Scenario) : Scenario :=
  if has_res base then clear_collectors base else base.

(** The scenario derived from [base]: a copy of the visited base with
    the solution dropped and the new labels. *)
Definition derived (base : Scenario) (id_ name_ doc_ : string)
    (custom_model_ : option Callable) : Scenario :=
  relabel id_ name_ doc_ custom_model_
    (if has_res (visited_base base) then drop_solution (visited_base base)
     else visited_base base).

(** Every collector of [sc] is empty. *)
Definition collectors_empty (sc : Scenario) : Prop :=
  forall k v, collectors sc !! k = Some v -> v = ∅.

End DerivationVocabulary.

(** ** The pandas operations of [add_scens] *)

Section Sweep.
Context {opq : Opaque} {lib : Library}.

(** [str(v)] of a sweep value. *)
Definition str_value (v : Value) : string :=
  match v with
  | VInt z => str z
  | VStr s => s
  | VObj o => str_object o
  end.

Definition label_str (l : Label) : string :=
  match l with
  | LName s => s
  | LPos i => str i
  end.

(** [str.isidentifier] on ASCII text: a letter or underscore followed
    by letters, digits and underscores.  A byte outside ASCII counts as
    no identifier character, while Python accepts letters of other
    scripts: [true] is Python's answer on every string, [false] is
    Python's answer on ASCII text ([is_ascii]) only. *)
Definition is_id_start (c : Ascii.ascii) : bool :=
  let n := Ascii.N_of_ascii c in
  (N.leb 65 n && N.leb n 90) || (N.leb 97 n && N.leb n 122) || N.eqb n 95.

Definition is_id_continue (c : Ascii.ascii) : bool :=
  let n := Ascii.N_of_ascii c in
  is_id_start c || (N.leb 48 n && N.leb n 57).

Definition isidentifier (s : string) : bool :=
  match s with
  | EmptyString => false
  | String c s' => is_id_start c && forallb is_id_continue (String.list_ascii_of_string s')
  end.

(** Text of ASCII characters only. *)
Definition is_ascii (s : string) : bool :=
  forallb (fun c => N.ltb (Ascii.N_of_ascii c) 128) (String.list_ascii_of_string s).

(** The rows of [MultiIndex.from_product(value_lists)]: every
    combination, the last list varying fastest. *)
Fixpoint from_product (value_lists : list (list Value)) : list (list Value) :=
  match value_lists with
  | [] => [[]]
  | l :: ls => flat_map (fun x => (fun row : list Value => x :: row) <$> from_product ls) l
  end.

(** Column [j] of a table given row by row. *)
Definition column {A} (rows : list (list A)) (j : nat) : list A :=
  omap (fun row => row !! j) rows.

(** [DataFrame(index=MultiIndex.from_product(value_lists, names=names)).reset_index()]:
    one column per name, one row per combination, a fresh [RangeIndex]. *)
Definition product_frame (names : list string) (value_lists : list (list Value)) : DataFrame :=
  let rows := from_product value_lists in
  {| index := (fun k : nat => LPos (Z.of_nat k)) <$> seq 0 (length rows);
     columns := LName <$> names;
     cells := rows |}.

(** A sweep value that pandas stores as an [int64]. *)
Definition int64_value (v : Value) : Prop :=
  exists z, v = VInt z /\ - 2 ^ 63 <= z < 2 ^ 63.

(** [df.T].  Cells keep their values.  pandas keeps them when all
    columns have one dtype, as in a frame of integers of the [int64]
    range ([int64_value]); it converts them to floats when columns of
    different numeric dtypes meet (integers beside floats, or integers
    below [2^63] beside integers from [2^63] on), so what is stated
    about the table of a sweep is stated for [int64] values. *)
Definition T (df : DataFrame) : DataFrame :=
  {| index := columns df;
     columns := index df;
     cells := column (cells df) <$> seq 0 (length (columns df)) |}.

(** [df.astype(str)] *)
Definition astype_str (df : DataFrame) : DataFrame :=
  {| index := index df;
     columns := columns df;
     cells := (fun row : list Value => (fun v => VStr (str_value v)) <$> row) <$> cells df |}.

(** [df.apply(lambda x: names_short + x)]: in every column, the short
    names are put in front of the cells, position by position. *)
Definition prefix_columns (names_short : list string) (df : DataFrame) : DataFrame :=
  {| index := index df;
     columns := columns df;
     cells := zip_with (fun p (row : list Value) => (fun v => VStr (p +:+ str_value v)) <$> row)
                names_short (cells df) |}.

(** [["_".join(dfn[x].values) for x in dfn]] *)
Definition joined_names (dfn : DataFrame) : list string :=
  (fun j => String.concat "_" (str_value <$> column (cells dfn) j))
    <$> seq 0 (length (columns dfn)).

(** [df.index = names] *)
Definition set_index (names : list string) (df : DataFrame) : DataFrame :=
  {| index := LName <$> names; columns := columns df; cells := cells df |}.

(** [df.items()]: each column label with the column as a series, a
    list of (row label, cell). *)
Definition items (df : DataFrame) : list (Label * list (Label * Value)) :=
  imap (fun j c => (c, zip (index df) (column (cells df) j))) (columns df).

(** The sweep table of [add_scens]: [scen_df = df.T] for the product
    frame [df] re-indexed by the composed scenario names. *)
Definition sweep_table (names_long names_short : list string)
    (value_lists : list (list Value)) : DataFrame :=
  let df := product_frame names_long value_lists in
  let dfn := prefix_columns names_short (astype_str (T df)) in
  T (set_index (joined_names dfn) df).

End Sweep.

(** ** [CaseStudy.add_scens] *)

Section AddScens.
Context {opq : Opaque} {lib : Library}.

(** [sc.update_params(ent=value)] on the scenario object [sc]. *)
Definition call_update_params (sc : ref) (ent : string) (value : Value) : M World unit :=
  s <- read_object sc;;
  s' <- lift (update_params ent value s);;
  update_object sc (fun _ => s').

(** The body of the inner loop, over the entries [(ent_name, value)]
    of one column: a string value names the entity to take the value
    from; a variable gets its bounds fixed, anything else goes through
    [update_params].  The two [logger.info] calls are below the WARN
    level the logger is set to and leave no record. *)
Definition set_sweep_entity (sc : ref) (x : Label * Value) : M World unit :=
  let ent_name := label_str x.1 in
  value <- match x.2 with
           | VStr s => s0 <- read_object sc;; lift (get_entity s0 s)
           | v => ret v
           end;;
  s0 <- read_object sc;;
  match _meta (vars s0) !! ent_name with
  | Some _ => update_object sc (fix_bounds ent_name value)
  | None => call_update_params sc ent_name value
  end.

(** [f"{x[0]}={x[1]}"] joined with ["; "]. *)
Definition long_doc (ser : list (Label * Value)) : string :=
  String.concat "; "
    ((fun x : Label * Value => label_str x.1 +:+ "=" +:+ str_value x.2) <$> ser).

(** The body of the outer loop, over the columns [(sc_name, ser)] of
    [scen_df]. *)
Definition add_sweep_scen (based_on : string) (sc_name : string)
    (ser : list (Label * Value)) : M World unit :=
  w <- get;;
  let scen_id :=
    if isidentifier sc_name then sc_name
    else "sc" +:+ str (len (scens_dic (self w))) in
  sc <- add_scen (Some scen_id) sc_name (long_doc ser) (Some based_on) false None None None;;
  call_update_params sc "t__params_" (VInt 0);;
  for_each ser (set_sweep_entity sc).

(** [add_scens].  With [scen_vars = None] and no Pareto points the
    [RuntimeError] is built but not raised, and unpacking [zip] of
    [None] raises [TypeError]; an empty [scen_vars] fails to unpack;
    [reset_index] refuses two levels of the same name. *)
Definition add_scens (scen_vars_ : option (list ScenVar)) (nParetoPoints : Z)
    (remove_base : bool) (based_on : string) : M World unit :=
  let given :=
    match scen_vars_ with
    | None => if 0 <? nParetoPoints then Some [] else None
    | Some l => Some l
    end in
  let swept :=
    if 0 <? nParetoPoints then
      (fun l : list ScenVar =>
         l ++ [("k_PTO_alpha_", "a", VObj <$> linspace nParetoPoints)]) <$> given
    else given in
  modify (fun w : World => with_self (with_scen_vars swept (self w)) w);;
  match swept with
  | None => raise TypeError
  | Some [] => raise (ValueError "not enough values to unpack (expected 3, got 0)")
  | Some l =>
      let names_long := (fun v : ScenVar => v.1.1) <$> l in
      let names_short := (fun v : ScenVar => v.1.2) <$> l in
      let value_lists := (fun v : ScenVar => v.2) <$> l in
      (if bool_decide (NoDup names_long) then ret tt
       else raise (ValueError "cannot insert a level, already exists"));;
      let scen_df_ := sweep_table names_long names_short value_lists in
      modify (fun w : World => with_self (with_scen_df scen_df_ (self w)) w);;
      for_each (items scen_df_)
        (fun col => add_sweep_scen based_on (label_str col.1) col.2);;
      if remove_base then delattr_scens based_on else ret tt
  end.

End AddScens.

Section SweepVocabulary.
Context {opq : Opaque}.

(** [ent] is a declared variable or a stored parameter of [sc]: the
    entities [update_params] accepts. *)
Definition declared (sc : Scenario) (ent : string) : Prop :=
  is_Some (_meta (vars sc) !! ent) \/ is_Some (params sc !! ent).

(** The sweep [[("X","x",[1,2]), ("Y","y",[10,20])]], the scenario ids
    composed for it and the table [scen_df] set for it. *)
Definition sweep_XY : list ScenVar :=
  [("X", "x", [VInt 1; VInt 2]); ("Y", "y", [VInt 10; VInt 20])].

Definition sweep_XY_ids : list string := ["x1_y10"; "x1_y20"; "x2_y10"; "x2_y20"].

Definition sweep_XY_table : DataFrame :=
  {| index := [LName "X"; LName "Y"];
     columns := LName <$> sweep_XY_ids;
     cells := [[VInt 1; VInt 1; VInt 2; VInt 2];
               [VInt 10; VInt 20; VInt 10; VInt 20]] |}.

(** [sc'] declares the variables and parameters [sc] declares; and
    [sc'] has moreover the labels, results and collectors of [sc].
    Parameter values and variable bounds may differ. *)
Definition same_entities (sc sc' : Scenario) : Prop :=
  (forall e, is_Some (_meta (vars sc') !! e) <-> is_Some (_meta (vars sc) !! e)) /\
  (forall e, is_Some (params sc' !! e) <-> is_Some (params sc !! e)).

Definition same_shape (sc sc' : Scenario) : Prop :=
  id sc' = id sc /\ name sc' = name sc /\ doc sc' = doc sc /\ res sc' = res sc /\
  collectors sc' = collectors sc /\ same_entities sc sc'.

(** The scenario collection after binding [names] to the references
    [refs], in order. *)
Definition bind_all (d : list (string * ref)) (names : list string) (refs : list ref)
    : list (string * ref) :=
  fold_left (fun d (p : string * ref) => Dict.set d p.1 p.2) (zip names refs) d.

(** The (X, Y) pair each column of a two-row table holds. *)
Definition column_pairs (df : DataFrame) : list (Value * Value) :=
  match cells df with
  | [xs; ys] => zip xs ys
  | _ => []
  end.

End SweepVocabulary.
(** ** A concrete setting for examples

    The library functions are given simple implementations: time stamps
    are minutes since the start of the year, a date string is looked up
    in a two-entry table, and a fresh scenario starts empty. *)

Module Demo.

Definition opaque : Opaque :=
  {| Object := string; Component := string; Callable := string;
     Contribution := Z; Results := list (string * Z); Dims := unit |}.

Definition days_in_year (y : Z) : Z :=
  if ((y mod 4 =? 0) && negb (y mod 100 =? 0)) || (y mod 400 =? 0) then 366 else 365.

Definition year_index (y : Z) (fr : string) : list Timestamp :=
  let f := default 60 (int_from_freq fr) in
  (fun k : nat => Z.of_nat k * f) <$> seq 0 (Z.to_nat (days_in_year y * 1440 / f)).

Definition lookup_date (idx : list Timestamp) (key : string) : option location :=
  if decide (key = "2019-01-01") then Some (LocSlice 0 24)
  else if decide (key = "2019-01-02 00:00") then Some (LocInt 24)
  else None.

Definition fresh_scenario (a : @ScenarioArgs opaque) : outcome (@Scenario opaque) :=
  Returns {| id := a_id a; name := a_name a; doc := a_doc a;
             custom_model := a_custom_model a; params := ∅;
             vars := {| entities := ∅; _meta := ∅ |};
             collectors := ∅; res := None |}.

Definition param_entity (sc : @Scenario opaque) (ent : string) : outcome (@Value opaque) :=
  match params sc !! ent with
  | Some v => Returns v
  | None => Raises (KeyError ent)
  end.

Definition library : @Library opaque :=
  {| make_datetimeindex := year_index;
     get_loc := lookup_date;
     linspace := fun n => (fun k : nat => pretty k) <$> seq 0 (Z.to_nat n);
     str_object := fun o : @Object opaque => (o : string);
     Scenario_init := fresh_scenario;
     get_entity := param_entity |}.

(** The handler of [CaseStudy(year=2019, freq="60min")]: 8760 hourly
    steps. *)
Definition handler2019 : DateTimeHandler :=
  {| year := 2019; freq := "60min";
     dtindex := year_index 2019 "60min";
     dtindex_custom := year_index 2019 "60min";
     _t1 := 0; _t2 := 8759 |}.

Definition cs2019 : @CaseStudy opaque :=
  {| cs_name := "test"; cs_doc := "No doc available."; dth := handler2019;
     country := "DE"; consider_invest := false; coords := None; scens := [];
     obj_vars := ("C_TOT_", "CE_TOT_"); mdl_language := "gp";
     scen_vars := None; scen_df := None |}.

(** A reference scenario that has been solved: two collectors with
    contributions, parameters, one variable and results. *)
Definition solved_results : @Results opaque := [("C_TOT_", 100); ("CE_TOT_", 40)].

Definition solved_collectors : gmap string (gmap string (@Contribution opaque)) :=
  {[ "P_EL_source_T" := {[ "PV" := 1; "EG" := 2 ]};
     "C_TOT_op_" := {[ "EG" := 3 ]} ]}.

Definition solved_vars : @Vars opaque :=
  {| entities := {[ "P_EG_buy_T" := ("var" : @Object opaque) ]};
     _meta := {[ "P_EG_buy_T" := {[ "lb" := VInt 0 ]} ]} |}.

Definition solved_REF : @Scenario opaque :=
  {| id := "REF"; name := "REF"; doc := "Reference scenario"; custom_model := None;
     params := {[ "t__params_" := VInt 0; "X" := VInt 0; "Y" := VInt 0 ]};
     vars := solved_vars;
     collectors := solved_collectors;
     res := Some solved_results |}.

(** The 2019 case study holding that scenario under the id [REF]. *)
Definition study : @World opaque :=
  {| self := with_scens [("REF", 0%nat)] cs2019; heap := [solved_REF] |}.

End Demo.

(** ** Further methods of [DateTimeHandler] *)

(** [data[a:b]] for a slice object whose bounds may be [None]. *)
Definition slice_open {A} (l : list A) (a b : option Z) : list A :=
  slice l (default 0 a) (default (len l) b).

Section MoreDateTimeHandler.
Context {opq : Opaque} {lib : Library}.

(** [steps_per_day]: [int(60 / int_from_freq(freq) * 24)].  The
    minutes of a frequency divide 60, so the quotient is exact. *)
Definition steps_per_day : M DateTimeHandler Z :=
  d <- get;;
  f <- unwrap (int_from_freq (freq d)) (ValueError (freq d));;
  ret (Z.quot 60 f * 24).

(** [freq_unit] *)
Definition freq_unit (d : DateTimeHandler) : string :=
  if decide (freq d = "1min") then "min"
  else if decide (freq d = "5min") then "5 min"
  else if decide (freq d = "15min") then "1/4 h"
  else if decide (freq d = "30min") then "1/2 h"
  else if decide (freq d = "60min") then "h"
  else freq d.

(** [is_high_resolution] *)
Definition is_high_resolution (d : DateTimeHandler) : bool :=
  bool_decide (freq d ∈ ["1min"; "5min"; "15min"; "30min"]).

(** [match_dtindex(data, resample)] on a series given by its values;
    [hp.resample] is not among the sources and is the parameter
    [resample_]. *)
Definition match_dtindex {A} (resample_ : DateTimeHandler -> list A -> list A)
    (data : list A) (resample : bool) : M DateTimeHandler (list A) :=
  d <- get;;
  let data := if resample then resample_ d data else data in
  ret (slice data (_t1 d) (_t2 d + 1)).

(** [timeslice(start, stop)]: the two bounds of the [slice] object. *)
Definition timeslice (start stop : option string)
    : M DateTimeHandler (option Z * option Z) :=
  start_int <- match start with
               | None => ret None
               | Some s => x <- _get_first_int_loc_from_dtstring s;; ret (Some x)
               end;;
  stop_int <- match stop with
              | None => ret None
              | Some s => x <- _get_last_int_loc_from_dtstring s;; ret (Some x)
              end;;
  ret (start_int, stop_int).

(** The invariant of the data model on the window offsets. *)
Definition window_in_bounds (d : DateTimeHandler) : Prop :=
  0 <= _t1 d /\ _t1 d <= _t2 d /\ _t2 d < len (dtindex d).

(** The key [_get_int_loc_from_dtstring] looks up for the string [s]. *)
Definition date_key (d : DateTimeHandler) (s : string) : string :=
  str (year d) +:+ "-" +:+ s.

End MoreDateTimeHandler.

(** ** Further methods of [CaseStudy] *)

(** [try: c except E: h], for the exceptions [E] that [catches]
    accepts. *)
Definition try_except {S A} (c : M S A) (catches : exn -> bool) (h : M S A) : M S A :=
  fun s =>
    match c s with
    | Run (Raises e) s1 l1 =>
        if catches e then
          match h s1 with
          | Run o s2 l2 => Run o s2 (l1 ++ l2)
          end
        else Run (Raises e) s1 l1
    | Run (Returns a) s1 l1 => Run (Returns a) s1 l1
    end.

Definition is_AttributeError (e : exn) : bool :=
  match e with
  | AttributeError _ => true
  | _ => false
  end.

(** A [for] loop that appends to lists it carries along. *)
Fixpoint for_acc {S A B} (l : list A) (acc : B) (body : A -> B -> M S B) : M S B :=
  match l with
  | [] => ret acc
  | x :: l' => bind (body x acc) (fun acc' => for_acc l' acc' body)
  end.

Section MoreCaseStudy.
Context {opq : Opaque} {lib : Library}.

(** [any_scen]: [self.scens_list[0]] *)
Definition any_scen : M World ref :=
  w <- get;;
  unwrap (getitem (scens_list (self w)) 0) IndexError.

(** [hasattr(sc, "res")] for the object a reference points to. *)
Definition object_has_res (w : World) (r : ref) : bool :=
  match heap w !! r with
  | Some sc => has_res sc
  | None => false
  end.

(** [valid_scens]: the dict comprehension over [scens_dic.items()]. *)
Definition valid_scens (w : World) : list (string * ref) :=
  filter (fun p : string * ref => Is_true (object_has_res w p.2)) (scens_dic (self w)).

(** [REF_scen] *)
Definition REF_scen : M World ref :=
  try_except (getattr_scens "REF") is_AttributeError
    (w <- get;;
     unwrap (getitem (scens_list (self w)) 0) IndexError).

(** [import_scens(other_cs, exclude, include)].  The scenarios of
    [other_cs] live in the same heap: the loop binds the objects
    themselves, it copies nothing. *)
Definition import_scens (other_cs : CaseStudy) (exclude include : option (list string))
    : M World unit :=
  let scen_dic := scens other_cs in
  let scens_to_import := Dict.keys scen_dic in
  let scens_to_import :=
    match exclude with
    | Some ex => filter (fun n => n ∉ ex) scens_to_import
    | None => scens_to_import
    end in
  let scens_to_import :=
    match include with
    | Some inc => filter (fun n => n ∈ inc) scens_to_import
    | None => scens_to_import
    end in
  for_each scen_dic
    (fun p : string * ref =>
       if bool_decide (p.1 ∈ scens_to_import) then setattr_scens p.1 p.2 else ret tt).

(** The invariant of the scenario collection: an id is bound once, and
    to an object that exists. *)
Definition store_ok (w : World) : Prop :=
  NoDup (Dict.keys (scens (self w))) /\
  forall k r, Dict.get (scens (self w)) k = Some r -> is_Some (heap w !! r).

End MoreCaseStudy.

(** ** [CaseStudy.improve_pareto_norm_factors] *)

(** The methods of [Scenario] and the float arithmetic the method
    calls, none of which is among the sources: [sc.set_model(f)],
    [sc.optimize(...)], the attributes [C_TOT_] and [CE_TOT_] of
    [sc.res], the product of two floats, and [1e3 / np.array(l).mean()]. *)
Class Solver `{Opaque} := {
  set_model : option Callable -> Scenario -> outcome Scenario;
  optimize : Scenario -> outcome Scenario;
  res_attr : Results -> string -> outcome Object;
  float_mul : Object -> Object -> Object;
  norm_factor : list Object -> Object
}.

Section Pareto.
Context {opq : Opaque} {lib : Library} {slv : Solver}.

(** A method call [sc.f(...)] that works on the scenario object. *)
Definition call_method (sc : ref) (f : Scenario -> outcome Scenario) : M World unit :=
  s <- read_object sc;;
  s' <- lift (f s);;
  update_object sc (fun _ => s').

(** Modelled from the spec: the parameter store [sc.params] is not
    part of the sources; it holds the parameters of the scenario by
    name (section 3), and the assignment [sc.params.<ent> = value]
    binds the name to the value. *)
Definition set_param (ent : string) (value : Value) (sc : Scenario) : Scenario :=
  with_params (<[ent := value]> (params sc)) sc.

(** [sc.res.<attr>]: [AttributeError] when the scenario has no
    results. *)
Definition read_res (sc : ref) (attr : string) : M World Object :=
  s <- read_object sc;;
  r <- unwrap (res s) (AttributeError "res");;
  lift (res_attr r attr).

(** The body of the first loop, for the extreme point [i], with the
    lists [nC] and [nCE] it appends to. *)
Definition pareto_point (model_func : option Callable) (adjust_factor : Object)
    (basis_scen_id : string) (i : Z) (acc : list Object * list Object)
    : M World (list Object * list Object) :=
  sc <- add_scen (Some (str i)) "pareto_improver" "" (Some basis_scen_id) false
          None None None;;
  update_object sc (set_param "k_PTO_alpha_" (VInt i));;
  call_method sc (set_model model_func);;
  call_method sc optimize;;
  c <- read_res sc "C_TOT_";;
  ce <- read_res sc "CE_TOT_";;
  delattr_scens (str i);;
  ret (acc.1 ++ [float_mul c adjust_factor], acc.2 ++ [ce]).

(** The body of the second loop.  The [logger.info] call is below the
    level the logger is set to. *)
Definition set_norm_factors (nC nCE : list Object) (sc : ref) : M World unit :=
  update_object sc (set_param "k_PTO_C_" (VObj (norm_factor nC)));;
  update_object sc (set_param "k_PTO_CE_" (VObj (norm_factor nCE))).

(** [improve_pareto_norm_factors].  The second loop, [for sc in
    self.scens], visits the scenarios of the collection in their
    order. *)
Definition improve_pareto_norm_factors (model_func : option Callable)
    (adjust_factor : Object) (basis_scen_id : string) : M World unit :=
  acc <- for_acc [0; 1] ([], []) (pareto_point model_func adjust_factor basis_scen_id);;
  w <- get;;
  for_each (scens_list (self w)) (set_norm_factors acc.1 acc.2).

End Pareto.

(** Two solvers for examples, on the objects of [Demo]: floats are
    kept as the text of the expression.  The first attaches the results
    of the solved reference scenario; the second finds every model
    infeasible. *)
Module DemoSolver.

Definition attach_results (s : @Scenario Demo.opaque) : outcome (@Scenario Demo.opaque) :=
  Returns (with_res (Some Demo.solved_results) s).

Definition read_result (r : @Results Demo.opaque) (attr : string)
    : outcome (@Object Demo.opaque) :=
  match Dict.get (r : list (string * Z)) attr with
  | Some z => Returns (pretty z : @Object Demo.opaque)
  | None => Raises (AttributeError attr)
  end.

Definition product (a b : @Object Demo.opaque) : @Object Demo.opaque :=
  (a : string) +:+ "*" +:+ (b : string).

Definition factor (l : list (@Object Demo.opaque)) : @Object Demo.opaque :=
  "1e3/mean(" +:+ String.concat "," (l : list string) +:+ ")".

Definition solver : @Solver Demo.opaque :=
  {| set_model := fun _ s => Returns s;
     optimize := attach_results;
     res_attr := read_result;
     float_mul := product;
     norm_factor := factor |}.

Definition infeasible : @Solver Demo.opaque :=
  {| set_model := fun _ s => Returns s;
     optimize := fun _ => Raises (RuntimeError "infeasible");
     res_attr := read_result;
     float_mul := product;
     norm_factor := factor |}.

End DemoSolver.

Section ParetoVocabulary.
Context {opq : Opaque} {lib : Library} {slv : Solver}.

(** The scenario carries the two norm factors computed from the lists
    [nC] and [nCE]. *)
Definition normed (nC nCE : list Object) (sc : Scenario) : Prop :=
  params sc !! "k_PTO_C_" = Some (VObj (norm_factor nC)) /\
  params sc !! "k_PTO_CE_" = Some (VObj (norm_factor nCE)).

End ParetoVocabulary.

(** ** The general sweep *)

Section SweepNames.
Context {opq : Opaque} {lib : Library}.

(** The three tuples of [zip( *scen_vars)]. *)
Definition names_long (l : list ScenVar) : list string := (fun v : ScenVar => v.1.1) <$> l.

Definition names_short (l : list ScenVar) : list string := (fun v : ScenVar => v.1.2) <$> l.

Definition value_lists (l : list ScenVar) : list (list Value) :=
  (fun v : ScenVar => v.2) <$> l.

(** The name composed for one combination of values: short name and
    value, joined by underscores. *)
Definition composed_name (short : list string) (row : list Value) : string :=
  String.concat "_" (zip_with (fun p v => p +:+ str_value v) short row).

(** The column of [scen_df] for one combination: its name and its
    series, indexed by the long names. *)
Definition sweep_column (l : list ScenVar) (row : list Value)
    : Label * list (Label * Value) :=
  (LName (composed_name (names_short l) row), zip (LName <$> names_long l) row).

(** A sweep the table of which pandas builds without converting a
    value: at least one entity, no entity twice, and for every entity
    a non-empty list of [int64] values. *)
Definition int64_sweep (l : list ScenVar) : Prop :=
  l <> [] /\ NoDup (names_long l) /\
  Forall (fun v : ScenVar => v.2 <> [] /\ Forall int64_value v.2) l.

End SweepNames.

Section StoreVocabulary.
Context {opq : Opaque}.

(** What a scenario that was there before a call of [add_scen] can
    have become: itself, or, if it is solved, itself with its
    collectors cleared. *)
Definition kept_or_cleared (x x' : Scenario) : Prop :=
  x' = x \/ (x' = clear_collectors x /\ has_res x = true).

End StoreVocabulary.

Section ImportVocabulary.
Context {opq : Opaque}.

(** The ids [import_scens] takes over from [other_cs]: those it
    holds, that are not excluded and, if a list to include is given,
    are on it. *)
Definition imported (other_cs : CaseStudy) (exclude include : option (list string))
    (n : string) : bool :=
  bool_decide (n ∈ Dict.keys (scens other_cs))
  && match exclude with
     | Some ex => bool_decide (n ∉ ex)
     | None => true
     end
  && match include with
     | Some inc => bool_decide (n ∈ inc)
     | None => true
     end.

(** A property of worlds that no change to a scenario object
    disturbs. *)
Definition heap_stable (P : World -> Prop) : Prop :=
  forall w f r, P w -> P (with_heap (alter f r (heap w)) w).

End ImportVocabulary.

(** The ids [add_scen] gives to [n] scenarios added without an id:
    [sc0], [sc1], ... *)
Definition auto_ids (n : nat) : list string :=
  (fun k : nat => "sc" +:+ str (Z.of_nat k)) <$> seq 0 n.

(** ** Specifications of methods on the scenario store

    [hoare P c Q E]: run from a world in [P], the method [c] ends in a
    world in [Q a] when it returns [a] and in a world in [E e] when it
    raises [e]. *)
Definition hoare {S A} (P : S -> Prop) (c : M S A) (Q : A -> S -> Prop)
    (E : exn -> S -> Prop) : Prop :=
  forall s, P s ->
    match c s with
    | Run (Returns a) s' _ => Q a s'
    | Run (Raises e) s' _ => E e s'
    end.

(** * Properties *)

(** ** Positions and slices *)

Section SliceFacts.
Context {A : Type}.
Implicit Types l : list A.

Lemma len_nonneg l : 0 <= len l.
Proof. unfold len. lia. Qed.

Lemma getitem_nat l i : 0 <= i -> getitem l i = l !! Z.to_nat i.
Proof.
  intros Hi. unfold getitem.
  destruct (Z.ltb_spec i 0); [lia | reflexivity].
Qed.

Lemma getitem_Some_range l i x : getitem l i = Some x -> - len l <= i < len l.
Proof.
  unfold getitem, len.
  destruct (Z.ltb_spec i 0) as [Hneg | Hpos].
  - destruct (Z.ltb_spec (i + Z.of_nat (length l)) 0); [discriminate |].
    intros _. lia.
  - intros Hx. apply lookup_lt_Some in Hx. lia.
Qed.

Lemma clamp_range n i : 0 <= n -> 0 <= clamp n i <= n.
Proof. intros Hn. unfold clamp. destruct (Z.ltb_spec i 0); lia. Qed.

Lemma len_slice l a b :
  len (slice l a b) = Z.max 0 (clamp (len l) b - clamp (len l) a).
Proof.
  pose proof (clamp_range (len l) a (len_nonneg l)) as Ha.
  pose proof (clamp_range (len l) b (len_nonneg l)) as Hb.
  unfold slice, len in *. rewrite length_take, length_drop. lia.
Qed.

Lemma slice_nonempty l a b x :
  getitem (slice l a b) 0 = Some x -> clamp (len l) a < clamp (len l) b.
Proof.
  intros Hx. apply getitem_Some_range in Hx. rewrite len_slice in Hx. lia.
Qed.

(** Inside the index, the first element of [l[a:b]] is [l[a]]. *)
Lemma slice_first l a b :
  0 <= a -> a < b -> getitem (slice l a b) 0 = getitem l a.
Proof.
  intros Ha Hab. rewrite !getitem_nat by lia.
  pose proof (len_nonneg l) as Hl.
  unfold slice, clamp.
  destruct (Z.ltb_spec a 0); [lia |].
  destruct (Z.ltb_spec b 0); [lia |].
  destruct (Z_lt_le_dec a (len l)) as [Hlt | Hge].
  - rewrite lookup_take_lt by lia.
    rewrite lookup_drop. f_equal. lia.
  - rewrite lookup_take_ge by lia.
    symmetry. apply lookup_ge_None. unfold len in *. lia.
Qed.

(** Inside the index, the last element of [l[a:b]] is [l[b-1]]. *)
Lemma slice_last l a b :
  0 <= a -> a < b -> b <= len l -> getitem (slice l a b) (-1) = getitem l (b - 1).
Proof.
  intros Ha Hab Hb.
  pose proof (len_slice l a b) as Hlen.
  unfold getitem at 1. rewrite Hlen.
  unfold clamp in *.
  destruct (Z.ltb_spec a 0); [lia |].
  destruct (Z.ltb_spec b 0); [lia |].
  destruct (Z.ltb_spec (-1) 0); [| lia].
  destruct (Z.ltb_spec (-1 + Z.max 0 (Z.min b (len l) - Z.min a (len l))) 0); [lia |].
  rewrite getitem_nat by lia.
  unfold slice, clamp.
  destruct (Z.ltb_spec a 0); [lia |].
  destruct (Z.ltb_spec b 0); [lia |].
  rewrite lookup_take_lt by lia.
  rewrite lookup_drop. f_equal. lia.
Qed.

End SliceFacts.

(** ** The time window *)

Section WindowFacts.
Context {opq : Opaque} {lib : Library}.

Ltac run_simpl :=
  unfold inherited, zoom, bind, ret, raise, get, gets, modify, assert, unwrap in *;
  cbn [result final logged fst snd dth dtindex dtindex_custom _t1 _t2 year freq
       with_dth with_dtindex_custom with__t1 with__t2 app] in *.

Ltac run_step :=
  unfold _get_integer_locations,
    _get_first_int_loc_from_dtstring, _get_last_int_loc_from_dtstring,
    _get_int_loc_from_dtstring in *;
  run_simpl.

(** [_get_integer_locations] only reads the handler and logs nothing. *)
Lemma get_integer_locations_pure start steps end_ d :
  exists o, _get_integer_locations start steps end_ d = Run o d [].
Proof.
  run_step.
  destruct start as [i | s]; run_simpl.
  - destruct steps as [n |], end_ as [[e | e] |]; run_simpl; eauto.
    + destruct (i + n <? len (dtindex d)); run_simpl; eauto.
    + destruct (get_loc (dtindex d) _) as [[j | a b] |]; run_simpl; eauto.
  - destruct (get_loc (dtindex d) _) as [[j | a b] |]; run_simpl; eauto.
    + destruct steps as [n |], end_ as [[e | e] |]; run_simpl; eauto.
      * destruct (j + n <? len (dtindex d)); run_simpl; eauto.
      * destruct (get_loc (dtindex d) _) as [[j' | a' b'] |]; run_simpl; eauto.
    + destruct steps as [n |], end_ as [[e | e] |]; run_simpl; eauto.
      * destruct (a + n <? len (dtindex d)); run_simpl; eauto.
      * destruct (get_loc (dtindex d) _) as [[j' | a' b'] |]; run_simpl; eauto.
Qed.

Lemma with_dth_same (cs : CaseStudy) : with_dth cs cs = cs.
Proof. destruct cs; reflexivity. Qed.

(** What a call to [set_time_horizon] that returns has done. *)
Lemma set_time_horizon_returns start steps end_ (cs : CaseStudy) :
  result (set_time_horizon start steps end_ cs) = Returns tt ->
  exists t1 t2 x y,
    result (_get_integer_locations start steps end_ cs) = Returns (t1, t2) /\
    final (set_time_horizon start steps end_ cs) = windowed cs t1 t2 /\
    getitem (slice (dtindex cs) t1 (t2 + 1)) 0 = Some x /\
    getitem (dtindex cs) t1 = Some x /\
    getitem (slice (dtindex cs) t1 (t2 + 1)) (-1) = Some y /\
    getitem (dtindex cs) t2 = Some y.
Proof.
  destruct (get_integer_locations_pure start steps end_ cs) as [o Ho].
  unfold set_time_horizon. run_simpl. rewrite Ho.
  destruct o as [[t1 t2] | e]; run_simpl; [| discriminate].
  rewrite with_dth_same.
  destruct (getitem (slice (dtindex cs) t1 (t2 + 1)) 0) as [x |] eqn:Hx; run_simpl; [| discriminate].
  destruct (getitem (dtindex cs) t1) as [x' |] eqn:Hx'; run_simpl; [| discriminate].
  destruct (Z.eqb_spec x x') as [-> | Hne]; run_simpl; [| discriminate].
  destruct (getitem (slice (dtindex cs) t1 (t2 + 1)) (-1)) as [y |] eqn:Hy; run_simpl; [| discriminate].
  destruct (getitem (dtindex cs) t2) as [y' |] eqn:Hy'; run_simpl; [| discriminate].
  destruct (Z.eqb_spec y y') as [-> | Hne]; run_simpl; [| discriminate].
  intros _. exists t1, t2, x', y'.
  repeat split; try assumption.
Qed.

(** How [_get_integer_locations] resolves each combination of [steps]
    and [end]. *)
Lemma get_integer_locations_steps d start n t1 :
  start_location d start t1 ->
  result (_get_integer_locations start (Some n) None d) =
    if t1 + n <? len (dtindex d) then Returns (t1, t1 + n - 1)
    else Raises (AssertionError "Too many steps are given.").
Proof.
  unfold start_location. run_step.
  destruct start as [i | s]; run_simpl.
  - intros Hi. subst. destruct (_ <? _); reflexivity.
  - destruct (get_loc (dtindex d) _) as [[j | a b] |]; run_simpl; try discriminate;
      intros Hi; injection Hi as Hi; subst; destruct (_ <? _); reflexivity.
Qed.

Lemma get_integer_locations_neither d start t1 :
  start_location d start t1 ->
  result (_get_integer_locations start None None d) = Returns (t1, len (dtindex d) - 1).
Proof.
  unfold start_location. run_step.
  destruct start as [i | s]; run_simpl.
  - intros Hi. subst. reflexivity.
  - destruct (get_loc (dtindex d) _) as [[j | a b] |]; run_simpl; try discriminate;
      intros Hi; injection Hi as Hi; subst; reflexivity.
Qed.

Lemma get_integer_locations_end d start e t1 :
  start_location d start t1 ->
  result (_get_integer_locations start None (Some (PInt e)) d) = Returns (t1, e).
Proof.
  unfold start_location. run_step.
  destruct start as [i | s]; run_simpl.
  - intros Hi. subst. reflexivity.
  - destruct (get_loc (dtindex d) _) as [[j | a b] |]; run_simpl; try discriminate;
      intros Hi; injection Hi as Hi; subst; reflexivity.
Qed.

Lemma get_integer_locations_both d start n e t1 :
  start_location d start t1 ->
  result (_get_integer_locations start (Some n) (Some e) d) =
    Raises (ValueError "One of steps or end must be given.").
Proof.
  unfold start_location. run_step.
  destruct start as [i | s]; run_simpl; [reflexivity |].
  destruct (get_loc (dtindex d) _) as [[j | a b] |]; run_simpl; try discriminate; reflexivity.
Qed.

(** A window that lies inside the index passes both assertions. *)
Lemma set_time_horizon_accepts start steps end_ (cs : CaseStudy) t1 t2 :
  result (_get_integer_locations start steps end_ cs) = Returns (t1, t2) ->
  0 <= t1 -> t1 <= t2 -> t2 < len (dtindex cs) ->
  result (set_time_horizon start steps end_ cs) = Returns tt /\
  final (set_time_horizon start steps end_ cs) = windowed cs t1 t2 /\
  logged (set_time_horizon start steps end_ cs) = [].
Proof.
  intros Hr H0 H12 H2.
  destruct (get_integer_locations_pure start steps end_ cs) as [o Ho].
  rewrite Ho in Hr. cbn [result] in Hr. subst o.
  assert (Hx : getitem (slice (dtindex cs) t1 (t2 + 1)) 0 = getitem (dtindex cs) t1)
    by (apply slice_first; lia).
  assert (Hy : getitem (slice (dtindex cs) t1 (t2 + 1)) (-1) = getitem (dtindex cs) t2).
  { rewrite slice_last by lia. f_equal. lia. }
  destruct (dtindex cs !! Z.to_nat t1) as [x |] eqn:Ex.
  2:{ apply lookup_ge_None in Ex. unfold len in *. lia. }
  destruct (dtindex cs !! Z.to_nat t2) as [y |] eqn:Ey.
  2:{ apply lookup_ge_None in Ey. unfold len in *. lia. }
  rewrite (getitem_nat _ t1), Ex in Hx by lia.
  rewrite (getitem_nat _ t2), Ey in Hy by lia.
  unfold set_time_horizon. run_simpl. rewrite Ho. run_simpl.
  rewrite with_dth_same, Hx. run_simpl.
  rewrite (getitem_nat _ t1), Ex by lia. run_simpl.
  rewrite Z.eqb_refl. run_simpl. rewrite Hy. run_simpl.
  rewrite (getitem_nat _ t2), Ey by lia. run_simpl.
  rewrite Z.eqb_refl. run_simpl.
  repeat split.
Qed.

(** An exception of [_get_integer_locations] leaves the case study as
    it was. *)
Lemma set_time_horizon_raises start steps end_ (cs : CaseStudy) e :
  result (_get_integer_locations start steps end_ cs) = Raises e ->
  result (set_time_horizon start steps end_ cs) = Raises e /\
  final (set_time_horizon start steps end_ cs) = cs.
Proof.
  intros Hr.
  destruct (get_integer_locations_pure start steps end_ cs) as [o Ho].
  rewrite Ho in Hr. cbn [result] in Hr. subst o.
  unfold set_time_horizon. run_simpl. rewrite Ho. run_simpl.
  split; [reflexivity | apply with_dth_same].
Qed.

Lemma windowed_t1 (cs : CaseStudy) t1 t2 : _t1 (windowed cs t1 t2) = t1.
Proof. reflexivity. Qed.

(** [steps] that stay strictly inside the index are accepted. *)
Lemma set_time_horizon_steps_accepted (cs : CaseStudy) start t1 steps :
  start_location cs start t1 ->
  0 <= t1 -> 1 <= steps -> t1 + steps < len (dtindex cs) ->
  result (set_time_horizon start (Some steps) None cs) = Returns tt /\
  final (set_time_horizon start (Some steps) None cs) = windowed cs t1 (t1 + steps - 1).
Proof.
  intros Hstart H0 H1 Hlt.
  destruct (set_time_horizon_accepts start (Some steps) None cs t1 (t1 + steps - 1))
    as (Hr & Hf & _); try lia; [| auto].
  rewrite (get_integer_locations_steps _ _ _ _ Hstart).
  destruct (Z.ltb_spec (t1 + steps) (len (dtindex cs))); [reflexivity | lia].
Qed.

Lemma windowed_t2 (cs : CaseStudy) t1 t2 : _t2 (windowed cs t1 t2) = t2.
Proof. reflexivity. Qed.

Lemma windowed_custom (cs : CaseStudy) t1 t2 :
  dtindex_custom (windowed cs t1 t2) = slice (dtindex cs) t1 (t2 + 1).
Proof. reflexivity. Qed.

Lemma windowed_dtindex (cs : CaseStudy) t1 t2 : dtindex (windowed cs t1 t2) = dtindex cs.
Proof. reflexivity. Qed.

(** C1, as amended.  With [start] standing for the offset [t1] and [n]
    the length of the full index, [set_time_horizon]
    - raises [AssertionError] when [steps] is given without [end] and
      [t1 + steps >= n];
    - raises [ValueError] when both [steps] and [end] are given;
    - does not fail when neither is given and the start lies inside
      the index, [0 <= t1 < n]: the window then runs to the end of the
      index, [t2 = n - 1]; with neither given and a start at or past
      the end of the index, [t1 >= n], it raises [IndexError];
    - accepts [steps >= 1] with [t1 + steps < n] and an integer [end]
      with [t1 <= end < n], giving [t2 = t1 + steps - 1] and [t2 = end];
    - whenever it returns with non-negative offsets, [t1 <= t2 < n]. *)
Theorem set_time_horizon_contract (cs : CaseStudy) (start : position) (t1 : Z) :
  start_location cs start t1 ->
  (forall steps,
     len (dtindex cs) <= t1 + steps ->
     result (set_time_horizon start (Some steps) None cs)
       = Raises (AssertionError "Too many steps are given.")) /\
  (forall steps e,
     result (set_time_horizon start (Some steps) (Some e) cs)
       = Raises (ValueError "One of steps or end must be given.")) /\
  (0 <= t1 < len (dtindex cs) ->
     result (set_time_horizon start None None cs) = Returns tt /\
     _t1 (final (set_time_horizon start None None cs)) = t1 /\
     _t2 (final (set_time_horizon start None None cs)) = len (dtindex cs) - 1) /\
  (len (dtindex cs) <= t1 ->
     result (set_time_horizon start None None cs) = Raises IndexError) /\
  (forall steps,
     0 <= t1 -> 1 <= steps -> t1 + steps < len (dtindex cs) ->
     result (set_time_horizon start (Some steps) None cs) = Returns tt /\
     _t1 (final (set_time_horizon start (Some steps) None cs)) = t1 /\
     _t2 (final (set_time_horizon start (Some steps) None cs)) = t1 + steps - 1) /\
  (forall e,
     0 <= t1 -> t1 <= e -> e < len (dtindex cs) ->
     result (set_time_horizon start None (Some (PInt e)) cs) = Returns tt /\
     _t1 (final (set_time_horizon start None (Some (PInt e)) cs)) = t1 /\
     _t2 (final (set_time_horizon start None (Some (PInt e)) cs)) = e) /\
  (forall steps end_,
     result (set_time_horizon start steps end_ cs) = Returns tt ->
     0 <= _t1 (final (set_time_horizon start steps end_ cs)) ->
     0 <= _t2 (final (set_time_horizon start steps end_ cs)) ->
     _t1 (final (set_time_horizon start steps end_ cs))
       <= _t2 (final (set_time_horizon start steps end_ cs))
       < len (dtindex cs)).
Proof.
  intros Hstart. repeat apply conj.
  - intros steps Hpast.
    apply set_time_horizon_raises.
    rewrite (get_integer_locations_steps _ _ _ _ Hstart).
    destruct (Z.ltb_spec (t1 + steps) (len (dtindex cs))); [lia | reflexivity].
  - intros steps e.
    apply set_time_horizon_raises.
    apply (get_integer_locations_both _ _ _ _ _ Hstart).
  - intros Ht1.
    destruct (set_time_horizon_accepts start None None cs t1 (len (dtindex cs) - 1))
      as (Hr & Hf & _); try lia.
    { apply get_integer_locations_neither, Hstart. }
    rewrite Hf. auto.
  - intros Hpast.
    destruct (get_integer_locations_pure start None None cs) as [o Ho].
    pose proof (get_integer_locations_neither cs start t1 Hstart) as Hloc.
    rewrite Ho in Hloc. cbn [result] in Hloc. subst o.
    destruct (getitem (slice (dtindex cs) t1 (len (dtindex cs) - 1 + 1)) 0) as [x |] eqn:Hx.
    + apply slice_nonempty in Hx. pose proof (len_nonneg (dtindex cs)).
      unfold clamp in Hx.
      destruct (Z.ltb_spec t1 0), (Z.ltb_spec (len (dtindex cs) - 1 + 1) 0); lia.
    + unfold set_time_horizon. run_simpl. rewrite Ho. run_simpl.
      rewrite with_dth_same, Hx. reflexivity.
  - intros steps H0 H1 Hlt.
    destruct (set_time_horizon_steps_accepted cs start t1 steps Hstart H0 H1 Hlt)
      as (Hr & Hf).
    rewrite Hf. auto.
  - intros e H0 H1 Hlt.
    destruct (set_time_horizon_accepts start None (Some (PInt e)) cs t1 e)
      as (Hr & Hf & _); try lia.
    { apply get_integer_locations_end, Hstart. }
    rewrite Hf. auto.
  - intros steps end_ Hr.
    destruct (set_time_horizon_returns _ _ _ _ Hr)
      as (a & b & x & y & _ & Hf & Hx & _ & _ & Hy).
    rewrite Hf, windowed_t1, windowed_t2. intros Ha Hb.
    apply getitem_Some_range in Hy.
    apply slice_nonempty in Hx.
    pose proof (len_nonneg (dtindex cs)).
    unfold clamp in Hx.
    destruct (Z.ltb_spec a 0); [lia |].
    destruct (Z.ltb_spec (b + 1) 0); lia.
Qed.

(** C6.  For every [(start, steps)] pair that [set_time_horizon]
    accepts, afterwards the custom index is the slice
    [dtindex[t1 : t2 + 1]] of the unchanged full index, its first
    element is [dtindex[t1]] and its last element is [dtindex[t2]];
    and a pair with [0 <= t1], [1 <= steps] and [t1 + steps] below the
    length of the index is accepted. *)
Theorem set_time_horizon_custom_index (cs : CaseStudy) (start : position) (steps : Z) :
  (result (set_time_horizon start (Some steps) None cs) = Returns tt ->
   dtindex (final (set_time_horizon start (Some steps) None cs)) = dtindex cs /\
   dtindex_custom (final (set_time_horizon start (Some steps) None cs))
     = slice (dtindex cs)
         (_t1 (final (set_time_horizon start (Some steps) None cs)))
         (_t2 (final (set_time_horizon start (Some steps) None cs)) + 1) /\
   (exists x,
      getitem (dtindex_custom (final (set_time_horizon start (Some steps) None cs))) 0
        = Some x /\
      getitem (dtindex cs) (_t1 (final (set_time_horizon start (Some steps) None cs)))
        = Some x) /\
   (exists y,
      getitem (dtindex_custom (final (set_time_horizon start (Some steps) None cs))) (-1)
        = Some y /\
      getitem (dtindex cs) (_t2 (final (set_time_horizon start (Some steps) None cs)))
        = Some y)) /\
  (forall t1,
     start_location cs start t1 ->
     0 <= t1 -> 1 <= steps -> t1 + steps < len (dtindex cs) ->
     result (set_time_horizon start (Some steps) None cs) = Returns tt).
Proof.
  split.
  - intros Hr.
    destruct (set_time_horizon_returns _ _ _ _ Hr)
      as (a & b & x & y & _ & Hf & Hx & Hx' & Hy & Hy').
    rewrite Hf, windowed_dtindex, windowed_custom, windowed_t1, windowed_t2.
    eauto 10.
  - intros t1 Hstart H0 H1 Hlt.
    apply (set_time_horizon_steps_accepted cs start t1 steps Hstart H0 H1 Hlt).
Qed.

(** C10.  With [steps] given and [end] not, [set_time_horizon] returns
    only if [t1 + steps < len(dtindex)] strictly: a window that would
    end on the final time stamp ([t1 + steps = len(dtindex)]) raises
    [AssertionError]; a call that returns has [t2 = t1 + steps - 1], at
    most [len(dtindex) - 2], and [len(dtindex) - 2] is reached (from
    offset 0 with [len(dtindex) - 1] steps). *)
Theorem set_time_horizon_steps_strict (cs : CaseStudy) (start : position) (t1 steps : Z) :
  start_location cs start t1 ->
  (result (set_time_horizon start (Some steps) None cs) = Returns tt ->
   t1 + steps < len (dtindex cs) /\
   _t2 (final (set_time_horizon start (Some steps) None cs)) = t1 + steps - 1 /\
   _t2 (final (set_time_horizon start (Some steps) None cs)) <= len (dtindex cs) - 2) /\
  (t1 + steps = len (dtindex cs) ->
   result (set_time_horizon start (Some steps) None cs)
     = Raises (AssertionError "Too many steps are given.") /\
   final (set_time_horizon start (Some steps) None cs) = cs) /\
  (2 <= len (dtindex cs) ->
   result (set_time_horizon (PInt 0) (Some (len (dtindex cs) - 1)) None cs) = Returns tt /\
   _t2 (final (set_time_horizon (PInt 0) (Some (len (dtindex cs) - 1)) None cs))
     = len (dtindex cs) - 2).
Proof.
  intros Hstart. repeat apply conj.
  - intros Hr.
    destruct (set_time_horizon_returns _ _ _ _ Hr)
      as (a & b & x & y & Hloc & Hf & _).
    rewrite (get_integer_locations_steps _ _ _ _ Hstart) in Hloc.
    destruct (Z.ltb_spec (t1 + steps) (len (dtindex cs))); [| discriminate].
    injection Hloc as <- <-.
    rewrite Hf, windowed_t2. lia.
  - intros Heq.
    apply set_time_horizon_raises.
    rewrite (get_integer_locations_steps _ _ _ _ Hstart).
    destruct (Z.ltb_spec (t1 + steps) (len (dtindex cs))); [lia | reflexivity].
  - intros Hlen.
    destruct (set_time_horizon_steps_accepted cs (PInt 0) 0 (len (dtindex cs) - 1) eq_refl)
      as (Hr & Hf); try lia.
    split; [exact Hr | rewrite Hf, windowed_t2; lia].
Qed.

End WindowFacts.

Section WindowExamples.
#[local] Existing Instance Demo.opaque.
#[local] Existing Instance Demo.library.

Lemma len_index2019 : len (dtindex Demo.cs2019) = 8760.
Proof. vm_compute. reflexivity. Qed.

(** C1 as stated fails: with neither [steps] nor [end] the call on the
    2019 hourly case study returns, with the window running to the last
    step. *)
Lemma set_time_horizon_neither_given_returns :
  result (set_time_horizon (PInt 0) None None Demo.cs2019) = Returns tt /\
  (forall e, result (set_time_horizon (PInt 0) None None Demo.cs2019) <> Raises e) /\
  _t1 (final (set_time_horizon (PInt 0) None None Demo.cs2019)) = 0 /\
  _t2 (final (set_time_horizon (PInt 0) None None Demo.cs2019)) = 8759.
Proof.
  assert (Hr : result (set_time_horizon (PInt 0) None None Demo.cs2019) = Returns tt)
    by (vm_compute; reflexivity).
  repeat apply conj.
  - exact Hr.
  - intros e He. rewrite Hr in He. discriminate.
  - vm_compute. reflexivity.
  - vm_compute. reflexivity.
Qed.

Lemma set_time_horizon_contract_2019 :
  start_location Demo.cs2019 (PInt 8000) 8000 /\
  result (set_time_horizon (PInt 8000) (Some 1000) None Demo.cs2019)
    = Raises (AssertionError "Too many steps are given.") /\
  result (set_time_horizon (PInt 8000) (Some 24) (Some (PInt 8100)) Demo.cs2019)
    = Raises (ValueError "One of steps or end must be given.") /\
  _t2 (final (set_time_horizon (PInt 8000) None None Demo.cs2019)) = 8759 /\
  _t2 (final (set_time_horizon (PInt 8000) (Some 24) None Demo.cs2019)) = 8023 /\
  _t2 (final (set_time_horizon (PInt 8000) None (Some (PInt 8100)) Demo.cs2019)) = 8100 /\
  start_location Demo.cs2019 (PInt 9000) 9000 /\
  result (set_time_horizon (PInt 9000) None None Demo.cs2019) = Raises IndexError.
Proof.
  split; [reflexivity |].
  destruct (set_time_horizon_contract Demo.cs2019 (PInt 8000) 8000 eq_refl)
    as (Hpast & Hboth & Hneither & _ & Hsteps & Hend & _).
  destruct (set_time_horizon_contract Demo.cs2019 (PInt 9000) 9000 eq_refl)
    as (_ & _ & _ & Hbeyond & _).
  rewrite len_index2019 in *.
  repeat apply conj.
  - apply Hpast. lia.
  - apply Hboth.
  - destruct Hneither as (_ & _ & Ht2); [lia | exact Ht2].
  - destruct (Hsteps 24) as (_ & _ & Ht2); [lia | lia | lia | exact Ht2].
  - destruct (Hend 8100) as (_ & _ & Ht2); [lia | lia | lia | exact Ht2].
  - reflexivity.
  - apply Hbeyond. lia.
Defined.

Lemma set_time_horizon_custom_index_2019 :
  start_location Demo.cs2019 (PStr "01-01") 0 /\
  result (set_time_horizon (PStr "01-01") (Some 48) None Demo.cs2019) = Returns tt /\
  dtindex_custom (final (set_time_horizon (PStr "01-01") (Some 48) None Demo.cs2019))
    = slice (dtindex Demo.cs2019) 0 48.
Proof.
  assert (Hstart : start_location Demo.cs2019 (PStr "01-01") 0) by reflexivity.
  split; [exact Hstart |].
  destruct (set_time_horizon_custom_index Demo.cs2019 (PStr "01-01") 48) as [Hpost Hacc].
  assert (Hr : result (set_time_horizon (PStr "01-01") (Some 48) None Demo.cs2019)
               = Returns tt).
  { apply (Hacc 0 Hstart); [lia | lia | rewrite len_index2019; lia]. }
  split; [exact Hr |].
  destruct (Hpost Hr) as (_ & Hc & _).
  rewrite Hc. vm_compute. reflexivity.
Defined.

Lemma set_time_horizon_steps_strict_2019 :
  start_location Demo.cs2019 (PInt 8736) 8736 /\
  8736 + 24 = len (dtindex Demo.cs2019) /\
  result (set_time_horizon (PInt 8736) (Some 24) None Demo.cs2019)
    = Raises (AssertionError "Too many steps are given.") /\
  result (set_time_horizon (PInt 0) (Some (len (dtindex Demo.cs2019) - 1)) None Demo.cs2019)
    = Returns tt /\
  _t2 (final (set_time_horizon (PInt 0) (Some (len (dtindex Demo.cs2019) - 1)) None
                Demo.cs2019))
    = len (dtindex Demo.cs2019) - 2.
Proof.
  split; [reflexivity |].
  split; [rewrite len_index2019; reflexivity |].
  destruct (set_time_horizon_steps_strict Demo.cs2019 (PInt 8736) 8736 24 eq_refl)
    as (_ & Hlast & Hreach).
  split.
  - apply Hlast. rewrite len_index2019. reflexivity.
  - apply Hreach. rewrite len_index2019. lia.
Defined.

End WindowExamples.

(** ** The rolling horizon *)

Section RollingFacts.

Ltac roll_simpl :=
  unfold bind, ret, raise, get, gets, modify, unwrap, warning in *;
  cbn [result final logged fst snd dtindex dtindex_custom _t1 _t2 year freq
       with_dtindex_custom with__t1 with__t2 app] in *.

Lemma int_from_freq_valid fr :
  fr ∈ valid_freqs -> exists f, int_from_freq fr = Some f /\ f ∈ [1; 5; 15; 30; 60].
Proof.
  unfold valid_freqs. rewrite !elem_of_cons, elem_of_nil.
  intros [-> | [-> | [-> | [-> | [-> | []]]]]]; eexists; (split; [reflexivity |]);
    rewrite !elem_of_cons; auto 10.
Qed.

(** The run of [set_rolling_horizon] on a handler whose frequency is
    [f] minutes. *)
Lemma set_rolling_horizon_run h d f :
  int_from_freq (freq d) = Some f ->
  set_rolling_horizon h d =
    if len (dtindex d) <? steps_for h f then
      Run (Returns tt)
          (rolled d (Z.min (_t1 d + (len (dtindex d) - 1) - 1) (len (dtindex d) - 1)))
          [horizon_message h]
    else
      Run (Returns tt)
          (rolled d (Z.min (_t1 d + steps_for h f - 1) (len (dtindex d) - 1)))
          [].
Proof.
  intros Hf. unfold set_rolling_horizon. roll_simpl. rewrite Hf. roll_simpl.
  destruct (len (dtindex d) <? steps_for h f); roll_simpl; reflexivity.
Qed.

Lemma set_rolling_horizon_unknown_freq h d :
  int_from_freq (freq d) = None ->
  set_rolling_horizon h d = Run (Raises (ValueError (freq d))) d [].
Proof.
  intros Hf. unfold set_rolling_horizon. roll_simpl. rewrite Hf. reflexivity.
Qed.

(** Within the available data the new [t2] is
    [min(t1 + steps - 1, len(dtindex) - 1)], nothing is logged and the
    custom index is re-sliced. *)
Lemma set_rolling_horizon_within h d f :
  int_from_freq (freq d) = Some f ->
  steps_for h f <= len (dtindex d) ->
  result (set_rolling_horizon h d) = Returns tt /\
  logged (set_rolling_horizon h d) = [] /\
  _t1 (final (set_rolling_horizon h d)) = _t1 d /\
  _t2 (final (set_rolling_horizon h d))
    = Z.min (_t1 d + steps_for h f - 1) (len (dtindex d) - 1) /\
  dtindex_custom (final (set_rolling_horizon h d))
    = slice (dtindex d) (_t1 d) (_t2 (final (set_rolling_horizon h d)) + 1).
Proof.
  intros Hf Hle. rewrite (set_rolling_horizon_run h d f Hf).
  destruct (Z.ltb_spec (len (dtindex d)) (steps_for h f)); [lia |].
  repeat split.
Qed.

(** Beyond the available data the call logs the warning and still
    returns; from [t1 = 0] it stops one step short of the last time
    stamp, from any later [t1] it reaches it. *)
Lemma set_rolling_horizon_exceeding h d f :
  int_from_freq (freq d) = Some f ->
  len (dtindex d) < steps_for h f ->
  result (set_rolling_horizon h d) = Returns tt /\
  logged (set_rolling_horizon h d) = [horizon_message h] /\
  (_t1 d = 0 -> _t2 (final (set_rolling_horizon h d)) = len (dtindex d) - 2) /\
  (1 <= _t1 d -> _t2 (final (set_rolling_horizon h d)) = len (dtindex d) - 1) /\
  dtindex_custom (final (set_rolling_horizon h d))
    = slice (dtindex d) (_t1 d) (_t2 (final (set_rolling_horizon h d)) + 1).
Proof.
  intros Hf Hlt. rewrite (set_rolling_horizon_run h d f Hf).
  destruct (Z.ltb_spec (len (dtindex d)) (steps_for h f)); [| lia].
  cbn [result final logged]. repeat split.
  - intros H0. cbn. lia.
  - intros H1. cbn. lia.
Qed.

(** C7.  [set_rolling_horizon] does not move [t1], and applied a second
    time with the same [horizon_hours] it returns the same outcome and
    leaves the same handler: the same [t2] and the same custom index.
    On a handler with a valid frequency it returns, for every horizon
    whose steps the float division gives exactly. *)
Theorem set_rolling_horizon_idempotent (h : Z) (d : DateTimeHandler) :
  (freq d ∈ valid_freqs -> exact_horizon h ->
   result (set_rolling_horizon h d) = Returns tt) /\
  _t1 (final (set_rolling_horizon h d)) = _t1 d /\
  result (set_rolling_horizon h (final (set_rolling_horizon h d)))
    = result (set_rolling_horizon h d) /\
  _t2 (final (set_rolling_horizon h (final (set_rolling_horizon h d))))
    = _t2 (final (set_rolling_horizon h d)) /\
  dtindex_custom (final (set_rolling_horizon h (final (set_rolling_horizon h d))))
    = dtindex_custom (final (set_rolling_horizon h d)) /\
  final (set_rolling_horizon h (final (set_rolling_horizon h d)))
    = final (set_rolling_horizon h d).
Proof.
  destruct (int_from_freq (freq d)) as [f |] eqn:Hf.
  - rewrite (set_rolling_horizon_run h d f Hf).
    destruct (len (dtindex d) <? steps_for h f) eqn:Hcmp; cbn [result final logged].
    + rewrite (set_rolling_horizon_run h (rolled d _) f Hf).
      cbn [rolled dtindex _t1 with_dtindex_custom with__t2]. rewrite Hcmp.
      repeat split.
    + rewrite (set_rolling_horizon_run h (rolled d _) f Hf).
      cbn [rolled dtindex _t1 with_dtindex_custom with__t2]. rewrite Hcmp.
      repeat split.
  - rewrite (set_rolling_horizon_unknown_freq h d Hf). cbn [result final logged].
    rewrite (set_rolling_horizon_unknown_freq h d Hf). cbn [result final logged].
    repeat split.
    intros Hv _. apply int_from_freq_valid in Hv as (f & Hf' & _). congruence.
Qed.

Lemma set_rolling_horizon_idempotent_2019 :
  freq Demo.handler2019 ∈ valid_freqs /\
  exact_horizon 24 /\
  result (set_rolling_horizon 24 Demo.handler2019) = Returns tt.
Proof.
  assert (Hv : freq Demo.handler2019 ∈ valid_freqs).
  { cbn. unfold valid_freqs. rewrite !elem_of_cons. auto 10. }
  assert (Hh : exact_horizon 24) by (unfold exact_horizon; lia).
  split; [exact Hv |]. split; [exact Hh |].
  destruct (set_rolling_horizon_idempotent 24 Demo.handler2019) as (Hr & _).
  exact (Hr Hv Hh).
Defined.

(** C5 at [CaseStudy(year=2019, freq="60min")] with
    [set_rolling_horizon(9000)]: 9000 steps exceed the 8760 of the
    index, the call returns and logs the warning, but the new [t2] is
    8758 and the custom index has 8759 entries, while
    [min(t1 + steps - 1, len(dtindex) - 1)] is 8759. *)
Theorem set_rolling_horizon_short_of_full_year :
  result (set_rolling_horizon 9000 Demo.handler2019) = Returns tt /\
  logged (set_rolling_horizon 9000 Demo.handler2019)
    = ["Horizon 9000h exceeds available data, using full year"] /\
  _t2 (final (set_rolling_horizon 9000 Demo.handler2019)) = 8758 /\
  len (dtindex_custom (final (set_rolling_horizon 9000 Demo.handler2019))) = 8759 /\
  Z.min (_t1 Demo.handler2019 + steps_for 9000 60 - 1)
        (len (dtindex Demo.handler2019) - 1) = 8759.
Proof. vm_compute. repeat split. Qed.

End RollingFacts.

(** ** Construction *)

Section ConstructionFacts.
Context {opq : Opaque} {lib : Library}.

Lemma valid_freqs_minutes fr :
  fr ∈ valid_freqs <-> exists m, m ∈ [1; 5; 15; 30; 60] /\ fr = str m +:+ "min".
Proof.
  unfold valid_freqs. split.
  - rewrite !elem_of_cons, elem_of_nil.
    intros [-> | [-> | [-> | [-> | [-> | []]]]]];
      [exists 1 | exists 5 | exists 15 | exists 30 | exists 60];
      (split; [rewrite !elem_of_cons; auto 10 | reflexivity]).
  - intros (m & Hm & ->). revert Hm. rewrite !elem_of_cons, elem_of_nil.
    intros [-> | [-> | [-> | [-> | [-> | []]]]]]; vm_compute; auto 10.
Qed.

(** C8.  [CaseStudy(...)] checks the frequency first: for a [freq]
    outside ["1min", "5min", "15min", "30min", "60min"] it raises
    [AssertionError] with no attribute assigned; for a [freq] in the
    list (and a year in [range(1980, 2100)]) it builds the case study
    with that frequency; hence it builds one exactly for these five
    frequencies, which are the 1, 5, 15, 30 and 60-minute steps. *)
Theorem init_frequency_validation (name_ : string) (year_ : Z) (freq_ : string)
    (country_ : string) (consider_invest_ : bool) (doc_ : string)
    (coords_ : option (Object * Object)) (obj_vars_ : string * string)
    (mdl_language_ : string) :
  (freq_ ∉ valid_freqs ->
   CaseStudy__init__ name_ year_ freq_ country_ consider_invest_ doc_ coords_
     obj_vars_ mdl_language_
   = Aborted (AssertionError (freq_message freq_)) []) /\
  (freq_ ∈ valid_freqs -> 1980 <= year_ < 2100 ->
   exists cs,
     CaseStudy__init__ name_ year_ freq_ country_ consider_invest_ doc_ coords_
       obj_vars_ mdl_language_ = Built cs /\
     freq cs = freq_ /\ year cs = year_ /\
     dtindex cs = make_datetimeindex year_ freq_ /\
     dtindex_custom cs = dtindex cs /\
     _t1 cs = 0 /\ _t2 cs = len (dtindex cs) - 1 /\ scens cs = []) /\
  ((exists cs,
      CaseStudy__init__ name_ year_ freq_ country_ consider_invest_ doc_ coords_
        obj_vars_ mdl_language_ = Built cs) ->
   exists m, m ∈ [1; 5; 15; 30; 60] /\ freq_ = str m +:+ "min").
Proof.
  unfold CaseStudy__init__, _set_dtindex.
  repeat apply conj.
  - intros Hn. rewrite bool_decide_eq_false_2 by exact Hn. reflexivity.
  - intros Hv [Hlo Hhi]. rewrite bool_decide_eq_true_2 by exact Hv.
    destruct (Z.leb_spec 1980 year_); [| lia].
    destruct (Z.ltb_spec year_ 2100); [| lia].
    cbn [andb]. eexists. split; [reflexivity |]. repeat split.
  - intros [cs Hcs]. apply valid_freqs_minutes.
    destruct (decide (freq_ ∈ valid_freqs)) as [Hv | Hn]; [exact Hv |].
    rewrite bool_decide_eq_false_2 in Hcs by exact Hn. discriminate.
Qed.

End ConstructionFacts.

Section ConstructionExamples.
#[local] Existing Instance Demo.opaque.
#[local] Existing Instance Demo.library.

Lemma init_frequency_validation_2minutes :
  ("2min" ∉ valid_freqs) /\
  CaseStudy__init__ "test" 2019 "2min" "DE" false "No doc available." None
    ("C_TOT_", "CE_TOT_") "gp"
  = Aborted (AssertionError (freq_message "2min")) [] /\
  ("5min" ∈ valid_freqs) /\
  exists cs,
    CaseStudy__init__ "test" 2020 "5min" "DE" false "No doc available." None
      ("C_TOT_", "CE_TOT_") "gp" = Built cs /\
    freq cs = "5min".
Proof.
  assert (Hn : "2min" ∉ valid_freqs).
  { unfold valid_freqs. rewrite !not_elem_of_cons. repeat split; try discriminate.
    apply not_elem_of_nil. }
  assert (Hv : "5min" ∈ valid_freqs).
  { unfold valid_freqs. rewrite !elem_of_cons. auto. }
  split; [exact Hn |]. split.
  - destruct (init_frequency_validation "test" 2019 "2min" "DE" false
                "No doc available." None ("C_TOT_", "CE_TOT_") "gp") as (Hbad & _).
    exact (Hbad Hn).
  - split; [exact Hv |].
    destruct (init_frequency_validation "test" 2020 "5min" "DE" false
                "No doc available." None ("C_TOT_", "CE_TOT_") "gp") as (_ & Hgood & _).
    destruct (Hgood Hv) as (cs & Hcs & Hfreq & _); [lia |].
    exists cs. split; assumption.
Defined.

(** The 2019 hourly case study of the examples is what the constructor
    builds. *)
Lemma init_2019 :
  CaseStudy__init__ "test" 2019 "60min" "DE" false "No doc available." None
    ("C_TOT_", "CE_TOT_") "gp" = Built Demo.cs2019.
Proof.
  unfold CaseStudy__init__, _set_dtindex.
  rewrite bool_decide_eq_true_2
    by (unfold valid_freqs; rewrite !elem_of_cons; auto 10).
  change (make_datetimeindex 2019 "60min") with (dtindex Demo.cs2019).
  cbn [Z.leb Z.ltb Z.compare Pos.compare Pos.compare_cont andb].
  rewrite len_index2019. reflexivity.
Qed.

End ConstructionExamples.

(** ** Scenario derivation *)

Section DerivationFacts.
Context {opq : Opaque} {lib : Library}.

Ltac world_simpl :=
  unfold getattr_scens, setattr_scens, delattr_scens, _special_copy,
    new_object, read_object, update_object, lift,
    bind, ret, raise, get, gets, modify, unwrap in *;
  cbn [result final logged fst snd self heap with_self with_heap app] in *.

Lemma alter_new_object {A} (f : A -> A) (l : list A) (x : A) :
  alter f (length l) (l ++ [x]) = l ++ [f x].
Proof.
  induction l as [| y l IH]; [reflexivity |].
  cbn. f_equal. exact IH.
Qed.

Lemma alter_lookup_Some {A} (f : A -> A) (l : list A) (i : nat) (x : A) :
  l !! i = Some x -> alter f i l = <[i := f x]> l.
Proof.
  revert i. induction l as [| y l IH]; intros [| i] Hx; try discriminate.
  - injection Hx as ->. reflexivity.
  - cbn. f_equal. apply IH, Hx.
Qed.

(** The run of [add_scen] on the derivation path: the base, bound to
    the id [b], is visited in place, the copy is appended to the heap
    and bound to the chosen id. *)
Lemma add_scen_derived_run_from (w : World) id_ name_ doc_ based_on last b cm ud rb base :
  effective_base (self w) based_on last = Some b ->
  Dict.get (scens (self w)) b = Some rb ->
  heap w !! rb = Some base ->
  add_scen id_ name_ doc_ based_on last None cm ud w =
    Run (Returns (length (heap w)))
        {| self := with_scens
                     (Dict.set (scens (self w)) (chosen_id (self w) id_) (length (heap w)))
                     (self w);
           heap := <[rb := visited_base base]> (heap w)
                   ++ [derived base (chosen_id (self w) id_) name_
                         (effective_doc b last doc_) cm] |}
        [].
Proof.
  intros Heff Hb Hbase.
  unfold add_scen, effective_base, effective_doc, scens_ids, scens_dic in *.
  destruct last; world_simpl.
  - rewrite Heff. world_simpl.
    destruct id_ as [i |]; world_simpl; rewrite Hb; world_simpl; rewrite Hbase; world_simpl.
    all: rewrite (alter_lookup_Some _ _ _ _ Hbase).
    all: rewrite list_lookup_insert_eq by (apply lookup_lt_Some in Hbase; exact Hbase).
    all: world_simpl.
    all: rewrite length_insert, <- (length_insert (heap w) rb (visited_base base)).
    all: rewrite !alter_new_object.
    all: rewrite !length_insert.
    all: reflexivity.
  - subst based_on.
    destruct id_ as [i |]; world_simpl; rewrite Hb; world_simpl; rewrite Hbase; world_simpl.
    all: rewrite (alter_lookup_Some _ _ _ _ Hbase).
    all: rewrite list_lookup_insert_eq by (apply lookup_lt_Some in Hbase; exact Hbase).
    all: world_simpl.
    all: rewrite length_insert, <- (length_insert (heap w) rb (visited_base base)).
    all: rewrite !alter_new_object.
    all: rewrite !length_insert.
    all: reflexivity.
Qed.

Lemma add_scen_derived_run (w : World) id_ name_ doc_ b cm ud rb base :
  Dict.get (scens (self w)) b = Some rb ->
  heap w !! rb = Some base ->
  add_scen id_ name_ doc_ (Some b) false None cm ud w =
    Run (Returns (length (heap w)))
        {| self := with_scens
                     (Dict.set (scens (self w)) (chosen_id (self w) id_) (length (heap w)))
                     (self w);
           heap := <[rb := visited_base base]> (heap w)
                   ++ [derived base (chosen_id (self w) id_) name_ doc_ cm] |}
        [].
Proof.
  intros Hb Hbase.
  apply (add_scen_derived_run_from w id_ name_ doc_ (Some b) false b cm ud rb base
           eq_refl Hb Hbase).
Qed.

Lemma dict_get_set {V} (d : list (string * V)) k v :
  Dict.get (Dict.set d k v) k = Some v.
Proof.
  induction d as [| [k' v'] d IH]; cbn.
  - rewrite decide_True by reflexivity. reflexivity.
  - destruct (decide (k' = k)) as [-> | Hne]; cbn.
    + rewrite decide_True by reflexivity. reflexivity.
    + rewrite decide_False by exact Hne. exact IH.
Qed.

Lemma dict_get_set_ne {V} (d : list (string * V)) k k' v :
  k <> k' -> Dict.get (Dict.set d k v) k' = Dict.get d k'.
Proof.
  intros Hne. induction d as [| [k0 v0] d IH]; cbn.
  - rewrite decide_False by exact Hne. reflexivity.
  - destruct (decide (k0 = k)) as [-> | Hne0]; cbn.
    + rewrite !decide_False by exact Hne. reflexivity.
    + destruct (decide (k0 = k')); [reflexivity | exact IH].
Qed.

Lemma dict_keys_set_present {V} (d : list (string * V)) k v old :
  Dict.get d k = Some old -> Dict.keys (Dict.set d k v) = Dict.keys d.
Proof.
  unfold Dict.keys. induction d as [| [k' v'] d IH]; cbn; [discriminate |].
  destruct (decide (k' = k)) as [-> | Hne]; cbn; [reflexivity |].
  intros Hd. f_equal. exact (IH Hd).
Qed.

Lemma dict_keys_set_absent {V} (d : list (string * V)) k v :
  Dict.get d k = None -> Dict.keys (Dict.set d k v) = Dict.keys d ++ [k].
Proof.
  unfold Dict.keys. induction d as [| [k' v'] d IH]; cbn; [reflexivity |].
  destruct (decide (k' = k)) as [-> | Hne]; cbn; [discriminate |].
  intros Hd. f_equal. exact (IH Hd).
Qed.

Lemma clear_collectors_empty (sc : Scenario) : collectors_empty (clear_collectors sc).
Proof.
  intros k v. unfold clear_collectors. cbn [collectors with_collectors].
  rewrite lookup_fmap. destruct (collectors sc !! k); cbn; congruence.
Qed.

Lemma visited_base_res (base : Scenario) : res (visited_base base) = res base.
Proof. unfold visited_base. destruct (has_res base); reflexivity. Qed.

Lemma derived_res (base : Scenario) i n d cm : res (derived base i n d cm) = None.
Proof.
  unfold derived, has_res. rewrite visited_base_res.
  destruct (res base) eqn:Hres; cbn; [reflexivity | ].
  rewrite visited_base_res. exact Hres.
Qed.

Lemma derived_collectors (base : Scenario) i n d cm :
  collectors (derived base i n d cm) = collectors (visited_base base).
Proof.
  unfold derived. destruct (has_res (visited_base base)); reflexivity.
Qed.

(** The two heap cells a derivation writes. *)
Lemma derivation_heap (h : list Scenario) rb (base vb new : Scenario) :
  h !! rb = Some base ->
  (<[rb := vb]> h ++ [new]) !! rb = Some vb /\
  (<[rb := vb]> h ++ [new]) !! length h = Some new /\
  rb <> length h.
Proof.
  intros Hbase. pose proof (lookup_lt_Some _ _ _ Hbase) as Hlt.
  repeat split.
  - rewrite lookup_app_l by (rewrite length_insert; exact Hlt).
    apply list_lookup_insert_eq, Hlt.
  - apply list_lookup_middle. rewrite length_insert. reflexivity.
  - lia.
Qed.

(** C2.  Let [add_scen] derive from the id [b] ([based_on], or the
    last id with [based_on_last]), bound to a scenario [base] that
    carries results.  The call returns a new scenario, bound to the
    chosen id, all of whose collectors are empty and which has no
    [res]; the base object still has the [res] it had. *)
Theorem derived_scenario_is_clean (w : World) (id_ : option string)
    (name_ doc_ : string) (based_on : option string) (based_on_last : bool)
    (b : string) (cm : option Callable) (ud : option Dims)
    (rb : ref) (base : Scenario) (r : Results) :
  effective_base (self w) based_on based_on_last = Some b ->
  Dict.get (scens (self w)) b = Some rb ->
  heap w !! rb = Some base ->
  res base = Some r ->
  exists (new : ref) (sc base' : Scenario),
    result (add_scen id_ name_ doc_ based_on based_on_last None cm ud w) = Returns new /\
    new <> rb /\
    Dict.get
      (scens (self (final (add_scen id_ name_ doc_ based_on based_on_last None cm ud w))))
      (chosen_id (self w) id_) = Some new /\
    heap (final (add_scen id_ name_ doc_ based_on based_on_last None cm ud w)) !! new
      = Some sc /\
    collectors_empty sc /\
    res sc = None /\
    heap (final (add_scen id_ name_ doc_ based_on based_on_last None cm ud w)) !! rb
      = Some base' /\
    res base' = Some r.
Proof.
  intros Heff Hb Hbase Hres.
  rewrite (add_scen_derived_run_from w id_ name_ doc_ based_on based_on_last b cm ud
             rb base Heff Hb Hbase).
  cbn [result final self heap with_scens scens].
  destruct (derivation_heap (heap w) rb base (visited_base base)
              (derived base (chosen_id (self w) id_) name_
                 (effective_doc b based_on_last doc_) cm) Hbase)
    as (Hvb & Hnew & Hne).
  exists (length (heap w)),
    (derived base (chosen_id (self w) id_) name_ (effective_doc b based_on_last doc_) cm),
    (visited_base base).
  repeat apply conj.
  - reflexivity.
  - congruence.
  - apply dict_get_set.
  - exact Hnew.
  - intros k v. rewrite derived_collectors. unfold visited_base, has_res.
    rewrite Hres. apply clear_collectors_empty.
  - apply derived_res.
  - exact Hvb.
  - rewrite visited_base_res. exact Hres.
Qed.

(** C9.  Under the same conditions the base object itself is changed
    in place: after [add_scen] it is the base with every collector
    emptied, so each of its collectors is still declared and holds no
    contribution, while its [res] is the one it had. *)
Theorem derivation_clears_base_collectors (w : World) (id_ : option string)
    (name_ doc_ : string) (based_on : option string) (based_on_last : bool)
    (b : string) (cm : option Callable) (ud : option Dims)
    (rb : ref) (base : Scenario) (r : Results) :
  effective_base (self w) based_on based_on_last = Some b ->
  Dict.get (scens (self w)) b = Some rb ->
  heap w !! rb = Some base ->
  res base = Some r ->
  result (add_scen id_ name_ doc_ based_on based_on_last None cm ud w)
    = Returns (length (heap w)) /\
  exists base' : Scenario,
    heap (final (add_scen id_ name_ doc_ based_on based_on_last None cm ud w)) !! rb
      = Some base' /\
    base' = with_collectors ((fun _ => ∅) <$> collectors base) base /\
    collectors_empty base' /\
    dom (collectors base') = dom (collectors base) /\
    res base' = Some r.
Proof.
  intros Heff Hb Hbase Hres.
  rewrite (add_scen_derived_run_from w id_ name_ doc_ based_on based_on_last b cm ud
             rb base Heff Hb Hbase).
  cbn [result final self heap].
  split; [reflexivity |].
  destruct (derivation_heap (heap w) rb base (visited_base base)
              (derived base (chosen_id (self w) id_) name_
                 (effective_doc b based_on_last doc_) cm) Hbase)
    as (Hvb & _ & _).
  assert (Hv : visited_base base = clear_collectors base).
  { unfold visited_base, has_res. rewrite Hres. reflexivity. }
  exists (visited_base base). rewrite Hv in *.
  repeat apply conj.
  - exact Hvb.
  - reflexivity.
  - apply clear_collectors_empty.
  - cbn [clear_collectors collectors with_collectors]. apply dom_fmap_L.
  - exact Hres.
Qed.

(** A base without results is left as it is. *)
Lemma derivation_keeps_unsolved_base (w : World) id_ name_ doc_ b cm ud rb base :
  Dict.get (scens (self w)) b = Some rb ->
  heap w !! rb = Some base ->
  res base = None ->
  heap (final (add_scen id_ name_ doc_ (Some b) false None cm ud w)) !! rb = Some base.
Proof.
  intros Hb Hbase Hres.
  rewrite (add_scen_derived_run w id_ name_ doc_ b cm ud rb base Hb Hbase).
  cbn [final heap].
  destruct (derivation_heap (heap w) rb base (visited_base base)
              (derived base (chosen_id (self w) id_) name_ doc_ cm) Hbase)
    as (Hvb & _ & _).
  etransitivity; [exact Hvb |].
  unfold visited_base, has_res. rewrite Hres. reflexivity.
Qed.

(** The run of [add_scen] on the from-scratch path. *)
Lemma add_scen_scratch_run (w : World) id_ name_ doc_ comps cm ud :
  add_scen id_ name_ doc_ None false comps cm ud w =
    match Scenario_init
            (scenario_args (self w) (chosen_id (self w) id_) name_ doc_ comps cm ud) with
    | Returns s =>
        Run (Returns (length (heap w)))
            {| self := with_scens
                         (Dict.set (scens (self w)) (chosen_id (self w) id_)
                            (length (heap w)))
                         (self w);
               heap := heap w ++ [s] |}
            []
    | Raises e => Run (Raises e) w []
    end.
Proof.
  unfold add_scen. world_simpl.
  destruct id_ as [i |]; world_simpl.
  all: destruct (Scenario_init _) as [s | e]; world_simpl; [| reflexivity].
  all: destruct w as [cs h]; reflexivity.
Qed.

(** C3, as amended.  [add_scen] does not look whether the id is
    already bound.  If it is, and the call has nothing else to fail on
    (the base resolves, or, with [based_on = None], the [Scenario]
    constructor returns), it returns the new scenario and binds the id
    to it: the collection keeps its ids and their order, every other id
    keeps its scenario, and the given id now names the new scenario in
    place of the one it named before. *)
Theorem add_scen_rebinds_existing_id (w : World) (i name_ doc_ : string)
    (based_on : option string) (comps : option (list Component))
    (cm : option Callable) (ud : option Dims) (old : ref) :
  Dict.get (scens (self w)) i = Some old ->
  is_Some (heap w !! old) ->
  match based_on with
  | Some b =>
      comps = None /\
      exists rb, Dict.get (scens (self w)) b = Some rb /\ is_Some (heap w !! rb)
  | None =>
      exists s, Scenario_init (scenario_args (self w) i name_ doc_ comps cm ud) = Returns s
  end ->
  exists new : ref,
    result (add_scen (Some i) name_ doc_ based_on false comps cm ud w) = Returns new /\
    new <> old /\
    Dict.get (scens (self (final (add_scen (Some i) name_ doc_ based_on false comps cm ud w))))
      i = Some new /\
    Dict.keys (scens (self (final (add_scen (Some i) name_ doc_ based_on false comps cm ud w))))
      = Dict.keys (scens (self w)) /\
    (forall k, k <> i ->
       Dict.get (scens (self (final (add_scen (Some i) name_ doc_ based_on false comps cm ud w))))
         k = Dict.get (scens (self w)) k).
Proof.
  intros Hold [x Hx] Hbase.
  pose proof (lookup_lt_Some _ _ _ Hx) as Hlt.
  exists (length (heap w)).
  destruct based_on as [b |].
  - destruct Hbase as (-> & rb & Hb & [base Hbase]).
    rewrite (add_scen_derived_run w (Some i) name_ doc_ b cm ud rb base Hb Hbase).
    cbn [result final self heap with_scens scens chosen_id].
    repeat apply conj.
    + reflexivity.
    + lia.
    + apply dict_get_set.
    + apply (dict_keys_set_present _ _ _ _ Hold).
    + intros k Hk. apply dict_get_set_ne. congruence.
  - destruct Hbase as [s Hs].
    rewrite (add_scen_scratch_run w (Some i) name_ doc_ comps cm ud).
    cbn [chosen_id]. rewrite Hs. cbn [result final self heap with_scens scens].
    repeat apply conj.
    + reflexivity.
    + lia.
    + apply dict_get_set.
    + apply (dict_keys_set_present _ _ _ _ Hold).
    + intros k Hk. apply dict_get_set_ne. congruence.
Qed.

End DerivationFacts.

Section DerivationExamples.
#[local] Existing Instance Demo.opaque.
#[local] Existing Instance Demo.library.

Lemma study_REF : Dict.get (scens (self Demo.study)) "REF" = Some 0%nat.
Proof. reflexivity. Qed.

Lemma study_heap : heap Demo.study !! 0%nat = Some Demo.solved_REF.
Proof. reflexivity. Qed.

(** C3 as stated fails: adding a scenario under the id [REF], which the
    study already holds, raises nothing; the call returns the new object
    and [REF] names it instead of the scenario it named before. *)
Lemma add_scen_duplicate_id_returns :
  Dict.get (scens (self Demo.study)) "REF" = Some 0%nat /\
  result (add_scen (Some "REF") "again" "" (Some "REF") false None None None Demo.study)
    = Returns 1%nat /\
  (forall e,
     result (add_scen (Some "REF") "again" "" (Some "REF") false None None None Demo.study)
       <> Raises e) /\
  Dict.get
    (scens (self (final
       (add_scen (Some "REF") "again" "" (Some "REF") false None None None Demo.study))))
    "REF" = Some 1%nat.
Proof.
  rewrite (add_scen_derived_run Demo.study (Some "REF") "again" "" "REF" None None
             0%nat Demo.solved_REF study_REF study_heap).
  cbn [result final self]. repeat apply conj; try reflexivity.
  intros e He. discriminate.
Qed.

Lemma add_scen_rebinds_existing_id_study :
  Dict.get (scens (self Demo.study)) "REF" = Some 0%nat /\
  exists new : ref,
    result (add_scen (Some "REF") "again" "" (Some "REF") false None None None Demo.study)
      = Returns new /\
    new <> 0%nat.
Proof.
  split; [reflexivity |].
  destruct (add_scen_rebinds_existing_id Demo.study "REF" "again" "" (Some "REF")
              None None None 0%nat study_REF)
    as (new & Hr & Hne & _).
  - exists Demo.solved_REF. reflexivity.
  - split; [reflexivity |]. exists 0%nat. split; [reflexivity |].
    exists Demo.solved_REF. reflexivity.
  - exists new. split; assumption.
Defined.

Lemma derived_scenario_is_clean_study :
  res Demo.solved_REF = Some Demo.solved_results /\
  exists (new : ref) (sc base' : Scenario),
    result (add_scen (Some "pv") "more PV" "" (Some "REF") false None None None Demo.study)
      = Returns new /\
    heap (final (add_scen (Some "pv") "more PV" "" (Some "REF") false None None None
                   Demo.study)) !! new = Some sc /\
    collectors_empty sc /\ res sc = None /\
    heap (final (add_scen (Some "pv") "more PV" "" (Some "REF") false None None None
                   Demo.study)) !! 0%nat = Some base' /\
    res base' = Some Demo.solved_results.
Proof.
  split; [reflexivity |].
  destruct (derived_scenario_is_clean Demo.study (Some "pv") "more PV" "" (Some "REF")
              false "REF" None None 0%nat Demo.solved_REF Demo.solved_results
              eq_refl study_REF study_heap eq_refl)
    as (new & sc & base' & Hr & _ & _ & Hnew & Hcol & Hres & Hb & Hbres).
  exists new, sc, base'. repeat split; assumption.
Defined.

Lemma derivation_clears_base_collectors_study :
  res Demo.solved_REF = Some Demo.solved_results /\
  exists base' : Scenario,
    heap (final (add_scen (Some "pv") "more PV" "" (Some "REF") false None None None
                   Demo.study)) !! 0%nat = Some base' /\
    collectors_empty base' /\
    res base' = Some Demo.solved_results.
Proof.
  split; [reflexivity |].
  destruct (derivation_clears_base_collectors Demo.study (Some "pv") "more PV" ""
              (Some "REF") false "REF" None None 0%nat Demo.solved_REF
              Demo.solved_results eq_refl study_REF study_heap eq_refl)
    as (_ & base' & Hb & _ & Hcol & _ & Hres).
  exists base'. repeat split; assumption.
Defined.

End DerivationExamples.

(** ** The scenario sweep *)

Section SweepFacts.
Context {opq : Opaque} {lib : Library}.

Ltac world_simpl :=
  unfold call_update_params, getattr_scens, setattr_scens, delattr_scens, _special_copy,
    new_object, read_object, update_object, lift,
    bind, ret, raise, get, gets, modify, unwrap;
  cbn [result final logged fst snd self heap with_self with_heap app].

Lemma same_entities_refl (sc : Scenario) : same_entities sc sc.
Proof. split; intros e; reflexivity. Qed.

Lemma same_entities_trans (a b c : Scenario) :
  same_entities a b -> same_entities b c -> same_entities a c.
Proof.
  intros (H5 & H6) (K5 & K6). split; intros e.
  - rewrite K5. apply H5.
  - rewrite K6. apply H6.
Qed.

Lemma same_entities_declared (sc sc' : Scenario) ent :
  same_entities sc sc' -> declared sc ent -> declared sc' ent.
Proof.
  intros (Hm & Hp) [Hd | Hd]; [left; apply Hm | right; apply Hp]; exact Hd.
Qed.

Lemma same_shape_refl (sc : Scenario) : same_shape sc sc.
Proof. repeat split; auto. Qed.

Lemma same_shape_trans (a b c : Scenario) :
  same_shape a b -> same_shape b c -> same_shape a c.
Proof.
  intros (H1 & H2 & H3 & H4 & H5 & H6) (K1 & K2 & K3 & K4 & K5 & K6).
  repeat apply conj; try congruence; apply (same_entities_trans a b c H6 K6).
Qed.

Lemma is_Some_insert_present {V} (m : gmap string V) k v e :
  is_Some (m !! k) -> (is_Some (<[k := v]> m !! e) <-> is_Some (m !! e)).
Proof.
  intros Hk. destruct (decide (k = e)) as [-> | Hne].
  - rewrite lookup_insert_eq. split; [intros _; exact Hk | eauto].
  - rewrite lookup_insert_ne by exact Hne. reflexivity.
Qed.

Lemma fix_bounds_shape (sc : Scenario) ent v :
  same_shape sc (fix_bounds ent v sc).
Proof.
  unfold fix_bounds, same_shape, same_entities.
  cbn [id name doc res collectors vars params with_vars _meta].
  repeat apply conj; try reflexivity.
  intros e. rewrite lookup_alter. destruct (decide (ent = e)) as [-> | Hne].
  - destruct (_meta (vars sc) !! e); cbn; split; intros [x Hx]; eauto; discriminate.
  - reflexivity.
Qed.

Lemma update_params_declared (sc : Scenario) ent v :
  declared sc ent ->
  exists sc', update_params ent v sc = Returns sc' /\ same_shape sc sc'.
Proof.
  unfold declared, update_params. intros Hd.
  destruct (_meta (vars sc) !! ent) as [m |] eqn:Hm.
  - eexists. split; [reflexivity |].
    unfold same_shape, same_entities.
    cbn [id name doc res collectors vars params with_vars _meta].
    repeat apply conj; try reflexivity.
    intros e. apply is_Some_insert_present. rewrite Hm. eauto.
  - destruct Hd as [[x Hx] | [x Hx]]; [discriminate |].
    rewrite Hx. eexists. split; [reflexivity |].
    unfold same_shape, same_entities.
    cbn [id name doc res collectors vars params with_params _meta].
    repeat apply conj; try reflexivity.
    intros e. apply is_Some_insert_present. rewrite Hx. eauto.
Qed.

(** [sc.update_params(ent=value)] on a heap object that declares
    [ent]. *)
Lemma call_update_params_run (w : World) (sc : ref) (s : Scenario) ent v :
  heap w !! sc = Some s ->
  declared s ent ->
  exists s',
    call_update_params sc ent v w
      = Run (Returns tt) (with_heap (<[sc := s']> (heap w)) w) [] /\
    same_shape s s'.
Proof.
  intros Hs Hd.
  destruct (update_params_declared s ent v Hd) as (s' & Hu & Hshape).
  exists s'. split; [| exact Hshape].
  world_simpl. rewrite Hs. world_simpl. rewrite Hu. world_simpl.
  rewrite (alter_lookup_Some _ _ _ _ Hs). reflexivity.
Qed.

(** One entry of a column with an integer value, on an object that
    declares the entity. *)
Lemma set_sweep_entity_run (w : World) (sc : ref) (s : Scenario)
    (x : Label * Value) (z : Z) :
  heap w !! sc = Some s ->
  x.2 = VInt z ->
  declared s (label_str x.1) ->
  exists s',
    set_sweep_entity sc x w
      = Run (Returns tt) (with_heap (<[sc := s']> (heap w)) w) [] /\
    same_shape s s'.
Proof.
  intros Hs Hz Hd. unfold set_sweep_entity. rewrite Hz.
  destruct (_meta (vars s) !! label_str x.1) as [m |] eqn:Hm.
  - exists (fix_bounds (label_str x.1) (VInt z) s).
    split; [| apply fix_bounds_shape].
    world_simpl. rewrite Hs. world_simpl. rewrite Hm.
    rewrite (alter_lookup_Some _ _ _ _ Hs). reflexivity.
  - destruct (call_update_params_run w sc s (label_str x.1) (VInt z) Hs Hd)
      as (s' & Hrun & Hshape).
    exists s'. split; [| exact Hshape].
    unfold bind at 1. unfold ret at 1. cbn [result final logged].
    unfold bind at 1. unfold read_object at 1.
    unfold bind, get, unwrap, ret. cbn [result final logged app].
    rewrite Hs. cbn [result final logged app]. rewrite Hm, Hrun. reflexivity.
Qed.

Lemma bind_returns {S A B} (c : M S A) (k : A -> M S B) s a s1 o s2 l2 :
  c s = Run (Returns a) s1 [] ->
  k a s1 = Run o s2 l2 ->
  bind c k s = Run o s2 l2.
Proof. intros Hc Hk. unfold bind. rewrite Hc, Hk. reflexivity. Qed.

(** A whole column of integer values. *)
Lemma sweep_entities_run (ser : list (Label * Value)) :
  forall (w : World) (sc : ref) (s : Scenario),
  heap w !! sc = Some s ->
  Forall (fun x : Label * Value =>
            (exists z, x.2 = VInt z) /\ declared s (label_str x.1)) ser ->
  exists s',
    for_each ser (set_sweep_entity sc) w
      = Run (Returns tt) (with_heap (<[sc := s']> (heap w)) w) [] /\
    same_shape s s'.
Proof.
  induction ser as [| x ser IH]; intros w sc s Hs Hall.
  - exists s. split; [| apply same_shape_refl].
    cbn [for_each]. unfold ret. f_equal.
    rewrite list_insert_id by exact Hs. destruct w; reflexivity.
  - apply Forall_cons in Hall as [[[z Hz] Hd] Hall].
    destruct (set_sweep_entity_run w sc s x z Hs Hz Hd) as (s1 & Hrun1 & Hsh1).
    pose proof (lookup_lt_Some _ _ _ Hs) as Hlt.
    destruct (IH (with_heap (<[sc := s1]> (heap w)) w) sc s1) as (s2 & Hrun2 & Hsh2).
    + cbn [heap with_heap]. apply list_lookup_insert_eq, Hlt.
    + eapply Forall_impl; [exact Hall |].
      intros y [Hy Hdy]. split; [exact Hy |].
      destruct Hsh1 as (_ & _ & _ & _ & _ & Hent).
      apply (same_entities_declared s s1 _ Hent Hdy).
    + exists s2. split; [| apply (same_shape_trans s s1 s2 Hsh1 Hsh2)].
      cbn [for_each]. rewrite (bind_returns _ _ _ _ _ _ _ _ Hrun1 Hrun2).
      cbn [heap with_heap]. rewrite list_insert_insert_eq. reflexivity.
Qed.

Lemma visited_base_entities (base : Scenario) : same_entities base (visited_base base).
Proof.
  unfold visited_base. destruct (has_res base); [| apply same_entities_refl].
  split; intros e; reflexivity.
Qed.

Lemma derived_entities (base : Scenario) i n d cm :
  same_entities base (derived base i n d cm).
Proof.
  unfold derived.
  apply (same_entities_trans _ (visited_base base)); [apply visited_base_entities |].
  destruct (has_res (visited_base base)); split; intros e; reflexivity.
Qed.

Lemma insert_new_object {A} (l : list A) (x y : A) :
  <[length l := y]> (l ++ [x]) = l ++ [y].
Proof.
  induction l as [| z l IH]; [reflexivity |]. cbn. f_equal. exact IH.
Qed.

(** One column of the sweep table: the scenario is derived from the
    base, bound to the composed name, and receives its values. *)
Lemma add_sweep_scen_run (w : World) (b nm : string) (ser : list (Label * Value))
    (rb : ref) (base : Scenario) :
  isidentifier nm = true ->
  Dict.get (scens (self w)) b = Some rb ->
  heap w !! rb = Some base ->
  declared base "t__params_" ->
  Forall (fun x : Label * Value =>
            (exists z, x.2 = VInt z) /\ declared base (label_str x.1)) ser ->
  exists sc,
    add_sweep_scen b nm ser w
      = Run (Returns tt)
          {| self := with_scens (Dict.set (scens (self w)) nm (length (heap w))) (self w);
             heap := <[rb := visited_base base]> (heap w) ++ [sc] |}
          [] /\
    same_shape (derived base nm nm (long_doc ser) None) sc.
Proof.
  intros Hid Hb Hbase Ht Hall.
  pose proof (add_scen_derived_run w (Some nm) nm (long_doc ser) b None None rb base
                Hb Hbase) as Hadd.
  cbn [chosen_id] in Hadd.
  set (d := derived base nm nm (long_doc ser) None) in *.
  set (h1 := <[rb := visited_base base]> (heap w)) in *.
  set (cs1 := with_scens (Dict.set (scens (self w)) nm (length (heap w))) (self w)) in *.
  assert (Hlen : length h1 = length (heap w)) by apply length_insert.
  assert (Hd : (h1 ++ [d]) !! length (heap w) = Some d).
  { apply list_lookup_middle. symmetry. exact Hlen. }
  assert (Hent : same_entities base d) by apply derived_entities.
  destruct (call_update_params_run {| self := cs1; heap := h1 ++ [d] |}
              (length (heap w)) d "t__params_" (VInt 0) Hd
              (same_entities_declared _ _ _ Hent Ht)) as (s1 & Hrun1 & Hsh1).
  cbn [heap with_heap self] in Hrun1.
  rewrite <- Hlen in Hrun1 at 2. rewrite insert_new_object in Hrun1.
  destruct (sweep_entities_run ser {| self := cs1; heap := h1 ++ [s1] |}
              (length (heap w)) s1) as (s2 & Hrun2 & Hsh2).
  - cbn [heap]. apply list_lookup_middle. symmetry. exact Hlen.
  - eapply Forall_impl; [exact Hall |].
    intros y [Hy Hdy]. split; [exact Hy |].
    destruct Hsh1 as (_ & _ & _ & _ & _ & Hent1).
    apply (same_entities_declared d s1 _ Hent1).
    apply (same_entities_declared base d _ Hent Hdy).
  - cbn [heap with_heap self] in Hrun2.
    rewrite <- Hlen in Hrun2 at 2. rewrite insert_new_object in Hrun2.
    exists s2. split; [| apply (same_shape_trans d s1 s2 Hsh1 Hsh2)].
    unfold add_sweep_scen. rewrite Hid.
    unfold bind at 1. unfold get at 1. cbn [result final logged app].
    erewrite bind_returns; [| exact Hadd |].
    + reflexivity.
    + erewrite bind_returns; [reflexivity | exact Hrun1 | exact Hrun2].
Qed.

Lemma with_scens_same (cs : CaseStudy) : with_scens (scens cs) cs = cs.
Proof. destruct cs; reflexivity. Qed.

(** All columns of a sweep table whose names are identifiers other
    than the base id and whose values are integers for declared
    entities: one scenario per column is appended to the heap, bound to
    the column name, and nothing else in the heap changes but the
    visited base. *)
Lemma sweep_columns_run (b : string) (rb : ref)
    (cols : list (Label * list (Label * Value))) :
  forall (w : World) (base : Scenario),
  Dict.get (scens (self w)) b = Some rb ->
  heap w !! rb = Some base ->
  declared base "t__params_" ->
  Forall (fun col : Label * list (Label * Value) =>
            isidentifier (label_str col.1) = true /\
            label_str col.1 <> b /\
            Forall (fun x : Label * Value =>
                      (exists z, x.2 = VInt z) /\ declared base (label_str x.1)) col.2)
         cols ->
  exists w',
    for_each cols (fun col => add_sweep_scen b (label_str col.1) col.2) w
      = Run (Returns tt) w' [] /\
    self w' = with_scens
                (bind_all (scens (self w)) ((fun col => label_str col.1) <$> cols)
                   (seq (length (heap w)) (length cols)))
                (self w) /\
    length (heap w') = (length (heap w) + length cols)%nat /\
    (exists base', heap w' !! rb = Some base' /\ same_entities base base' /\
                   res base' = res base) /\
    (forall j col, cols !! j = Some col ->
       exists sc, heap w' !! (length (heap w) + j)%nat = Some sc /\
                  id sc = label_str col.1 /\ name sc = label_str col.1 /\
                  doc sc = long_doc col.2 /\ res sc = None) /\
    (forall r x, r <> rb -> heap w !! r = Some x -> heap w' !! r = Some x).
Proof.
  induction cols as [| col cols IH]; intros w base Hb Hbase Ht Hall.
  - exists w. cbn [for_each length fmap list_fmap seq bind_all zip zip_with fold_left].
    repeat apply conj.
    + reflexivity.
    + symmetry. apply with_scens_same.
    + lia.
    + exists base. repeat split; auto.
    + intros j c Hj. discriminate.
    + auto.
  - apply Forall_cons in Hall as [(Hid & Hne & Hser) Hall].
    pose proof (lookup_lt_Some _ _ _ Hbase) as Hlt.
    destruct (add_sweep_scen_run w b (label_str col.1) col.2 rb base Hid Hb Hbase Ht Hser)
      as (sc1 & Hrun1 & Hsh1).
    set (w1 := {| self := with_scens
                            (Dict.set (scens (self w)) (label_str col.1) (length (heap w)))
                            (self w);
                  heap := <[rb := visited_base base]> (heap w) ++ [sc1] |}) in *.
    assert (Hlen1 : length (heap w1) = S (length (heap w))).
    { cbn [heap w1]. rewrite length_app, length_insert. cbn. lia. }
    assert (Hbase1 : heap w1 !! rb = Some (visited_base base)).
    { cbn [heap w1]. rewrite lookup_app_l by (rewrite length_insert; exact Hlt).
      apply list_lookup_insert_eq, Hlt. }
    assert (Hsc1 : heap w1 !! length (heap w) = Some sc1).
    { cbn [heap w1]. apply list_lookup_middle. rewrite length_insert. reflexivity. }
    assert (Hframe1 : forall r x, r <> rb -> heap w !! r = Some x -> heap w1 !! r = Some x).
    { intros r x Hr Hx. cbn [heap w1].
      rewrite lookup_app_l by (rewrite length_insert; apply (lookup_lt_Some _ _ _ Hx)).
      rewrite list_lookup_insert_ne by congruence. exact Hx. }
    pose proof (visited_base_entities base) as Hvb.
    destruct (IH w1 (visited_base base)) as (w' & Hrun & Hself & Hlen & Hb' & Hobjs & Hframe).
    + cbn [self w1 scens with_scens]. rewrite dict_get_set_ne by exact Hne. exact Hb.
    + exact Hbase1.
    + apply (same_entities_declared _ _ _ Hvb Ht).
    + eapply Forall_impl; [exact Hall |].
      intros c (Hc1 & Hc2 & Hc3). repeat split; try assumption.
      eapply Forall_impl; [exact Hc3 |].
      intros y [Hy Hdy]. split; [exact Hy |].
      apply (same_entities_declared _ _ _ Hvb Hdy).
    + exists w'. repeat apply conj.
      * cbn [for_each]. apply (bind_returns _ _ _ _ _ _ _ _ Hrun1 Hrun).
      * rewrite Hself, Hlen1. reflexivity.
      * rewrite Hlen, Hlen1. cbn [length]. lia.
      * destruct Hb' as (base' & Hl & He & Hr). exists base'.
        split; [exact Hl |]. split.
        -- apply (same_entities_trans _ _ _ Hvb He).
        -- rewrite Hr. apply visited_base_res.
      * intros [| j] c Hj.
        -- injection Hj as <-. exists sc1.
           destruct Hsh1 as (H1 & H2 & H3 & H4 & _).
           rewrite Nat.add_0_r. repeat split.
           ++ apply Hframe; [lia | exact Hsc1].
           ++ rewrite H1. reflexivity.
           ++ rewrite H2. reflexivity.
           ++ rewrite H3. reflexivity.
           ++ rewrite H4. apply derived_res.
        -- destruct (Hobjs j c Hj) as (sc & Hl & Hrest).
           exists sc. split; [| exact Hrest].
           rewrite <- Hl. f_equal. lia.
      * intros r x Hr Hx. apply Hframe; [exact Hr |]. apply Hframe1; assumption.
Qed.

Lemma bind_all_cons (d : list (string * ref)) k ks r rs :
  bind_all d (k :: ks) (r :: rs) = bind_all (Dict.set d k r) ks rs.
Proof. reflexivity. Qed.

Lemma bind_all_get_other (names : list string) :
  forall (d : list (string * ref)) (refs : list ref) (k : string),
  k ∉ names -> Dict.get (bind_all d names refs) k = Dict.get d k.
Proof.
  induction names as [| n names IH]; intros d refs k Hk; [reflexivity |].
  destruct refs as [| r refs]; [reflexivity |].
  apply not_elem_of_cons in Hk as [Hne Hk].
  rewrite bind_all_cons, IH by exact Hk.
  apply dict_get_set_ne. congruence.
Qed.

Lemma bind_all_get (names : list string) :
  forall (d : list (string * ref)) (refs : list ref) (j : nat) (k : string) (r : ref),
  NoDup names -> names !! j = Some k -> refs !! j = Some r ->
  Dict.get (bind_all d names refs) k = Some r.
Proof.
  induction names as [| n names IH]; intros d refs j k r Hnd Hk Hr; [discriminate |].
  destruct refs as [| r0 refs]; [destruct j; discriminate |].
  apply NoDup_cons in Hnd as [Hn Hnd].
  rewrite bind_all_cons. destruct j as [| j].
  - injection Hk as ->. injection Hr as ->.
    rewrite bind_all_get_other by exact Hn. apply dict_get_set.
  - apply (IH _ _ j); assumption.
Qed.

Lemma bind_all_keys (names : list string) :
  forall (d : list (string * ref)) (refs : list ref),
  NoDup names ->
  (forall k, k ∈ names -> Dict.get d k = None) ->
  length refs = length names ->
  Dict.keys (bind_all d names refs) = Dict.keys d ++ names.
Proof.
  induction names as [| n names IH]; intros d refs Hnd Habs Hlen.
  - destruct refs; [| discriminate]. cbn. rewrite app_nil_r. reflexivity.
  - destruct refs as [| r refs]; [discriminate |].
    apply NoDup_cons in Hnd as [Hn Hnd].
    rewrite bind_all_cons, IH.
    + rewrite dict_keys_set_absent by (apply Habs; left).
      rewrite <- app_assoc. reflexivity.
    + exact Hnd.
    + intros k Hk. rewrite dict_get_set_ne.
      * apply Habs. right. exact Hk.
      * intros ->. contradiction.
    + cbn in Hlen. lia.
Qed.

Lemma sweep_XY_ids_NoDup : NoDup sweep_XY_ids.
Proof.
  unfold sweep_XY_ids.
  repeat (apply NoDup_cons; split;
          [rewrite ?elem_of_cons, elem_of_nil; intros Hin;
           repeat (destruct Hin as [Hin | Hin]; try discriminate); contradiction |]).
  apply NoDup_nil. exact I.
Qed.

Lemma sweep_XY_table_computed :
  sweep_table ["X"; "Y"] ["x"; "y"] [[VInt 1; VInt 2]; [VInt 10; VInt 20]]
  = sweep_XY_table.
Proof. vm_compute. reflexivity. Qed.

Lemma sweep_XY_items :
  items sweep_XY_table =
    [(LName "x1_y10", [(LName "X", VInt 1); (LName "Y", VInt 10)]);
     (LName "x1_y20", [(LName "X", VInt 1); (LName "Y", VInt 20)]);
     (LName "x2_y10", [(LName "X", VInt 2); (LName "Y", VInt 10)]);
     (LName "x2_y20", [(LName "X", VInt 2); (LName "Y", VInt 20)])].
Proof. reflexivity. Qed.

Lemma add_scens_XY_unfold (w w' : World) :
  for_each (items sweep_XY_table)
    (fun col => add_sweep_scen "REF" (label_str col.1) col.2)
    (with_self (with_scen_df sweep_XY_table (with_scen_vars (Some sweep_XY) (self w))) w)
  = Run (Returns tt) w' [] ->
  add_scens (Some sweep_XY) 0 false "REF" w = Run (Returns tt) w' [].
Proof.
  intros Hfor. unfold add_scens. cbn [Z.ltb Z.compare].
  change ((fun v : ScenVar => v.1.1) <$> sweep_XY) with ["X"; "Y"].
  change ((fun v : ScenVar => v.1.2) <$> sweep_XY) with ["x"; "y"].
  change ((fun v : ScenVar => v.2) <$> sweep_XY)
    with [[VInt 1; VInt 2]; [VInt 10; VInt 20]].
  rewrite sweep_XY_table_computed.
  rewrite bool_decide_eq_true_2.
  2:{ apply NoDup_cons. split; [| apply NoDup_singleton].
      rewrite elem_of_cons, elem_of_nil. intros [Hxy | []]. discriminate. }
  unfold sweep_XY at 2.
  unfold bind at 1. unfold modify at 1. cbn [result final logged].
  unfold bind at 1. unfold ret at 1. cbn [result final logged].
  unfold bind at 1. unfold modify at 1. cbn [result final logged].
  unfold bind at 1.
  change (with_self
            (with_scen_df sweep_XY_table
               (self (with_self (with_scen_vars (Some sweep_XY) (self w)) w)))
            (with_self (with_scen_vars (Some sweep_XY) (self w)) w))
    with (with_self
            (with_scen_df sweep_XY_table (with_scen_vars (Some sweep_XY) (self w))) w).
  rewrite Hfor. reflexivity.
Qed.

Lemma sweep_XY_pairs_NoDup :
  NoDup (list_prod [VInt 1; VInt 2] [VInt 10; VInt 20]).
Proof.
  cbn [list_prod map app].
  repeat (apply NoDup_cons; split;
          [rewrite ?elem_of_cons, elem_of_nil; intros Hin;
           repeat (destruct Hin as [Hin | Hin]; try discriminate); contradiction |]).
  apply NoDup_nil. exact I.
Qed.

(** C4, as amended.  In a case study whose scenario [REF] declares
    [t__params_], [X] and [Y] and which holds none of the four composed
    ids, [add_scens] with [[("X","x",[1,2]), ("Y","y",[10,20])]]
    returns, having appended exactly the four scenarios [x1_y10],
    [x1_y20], [x2_y10], [x2_y20] (pairwise distinct ids, each bound to
    a new object carrying that id), and sets [scen_df] to a table with
    the two rows [X] and [Y] and four columns, one per scenario, whose
    (X, Y) entries are the four combinations of the values, each
    once. *)
Theorem add_scens_sweep_XY (w : World) (rb : ref) (base : Scenario) :
  Dict.get (scens (self w)) "REF" = Some rb ->
  heap w !! rb = Some base ->
  declared base "t__params_" -> declared base "X" -> declared base "Y" ->
  (forall i, i ∈ sweep_XY_ids -> Dict.get (scens (self w)) i = None) ->
  result (add_scens (Some sweep_XY) 0 false "REF" w) = Returns tt /\
  Dict.keys (scens (self (final (add_scens (Some sweep_XY) 0 false "REF" w))))
    = Dict.keys (scens (self w)) ++ sweep_XY_ids /\
  length sweep_XY_ids = 4%nat /\
  NoDup sweep_XY_ids /\
  length (heap (final (add_scens (Some sweep_XY) 0 false "REF" w)))
    = (length (heap w) + 4)%nat /\
  (forall i, i ∈ sweep_XY_ids ->
     exists r sc,
       Dict.get (scens (self (final (add_scens (Some sweep_XY) 0 false "REF" w)))) i
         = Some r /\
       (length (heap w) <= r)%nat /\
       heap (final (add_scens (Some sweep_XY) 0 false "REF" w)) !! r = Some sc /\
       id sc = i /\ res sc = None) /\
  scen_df (self (final (add_scens (Some sweep_XY) 0 false "REF" w)))
    = Some sweep_XY_table /\
  index sweep_XY_table = [LName "X"; LName "Y"] /\
  length (index sweep_XY_table) = 2%nat /\
  columns sweep_XY_table = LName <$> sweep_XY_ids /\
  length (columns sweep_XY_table) = 4%nat /\
  column_pairs sweep_XY_table = list_prod [VInt 1; VInt 2] [VInt 10; VInt 20] /\
  NoDup (column_pairs sweep_XY_table).
Proof.
  intros Hb Hbase Ht HX HY Habs.
  set (w0 := with_self
               (with_scen_df sweep_XY_table (with_scen_vars (Some sweep_XY) (self w))) w).
  destruct (sweep_columns_run "REF" rb (items sweep_XY_table) w0 base)
    as (w' & Hrun & Hself & Hlen & _ & Hobjs & _); try assumption.
  { rewrite sweep_XY_items.
    repeat (apply Forall_cons; split;
            [split; [reflexivity |]; split; [discriminate |];
             repeat (apply Forall_cons; split; [split; [eexists; reflexivity | assumption] |]);
             apply Forall_nil; exact I |]).
    apply Forall_nil. exact I. }
  rewrite (add_scens_XY_unfold w w' Hrun). cbn [result final].
  change ((fun col : Label * list (Label * Value) => label_str col.1)
            <$> items sweep_XY_table) with sweep_XY_ids in Hself.
  change (length (items sweep_XY_table)) with 4%nat in Hself, Hlen.
  change (heap w0) with (heap w) in Hself, Hlen, Hobjs.
  change (scens (self w0)) with (scens (self w)) in Hself.
  rewrite Hself. cbn [scens with_scens scen_df self w0 with_self with_scen_df].
  repeat apply conj; try reflexivity.
  - apply bind_all_keys; [apply sweep_XY_ids_NoDup | exact Habs | reflexivity].
  - apply sweep_XY_ids_NoDup.
  - exact Hlen.
  - intros i Hi. apply list_elem_of_lookup in Hi as [j Hj].
    assert (Hjlt : (j < 4)%nat) by (apply lookup_lt_Some in Hj; exact Hj).
    destruct (items sweep_XY_table !! j) as [col |] eqn:Hcol.
    2:{ apply lookup_ge_None in Hcol. cbn in Hcol. lia. }
    assert (Hname : label_str col.1 = i).
    { assert (Hmap : ((fun col : Label * list (Label * Value) => label_str col.1)
                        <$> items sweep_XY_table) !! j = Some (label_str col.1))
        by (rewrite list_lookup_fmap, Hcol; reflexivity).
      change ((fun col : Label * list (Label * Value) => label_str col.1)
                <$> items sweep_XY_table) with sweep_XY_ids in Hmap.
      congruence. }
    destruct (Hobjs j col Hcol) as (sc & Hsc & Hid & _ & _ & Hres).
    exists (length (heap w) + j)%nat, sc. repeat split.
    + apply (bind_all_get _ _ _ j); [apply sweep_XY_ids_NoDup | exact Hj |].
      rewrite lookup_seq. split; [reflexivity | exact Hjlt].
    + lia.
    + exact Hsc.
    + congruence.
    + exact Hres.
  - apply sweep_XY_pairs_NoDup.
Qed.

End SweepFacts.

Section SweepExamples.
#[local] Existing Instance Demo.opaque.
#[local] Existing Instance Demo.library.

Lemma solved_REF_declares :
  declared Demo.solved_REF "t__params_" /\
  declared Demo.solved_REF "X" /\ declared Demo.solved_REF "Y".
Proof. repeat split; right; eexists; reflexivity. Qed.

Lemma study_holds_no_sweep_id :
  forall i, i ∈ sweep_XY_ids -> Dict.get (scens (self Demo.study)) i = None.
Proof.
  intros i. unfold sweep_XY_ids. rewrite !elem_of_cons, elem_of_nil.
  intros [-> | [-> | [-> | [-> | []]]]]; reflexivity.
Qed.

(** C4 as stated fails on the table: after the sweep on the example
    study [scen_df] has two rows, labelled [X] and [Y], not four, and
    its four columns are labelled by the scenario names, not by [X] and
    [Y]. *)
Lemma add_scens_table_is_transposed :
  exists df : DataFrame,
    scen_df (self (final (add_scens (Some sweep_XY) 0 false "REF" Demo.study))) = Some df /\
    index df = [LName "X"; LName "Y"] /\
    length (index df) <> 4%nat /\
    columns df = [LName "x1_y10"; LName "x1_y20"; LName "x2_y10"; LName "x2_y20"] /\
    columns df <> [LName "X"; LName "Y"].
Proof.
  eexists. split; [vm_compute; reflexivity |].
  repeat split; discriminate.
Qed.

Lemma add_scens_sweep_XY_study :
  Dict.get (scens (self Demo.study)) "REF" = Some 0%nat /\
  heap Demo.study !! 0%nat = Some Demo.solved_REF /\
  result (add_scens (Some sweep_XY) 0 false "REF" Demo.study) = Returns tt /\
  Dict.keys (scens (self (final (add_scens (Some sweep_XY) 0 false "REF" Demo.study))))
    = ["REF"; "x1_y10"; "x1_y20"; "x2_y10"; "x2_y20"].
Proof.
  split; [reflexivity |]. split; [reflexivity |].
  destruct solved_REF_declares as (Ht & HX & HY).
  destruct (add_scens_sweep_XY Demo.study 0%nat Demo.solved_REF
              study_REF study_heap Ht HX HY study_holds_no_sweep_id)
    as (Hr & Hkeys & _).
  split; [exact Hr | exact Hkeys].
Defined.

End SweepExamples.


(** * Further properties *)

(** ** More on positions and slices *)

Section MoreSliceFacts.
Context {A : Type}.
Implicit Types l : list A.

Lemma slice_all l : slice l 0 (len l) = l.
Proof.
  unfold slice, clamp. pose proof (len_nonneg l).
  destruct (Z.ltb_spec 0 0); [lia |].
  destruct (Z.ltb_spec (len l) 0); [lia |].
  rewrite (Z.min_l 0) by lia. rewrite Z.min_id. cbn [Z.to_nat drop].
  replace (Z.to_nat (len l - 0)) with (length l) by (unfold len; lia).
  apply firstn_all.
Qed.

(** The length of a window that lies inside the list. *)
Lemma len_slice_inside l a b :
  0 <= a -> a <= b -> b <= len l -> len (slice l a b) = b - a.
Proof.
  intros Ha Hab Hb. rewrite len_slice. unfold clamp.
  destruct (Z.ltb_spec a 0); [lia |].
  destruct (Z.ltb_spec b 0); lia.
Qed.

(** An element of a window by its position in the list. *)
Lemma slice_lookup l a b (i : nat) :
  0 <= a -> a + Z.of_nat i < b -> b <= len l ->
  slice l a b !! i = l !! (Z.to_nat a + i)%nat.
Proof.
  intros Ha Hi Hb. unfold slice, clamp.
  destruct (Z.ltb_spec a 0); [lia |].
  destruct (Z.ltb_spec b 0); [lia |].
  rewrite lookup_take_lt by lia. rewrite lookup_drop. f_equal. lia.
Qed.

(** Where [l[i]] sits, when it exists. *)
Lemma getitem_clamp l i x :
  getitem l i = Some x ->
  l !! Z.to_nat (clamp (len l) i) = Some x /\ clamp (len l) i < len l.
Proof.
  intros Hx. pose proof (getitem_Some_range l i x Hx) as Hr.
  unfold getitem in Hx. unfold clamp.
  destruct (Z.ltb_spec i 0).
  - destruct (Z.ltb_spec (i + len l) 0); [discriminate |].
    rewrite Z.max_l by lia. split; [exact Hx | lia].
  - rewrite Z.min_l by lia. split; [exact Hx | lia].
Qed.

(** The first element of a non-empty [l[a:b]]. *)
Lemma slice_head l a b x :
  getitem (slice l a b) 0 = Some x ->
  l !! Z.to_nat (clamp (len l) a) = Some x /\ clamp (len l) a < clamp (len l) b.
Proof.
  intros Hx. pose proof (slice_nonempty l a b x Hx) as Hne.
  split; [| exact Hne].
  rewrite getitem_nat in Hx by lia. unfold slice in Hx.
  rewrite lookup_take_lt in Hx by lia.
  rewrite lookup_drop in Hx. rewrite <- Hx. f_equal. lia.
Qed.

(** The last element of a non-empty [l[a:b]]. *)
Lemma slice_tail l a b x :
  getitem (slice l a b) (-1) = Some x ->
  l !! Z.to_nat (clamp (len l) b - 1) = Some x /\ clamp (len l) a < clamp (len l) b.
Proof.
  intros Hx.
  pose proof (getitem_Some_range _ _ _ Hx) as Hr. rewrite len_slice in Hr.
  pose proof (clamp_range (len l) a (len_nonneg l)) as Ha.
  pose proof (clamp_range (len l) b (len_nonneg l)) as Hb.
  split; [| lia].
  unfold getitem in Hx. rewrite len_slice in Hx.
  destruct (Z.ltb_spec (-1) 0); [| lia].
  destruct (Z.ltb_spec (-1 + Z.max 0 (clamp (len l) b - clamp (len l) a)) 0); [lia |].
  unfold slice in Hx.
  rewrite lookup_take_lt in Hx by lia.
  rewrite lookup_drop in Hx. rewrite <- Hx. f_equal. lia.
Qed.

(** Slicing a zipped pair of equally long lists slices both. *)
Lemma slice_zip {B} l (k : list B) a b :
  length l = length k ->
  slice (zip l k) a b = zip (slice l a b) (slice k a b).
Proof.
  intros Hlen. unfold slice, len. rewrite length_zip, <- Hlen, Nat.min_id.
  rewrite (zip_with_drop pair), (zip_with_take pair). reflexivity.
Qed.

End MoreSliceFacts.

(** ** More on the time window *)

Section MoreWindowFacts.
Context {opq : Opaque} {lib : Library}.

Ltac step_simpl :=
  unfold inherited, zoom, bind, ret, raise, get, gets, modify, assert, unwrap;
  cbn [result final logged fst snd dth dtindex dtindex_custom _t1 _t2 year freq
       with_dth with_dtindex_custom with__t1 with__t2 app].

Lemma set_time_horizon_late_failure (cs : CaseStudy) (start : position)
    (steps : option Z) (end_ : option position) (t1 t2 : Z) (e : exn) :
  result (_get_integer_locations start steps end_ cs) = Returns (t1, t2) ->
  result (set_time_horizon start steps end_ cs) = Raises e ->
  e = IndexError /\
  final (set_time_horizon start steps end_ cs)
    = with_dth (with_dtindex_custom (slice (dtindex cs) t1 (t2 + 1)) cs) cs.
Proof.
  intros Hloc.
  destruct (get_integer_locations_pure start steps end_ cs) as [o Ho].
  rewrite Ho in Hloc. cbn [result] in Hloc. subst o.
  unfold set_time_horizon. step_simpl. rewrite Ho. step_simpl.
  rewrite with_dth_same.
  destruct (getitem (slice (dtindex cs) t1 (t2 + 1)) 0) as [x |] eqn:Hx; step_simpl.
  2:{ intros [= <-]. repeat split. }
  destruct (getitem (dtindex cs) t1) as [x' |] eqn:Hx'; step_simpl.
  2:{ intros [= <-]. repeat split. }
  apply slice_head in Hx as [Hx Hne]. apply getitem_clamp in Hx' as [Hx' _].
  assert (x = x') by congruence. subst x'. rewrite Z.eqb_refl. step_simpl.
  destruct (getitem (slice (dtindex cs) t1 (t2 + 1)) (-1)) as [y |] eqn:Hy; step_simpl.
  2:{ intros [= <-]. repeat split. }
  destruct (getitem (dtindex cs) t2) as [y' |] eqn:Hy'; step_simpl.
  2:{ intros [= <-]. repeat split. }
  apply slice_tail in Hy as [Hy _].
  pose proof (getitem_Some_range _ _ _ Hy') as Hr.
  apply getitem_clamp in Hy' as [Hy' Hlt].
  assert (Hpos : clamp (len (dtindex cs)) (t2 + 1) - 1 = clamp (len (dtindex cs)) t2).
  { unfold clamp in *.
    destruct (Z.ltb_spec t1 0), (Z.ltb_spec (t2 + 1) 0), (Z.ltb_spec t2 0); lia. }
  rewrite Hpos in Hy. assert (y = y') by congruence. subst y'.
  rewrite Z.eqb_refl. step_simpl. discriminate.
Qed.

(** X1.  [set_time_horizon] assigns the custom index before it checks it:
    when the offsets were resolved and the call still raises, the
    exception is [IndexError] (the two assertions themselves cannot
    fail), [_t1] and [_t2] are as before, and [dtindex_custom] has
    already been replaced by [dtindex[t1 : t2 + 1]]. *)
Theorem set_time_horizon_failure_state (cs : CaseStudy) (start : position)
    (steps : option Z) (end_ : option position) (t1 t2 : Z) (e : exn) :
  result (_get_integer_locations start steps end_ cs) = Returns (t1, t2) ->
  result (set_time_horizon start steps end_ cs) = Raises e ->
  e = IndexError /\
  dtindex_custom (final (set_time_horizon start steps end_ cs))
    = slice (dtindex cs) t1 (t2 + 1) /\
  _t1 (final (set_time_horizon start steps end_ cs)) = _t1 cs /\
  _t2 (final (set_time_horizon start steps end_ cs)) = _t2 cs /\
  dtindex (final (set_time_horizon start steps end_ cs)) = dtindex cs.
Proof.
  intros Hloc Hr.
  destruct (set_time_horizon_late_failure cs start steps end_ t1 t2 e Hloc Hr) as [-> Hf].
  rewrite Hf. repeat split.
Qed.

Lemma get_integer_locations_end_string (d : DateTimeHandler) start e t1 a b :
  start_location d start t1 ->
  get_loc (dtindex d) (date_key d e) = Some (LocSlice a b) ->
  _get_integer_locations start None (Some (PStr e)) d = Run (Returns (t1, b)) d [].
Proof.
  unfold start_location, date_key, _get_integer_locations,
    _get_first_int_loc_from_dtstring, _get_last_int_loc_from_dtstring,
    _get_int_loc_from_dtstring.
  intros Hstart He. destruct start as [i | s]; step_simpl.
  - subst. rewrite He. reflexivity.
  - revert Hstart. step_simpl.
    destruct (get_loc (dtindex d) (str (year d) +:+ "-" +:+ s)) as [[j | a' b'] |];
      step_simpl; try discriminate; intros [= ->]; rewrite He; reflexivity.
Qed.

(** X2.  An [end] given as a date string that resolves to [slice(a, b)]
    becomes [t2 = b], the exclusive stop of the period: the window then
    also holds the step at position [b], and a period that reaches the
    end of the index ([b = len(dtindex)]) makes the call raise
    [IndexError]. *)
Theorem set_time_horizon_end_string (cs : CaseStudy) (start : position) (e : string)
    (t1 a b : Z) :
  start_location cs start t1 ->
  get_loc (dtindex cs) (date_key cs e) = Some (LocSlice a b) ->
  0 <= t1 ->
  (t1 <= b -> b < len (dtindex cs) ->
   result (set_time_horizon start None (Some (PStr e)) cs) = Returns tt /\
   _t2 (final (set_time_horizon start None (Some (PStr e)) cs)) = b /\
   len (dtindex_custom (final (set_time_horizon start None (Some (PStr e)) cs)))
     = b - t1 + 1 /\
   getitem (dtindex_custom (final (set_time_horizon start None (Some (PStr e)) cs))) (-1)
     = getitem (dtindex cs) b) /\
  (t1 < len (dtindex cs) -> b = len (dtindex cs) ->
   result (set_time_horizon start None (Some (PStr e)) cs) = Raises IndexError).
Proof.
  intros Hstart He H0.
  pose proof (get_integer_locations_end_string cs start e t1 a b Hstart He) as Hloc.
  split.
  - intros Hb Hlt.
    destruct (set_time_horizon_accepts start None (Some (PStr e)) cs t1 b)
      as (Hr & Hf & _); try lia.
    { rewrite Hloc. reflexivity. }
    rewrite Hf, windowed_t2, windowed_custom.
    repeat split; try assumption.
    + rewrite len_slice_inside; lia.
    + rewrite slice_last by lia. f_equal. lia.
  - intros Hlt ->.
    destruct (result (set_time_horizon start None (Some (PStr e)) cs)) as [[] | x] eqn:Hr.
    + destruct (set_time_horizon_returns _ _ _ _ Hr)
        as (u & v & x & y & Hloc' & _ & _ & _ & _ & Hy).
      rewrite Hloc in Hloc'. cbn [result] in Hloc'. injection Hloc' as <- <-.
      apply getitem_Some_range in Hy. lia.
    + destruct (set_time_horizon_late_failure cs start None (Some (PStr e)) t1
                  (len (dtindex cs)) x) as [-> _]; [rewrite Hloc | |]; auto.
Qed.

End MoreWindowFacts.

Section MoreWindowExamples.
#[local] Existing Instance Demo.opaque.
#[local] Existing Instance Demo.library.

Lemma set_time_horizon_failure_state_2019 :
  result (_get_integer_locations (PInt 5) None (Some (PInt 2)) Demo.cs2019)
    = Returns (5, 2) /\
  result (set_time_horizon (PInt 5) None (Some (PInt 2)) Demo.cs2019) = Raises IndexError /\
  dtindex_custom (final (set_time_horizon (PInt 5) None (Some (PInt 2)) Demo.cs2019)) = [] /\
  _t2 (final (set_time_horizon (PInt 5) None (Some (PInt 2)) Demo.cs2019)) = 8759.
Proof.
  assert (Hloc : result (_get_integer_locations (PInt 5) None (Some (PInt 2)) Demo.cs2019)
                 = Returns (5, 2)) by reflexivity.
  assert (Hr : result (set_time_horizon (PInt 5) None (Some (PInt 2)) Demo.cs2019)
               = Raises IndexError) by (vm_compute; reflexivity).
  destruct (set_time_horizon_failure_state Demo.cs2019 (PInt 5) None (Some (PInt 2))
              5 2 IndexError Hloc Hr) as (_ & Hc & _ & Ht2 & _).
  split; [exact Hloc |]. split; [exact Hr |]. split; [| exact Ht2].
  rewrite Hc. vm_compute. reflexivity.
Defined.

Lemma set_time_horizon_end_string_2019 :
  start_location Demo.cs2019 (PStr "01-01") 0 /\
  get_loc (dtindex Demo.cs2019) (date_key Demo.cs2019 "01-01") = Some (LocSlice 0 24) /\
  result (set_time_horizon (PStr "01-01") None (Some (PStr "01-01")) Demo.cs2019)
    = Returns tt /\
  len (dtindex_custom
         (final (set_time_horizon (PStr "01-01") None (Some (PStr "01-01")) Demo.cs2019)))
    = 25.
Proof.
  assert (Hs : start_location Demo.cs2019 (PStr "01-01") 0) by reflexivity.
  assert (He : get_loc (dtindex Demo.cs2019) (date_key Demo.cs2019 "01-01")
               = Some (LocSlice 0 24)) by reflexivity.
  split; [exact Hs |]. split; [exact He |].
  destruct (set_time_horizon_end_string Demo.cs2019 (PStr "01-01") "01-01" 0 0 24 Hs He)
    as (Hin & _); [lia |].
  destruct Hin as (Hr & _ & Hlen & _); [lia | rewrite len_index2019; lia |].
  split; [exact Hr | exact Hlen].
Defined.

End MoreWindowExamples.

(** ** Time slices, matched data and the rolling horizon *)

Section HandlerFacts.
Context {opq : Opaque} {lib : Library}.

Ltac step_simpl :=
  unfold inherited, zoom, bind, ret, raise, get, gets, modify, assert, unwrap;
  cbn [result final logged fst snd dth dtindex dtindex_custom _t1 _t2 year freq
       with_dth with_dtindex_custom with__t1 with__t2 app].

Lemma first_int_loc_slice (d : DateTimeHandler) s a b :
  get_loc (dtindex d) (date_key d s) = Some (LocSlice a b) ->
  _get_first_int_loc_from_dtstring s d = Run (Returns a) d [] /\
  _get_last_int_loc_from_dtstring s d = Run (Returns b) d [].
Proof.
  unfold date_key, _get_first_int_loc_from_dtstring, _get_last_int_loc_from_dtstring,
    _get_int_loc_from_dtstring.
  intros Hs. step_simpl. rewrite Hs. split; reflexivity.
Qed.

(** X3.  [timeslice] with date strings resolving to [slice(a, b)] and
    [slice(a', b')] returns the bounds [(a, b')] and leaves the handler
    as it is; on the full index the slice selects [b' - a] steps, one
    fewer than the window [set_time_horizon] sets for the same two
    strings.  A string that does not resolve raises [KeyError]. *)
Theorem timeslice_period (cs : CaseStudy) (s s' : string) (a b a' b' : Z) :
  get_loc (dtindex cs) (date_key cs s) = Some (LocSlice a b) ->
  get_loc (dtindex cs) (date_key cs s') = Some (LocSlice a' b') ->
  0 <= a -> a <= b' -> b' < len (dtindex cs) ->
  timeslice (Some s) (Some s') cs = Run (Returns (Some a, Some b')) (dth cs) [] /\
  len (slice_open (dtindex cs) (Some a) (Some b')) = b' - a /\
  result (set_time_horizon (PStr s) None (Some (PStr s')) cs) = Returns tt /\
  len (dtindex_custom (final (set_time_horizon (PStr s) None (Some (PStr s')) cs)))
    = b' - a + 1 /\
  (forall key, get_loc (dtindex cs) (date_key cs key) = None ->
     result (timeslice (Some key) (Some s') cs) = Raises (KeyError (date_key cs key))).
Proof.
  intros Hs Hs' Ha Hab Hb.
  destruct (first_int_loc_slice cs s a b Hs) as [Hfirst _].
  destruct (first_int_loc_slice cs s' a' b' Hs') as [_ Hlast].
  repeat apply conj.
  - unfold timeslice. step_simpl. rewrite Hfirst, Hlast. reflexivity.
  - unfold slice_open. cbn [default]. apply len_slice_inside; lia.
  - assert (Hstart : start_location cs (PStr s) a).
    { unfold start_location. rewrite Hfirst. reflexivity. }
    destruct (set_time_horizon_accepts (PStr s) None (Some (PStr s')) cs a b')
      as (Hr & _); try lia; [| exact Hr].
    rewrite (get_integer_locations_end_string cs (PStr s) s' a a' b' Hstart Hs').
    reflexivity.
  - assert (Hstart : start_location cs (PStr s) a).
    { unfold start_location. rewrite Hfirst. reflexivity. }
    destruct (set_time_horizon_accepts (PStr s) None (Some (PStr s')) cs a b')
      as (_ & Hf & _); try lia.
    { rewrite (get_integer_locations_end_string cs (PStr s) s' a a' b' Hstart Hs').
      reflexivity. }
    rewrite Hf, windowed_custom. rewrite len_slice_inside; lia.
  - intros key Hkey. unfold timeslice, _get_first_int_loc_from_dtstring,
      _get_int_loc_from_dtstring, date_key in *. step_simpl. rewrite Hkey. reflexivity.
Qed.

(** X4.  On a handler whose custom index is the window of the full index,
    [match_dtindex] cuts data that is as long as the full index to the
    window: it returns as many values as the custom index has time
    stamps, each the value that stood at that time stamp, and leaves
    the handler as it is. *)
Theorem match_dtindex_aligned {A} (resample_ : DateTimeHandler -> list A -> list A)
    (d : DateTimeHandler) (data : list A) :
  window_in_bounds d ->
  dtindex_custom d = slice (dtindex d) (_t1 d) (_t2 d + 1) ->
  length data = length (dtindex d) ->
  exists v,
    match_dtindex resample_ data false d = Run (Returns v) d [] /\
    len v = len (dtindex_custom d) /\
    len v = _t2 d - _t1 d + 1 /\
    zip (dtindex_custom d) v = slice (zip (dtindex d) data) (_t1 d) (_t2 d + 1) /\
    (forall i : nat, Z.of_nat i < len v -> v !! i = data !! (Z.to_nat (_t1 d) + i)%nat).
Proof.
  intros (H0 & H12 & H2) Hc Hlen.
  assert (Hl : len data = len (dtindex d)) by (unfold len; lia).
  exists (slice data (_t1 d) (_t2 d + 1)).
  assert (Hv : len (slice data (_t1 d) (_t2 d + 1)) = _t2 d - _t1 d + 1).
  { rewrite len_slice_inside; lia. }
  repeat apply conj.
  - reflexivity.
  - rewrite Hc, Hv. rewrite len_slice_inside; lia.
  - exact Hv.
  - rewrite Hc. symmetry. apply slice_zip. lia.
  - intros i Hi. apply slice_lookup; lia.
Qed.

Lemma steps_exact h f :
  f ∈ [1; 5; 15; 30; 60] -> steps_for h f * f = h * 60 /\ 0 < f.
Proof.
  unfold steps_for. rewrite !elem_of_cons, elem_of_nil.
  intros [-> | [-> | [-> | [-> | [-> | []]]]]].
  - rewrite Z.quot_1_r. lia.
  - replace (h * 60) with (h * 12 * 5) by lia. rewrite Z.quot_mul by lia. lia.
  - replace (h * 60) with (h * 4 * 15) by lia. rewrite Z.quot_mul by lia. lia.
  - replace (h * 60) with (h * 2 * 30) by lia. rewrite Z.quot_mul by lia. lia.
  - rewrite Z.quot_mul by lia. lia.
Qed.

(** X5.  A rolling horizon of [h >= 1] hours that fits between [t1] and
    the end of the index returns without a warning and sets a window of
    exactly [h * 60 / minutes] steps starting at [t1]. *)
Theorem rolling_horizon_fits (h : Z) (d : DateTimeHandler) (f : Z) :
  int_from_freq (freq d) = Some f ->
  0 <= _t1 d -> 1 <= h ->
  _t1 d + steps_for h f <= len (dtindex d) ->
  set_rolling_horizon h d
    = Run (Returns tt) (rolled d (_t1 d + steps_for h f - 1)) [] /\
  steps_for h f * f = h * 60 /\
  len (dtindex_custom (final (set_rolling_horizon h d))) = steps_for h f /\
  getitem (dtindex_custom (final (set_rolling_horizon h d))) 0
    = getitem (dtindex d) (_t1 d).
Proof.
  intros Hf H0 Hh Hfit.
  assert (Hv : freq d ∈ valid_freqs).
  { unfold int_from_freq, valid_freqs in *. rewrite !elem_of_cons.
    repeat (destruct (decide _) as [-> | _] in Hf; [auto 10 |]). discriminate. }
  destruct (int_from_freq_valid _ Hv) as (f' & Hf' & Hin).
  assert (f' = f) by congruence. subst f'.
  destruct (steps_exact h f Hin) as [Hex Hpos].
  assert (Hsteps : 1 <= steps_for h f) by nia.
  rewrite (set_rolling_horizon_run h d f Hf).
  pose proof (len_nonneg (dtindex d)).
  destruct (Z.ltb_spec (len (dtindex d)) (steps_for h f)); [lia |].
  rewrite Z.min_l by lia.
  cbn [final rolled dtindex_custom with_dtindex_custom].
  repeat apply conj; try reflexivity.
  - exact Hex.
  - rewrite len_slice_inside; lia.
  - apply slice_first; lia.
Qed.

(** X6.  For a horizon whose steps the float division gives exactly,
    the warning is logged exactly when the steps asked for exceed the
    whole index.  A horizon that only runs past the end of the index
    from [t1] is cut at the last step without any warning. *)
Theorem rolling_horizon_clipped_silently (h : Z) (d : DateTimeHandler) (f : Z) :
  int_from_freq (freq d) = Some f ->
  exact_horizon h ->
  (logged (set_rolling_horizon h d) <> [] <-> len (dtindex d) < steps_for h f) /\
  (0 <= _t1 d -> _t1 d < len (dtindex d) ->
   steps_for h f <= len (dtindex d) -> len (dtindex d) < _t1 d + steps_for h f ->
   logged (set_rolling_horizon h d) = [] /\
   _t2 (final (set_rolling_horizon h d)) = len (dtindex d) - 1 /\
   len (dtindex_custom (final (set_rolling_horizon h d))) = len (dtindex d) - _t1 d).
Proof.
  intros Hf _. rewrite (set_rolling_horizon_run h d f Hf).
  destruct (Z.ltb_spec (len (dtindex d)) (steps_for h f)) as [Hlt | Hge];
    cbn [result final logged rolled dtindex_custom _t2 with_dtindex_custom with__t2].
  - split; [split; [intros _; exact Hlt | discriminate] | intros; lia].
  - split; [split; [congruence | lia] |].
    intros H0 H1 _ Hpast. rewrite Z.min_r by lia.
    repeat split. rewrite len_slice_inside; lia.
Qed.

(** X7.  [set_rolling_horizon] keeps the offsets inside the index: with
    [0 <= t1 < len(dtindex)], at least two steps in the index and
    [h >= 1] hours, a horizon whose steps the float division gives
    exactly, afterwards [0 <= t1 <= t2 < len(dtindex)], [t1] is the one
    it was and the custom index is not empty. *)
Theorem rolling_horizon_in_bounds (h : Z) (d : DateTimeHandler) :
  freq d ∈ valid_freqs ->
  0 <= _t1 d -> _t1 d < len (dtindex d) -> 2 <= len (dtindex d) -> 1 <= h ->
  exact_horizon h ->
  result (set_rolling_horizon h d) = Returns tt /\
  window_in_bounds (final (set_rolling_horizon h d)) /\
  _t1 (final (set_rolling_horizon h d)) = _t1 d /\
  dtindex (final (set_rolling_horizon h d)) = dtindex d /\
  dtindex_custom (final (set_rolling_horizon h d)) <> [].
Proof.
  intros Hv H0 H1 H2 Hh _.
  destruct (int_from_freq_valid _ Hv) as (f & Hf & Hin).
  destruct (steps_exact h f Hin) as [Hex Hpos].
  assert (Hsteps : 1 <= steps_for h f) by nia.
  rewrite (set_rolling_horizon_run h d f Hf).
  assert (Hne : forall t2, _t1 d <= t2 -> t2 < len (dtindex d) ->
                  slice (dtindex d) (_t1 d) (t2 + 1) <> []).
  { intros t2 Ha Hb Hnil.
    assert (Hl : len (slice (dtindex d) (_t1 d) (t2 + 1)) = t2 + 1 - _t1 d)
      by (apply len_slice_inside; lia).
    rewrite Hnil in Hl. unfold len in Hl. cbn [length] in Hl. lia. }
  destruct (Z.ltb_spec (len (dtindex d)) (steps_for h f));
    cbn [result final logged rolled dtindex dtindex_custom _t1 _t2
         with_dtindex_custom with__t2];
    unfold window_in_bounds;
    cbn [rolled dtindex dtindex_custom _t1 _t2 with_dtindex_custom with__t2];
    (repeat apply conj; try reflexivity; try lia; apply Hne; lia).
Qed.

(** X8.  Zero hours give an empty window: [t2 = t1 - 1] and an empty custom
    index, which the offsets invariant excludes. *)
Theorem rolling_horizon_zero_hours (d : DateTimeHandler) :
  freq d ∈ valid_freqs ->
  0 <= _t1 d -> _t1 d <= len (dtindex d) ->
  result (set_rolling_horizon 0 d) = Returns tt /\
  _t2 (final (set_rolling_horizon 0 d)) = _t1 d - 1 /\
  dtindex_custom (final (set_rolling_horizon 0 d)) = [] /\
  ~ window_in_bounds (final (set_rolling_horizon 0 d)).
Proof.
  intros Hv H0 H1.
  destruct (int_from_freq_valid _ Hv) as (f & Hf & Hin).
  destruct (steps_exact 0 f Hin) as [Hex Hpos].
  assert (Hsteps : steps_for 0 f = 0) by nia.
  rewrite (set_rolling_horizon_run 0 d f Hf), Hsteps.
  pose proof (len_nonneg (dtindex d)).
  destruct (Z.ltb_spec (len (dtindex d)) 0); [lia |].
  rewrite Z.min_l by lia.
  cbn [result final logged rolled dtindex dtindex_custom _t1 _t2
       with_dtindex_custom with__t2].
  repeat apply conj.
  - reflexivity.
  - lia.
  - replace (_t1 d + 0 - 1 + 1) with (_t1 d) by lia.
    apply length_zero_iff_nil.
    pose proof (len_slice_inside (dtindex d) (_t1 d) (_t1 d) H0 (Z.le_refl _) H1) as Hl.
    unfold len in Hl at 1. lia.
  - unfold window_in_bounds.
    cbn [rolled dtindex dtindex_custom _t1 _t2 with_dtindex_custom with__t2]. lia.
Qed.

(** X9.  For a frequency the constructor accepts, [steps_per_day] returns
    the number of steps of [24 * 60] minutes, which is the number of
    steps of a 24-hour rolling horizon; [is_high_resolution] holds
    exactly when a day has more than 24 steps, and [freq_unit] is ["h"]
    exactly when it has 24. *)
Theorem steps_per_day_minutes (d : DateTimeHandler) :
  freq d ∈ valid_freqs ->
  exists n f,
    int_from_freq (freq d) = Some f /\
    steps_per_day d = Run (Returns n) d [] /\
    n * f = 24 * 60 /\
    n = steps_for 24 f /\
    (is_high_resolution d = true <-> 24 < n) /\
    (freq_unit d = "h" <-> n = 24).
Proof.
  unfold valid_freqs. rewrite !elem_of_cons, elem_of_nil.
  intros [Hv | [Hv | [Hv | [Hv | [Hv | []]]]]];
    [exists 1440, 1 | exists 288, 5 | exists 96, 15 | exists 48, 30 | exists 24, 60];
    unfold steps_per_day, is_high_resolution, freq_unit, steps_for,
      bind, get, unwrap, ret;
    cbn [result final logged]; rewrite Hv;
    (split; [reflexivity |]); (split; [reflexivity |]);
    (split; [reflexivity |]); (split; [reflexivity |]);
    vm_compute;
    (split; split; intros Hx; first [reflexivity | discriminate Hx]).
Qed.

End HandlerFacts.

Section HandlerExamples.
#[local] Existing Instance Demo.opaque.
#[local] Existing Instance Demo.library.

Lemma len_handler2019 : len (dtindex Demo.handler2019) = 8760.
Proof. exact len_index2019. Qed.

Lemma handler2019_valid : freq Demo.handler2019 ∈ valid_freqs.
Proof.
  change (freq Demo.handler2019) with "60min".
  unfold valid_freqs. rewrite !elem_of_cons. auto 10.
Qed.

Lemma timeslice_period_2019 :
  get_loc (dtindex Demo.cs2019) (date_key Demo.cs2019 "01-01") = Some (LocSlice 0 24) /\
  result (timeslice (Some "01-01") (Some "01-01") Demo.cs2019)
    = Returns (Some 0, Some 24) /\
  len (slice_open (dtindex Demo.cs2019) (Some 0) (Some 24)) = 24 /\
  len (dtindex_custom
         (final (set_time_horizon (PStr "01-01") None (Some (PStr "01-01")) Demo.cs2019)))
    = 25.
Proof.
  assert (He : get_loc (dtindex Demo.cs2019) (date_key Demo.cs2019 "01-01")
               = Some (LocSlice 0 24)) by reflexivity.
  split; [exact He |].
  destruct (timeslice_period Demo.cs2019 "01-01" "01-01" 0 24 0 24 He He)
    as (Hts & Hlen & _ & Hwin & _); [lia | lia | rewrite len_index2019; lia |].
  split; [rewrite Hts; reflexivity |]. split; [exact Hlen | exact Hwin].
Defined.

Lemma match_dtindex_aligned_2019 :
  window_in_bounds (rolled Demo.handler2019 23) /\
  exists v,
    result (match_dtindex (fun _ data => data) (dtindex Demo.handler2019) false
              (rolled Demo.handler2019 23)) = Returns v /\
    len v = 24 /\
    zip (dtindex_custom (rolled Demo.handler2019 23)) v
      = slice (zip (dtindex Demo.handler2019) (dtindex Demo.handler2019)) 0 24.
Proof.
  assert (Hb : window_in_bounds (rolled Demo.handler2019 23)).
  { unfold window_in_bounds.
    change (_t1 (rolled Demo.handler2019 23)) with 0.
    change (_t2 (rolled Demo.handler2019 23)) with 23.
    change (dtindex (rolled Demo.handler2019 23)) with (dtindex Demo.handler2019).
    rewrite len_handler2019. lia. }
  split; [exact Hb |].
  assert (Hc : dtindex_custom (rolled Demo.handler2019 23)
               = slice (dtindex (rolled Demo.handler2019 23))
                   (_t1 (rolled Demo.handler2019 23))
                   (_t2 (rolled Demo.handler2019 23) + 1)).
  { unfold rolled. cbn [dtindex dtindex_custom _t1 _t2 with_dtindex_custom with__t2].
    reflexivity. }
  assert (Hl : length (dtindex Demo.handler2019)
               = length (dtindex (rolled Demo.handler2019 23))).
  { unfold rolled. cbn [dtindex with_dtindex_custom with__t2]. reflexivity. }
  destruct (match_dtindex_aligned (fun _ data => data) (rolled Demo.handler2019 23)
              (dtindex Demo.handler2019) Hb Hc Hl)
    as (v & Hrun & _ & Hlen & Hzip & _).
  exists v. split; [rewrite Hrun; reflexivity |]. split; [exact Hlen | exact Hzip].
Defined.

Lemma rolling_horizon_fits_2019 :
  int_from_freq (freq Demo.handler2019) = Some 60 /\
  result (set_rolling_horizon 6 Demo.handler2019) = Returns tt /\
  logged (set_rolling_horizon 6 Demo.handler2019) = [] /\
  len (dtindex_custom (final (set_rolling_horizon 6 Demo.handler2019))) = 6.
Proof.
  split; [reflexivity |].
  destruct (rolling_horizon_fits 6 Demo.handler2019 60 eq_refl)
    as (Hrun & _ & Hlen & _).
  - change (_t1 Demo.handler2019) with 0. lia.
  - lia.
  - change (_t1 Demo.handler2019) with 0. change (steps_for 6 60) with 6.
    rewrite len_handler2019. lia.
  - change (steps_for 6 60) with 6 in Hlen.
    split; [rewrite Hrun; reflexivity |]. split; [rewrite Hrun; reflexivity |].
    exact Hlen.
Defined.

Lemma rolling_horizon_clipped_silently_2019 :
  int_from_freq (freq (with__t1 8750 Demo.handler2019)) = Some 60 /\
  exact_horizon 24 /\
  logged (set_rolling_horizon 24 (with__t1 8750 Demo.handler2019)) = [] /\
  _t2 (final (set_rolling_horizon 24 (with__t1 8750 Demo.handler2019))) = 8759 /\
  len (dtindex_custom (final (set_rolling_horizon 24 (with__t1 8750 Demo.handler2019))))
    = 10.
Proof.
  assert (Hh : exact_horizon 24) by (unfold exact_horizon; lia).
  split; [reflexivity |]. split; [exact Hh |].
  destruct (rolling_horizon_clipped_silently 24 (with__t1 8750 Demo.handler2019) 60 eq_refl
              Hh) as (_ & Hclip).
  change (_t1 (with__t1 8750 Demo.handler2019)) with 8750 in Hclip.
  change (dtindex (with__t1 8750 Demo.handler2019)) with (dtindex Demo.handler2019) in Hclip.
  change (steps_for 24 60) with 24 in Hclip.
  rewrite len_handler2019 in Hclip.
  destruct Hclip as (Hlog & Ht2 & Hlen); try lia.
  split; [exact Hlog |]. split; [exact Ht2 | exact Hlen].
Defined.

Lemma rolling_horizon_in_bounds_2019 :
  freq Demo.handler2019 ∈ valid_freqs /\
  exact_horizon 9000 /\
  window_in_bounds (final (set_rolling_horizon 9000 Demo.handler2019)).
Proof.
  assert (Hh : exact_horizon 9000) by (unfold exact_horizon; lia).
  split; [exact handler2019_valid |]. split; [exact Hh |].
  destruct (rolling_horizon_in_bounds 9000 Demo.handler2019 handler2019_valid)
    as (_ & Hb & _); try exact Hb; try exact Hh.
  all: change (_t1 Demo.handler2019) with 0; try rewrite len_handler2019; lia.
Defined.

Lemma rolling_horizon_zero_hours_2019 :
  freq Demo.handler2019 ∈ valid_freqs /\
  dtindex_custom (final (set_rolling_horizon 0 Demo.handler2019)) = [] /\
  _t2 (final (set_rolling_horizon 0 Demo.handler2019)) = -1.
Proof.
  split; [exact handler2019_valid |].
  destruct (rolling_horizon_zero_hours Demo.handler2019 handler2019_valid)
    as (_ & Ht2 & Hc & _).
  - change (_t1 Demo.handler2019) with 0. lia.
  - change (_t1 Demo.handler2019) with 0. rewrite len_handler2019. lia.
  - split; [exact Hc | exact Ht2].
Defined.

Lemma steps_per_day_minutes_2019 :
  freq Demo.handler2019 ∈ valid_freqs /\
  result (steps_per_day Demo.handler2019) = Returns 24.
Proof.
  split; [exact handler2019_valid |].
  destruct (steps_per_day_minutes Demo.handler2019 handler2019_valid)
    as (n & f & Hf & Hrun & Hn & _).
  rewrite Hrun. cbn [result].
  change (int_from_freq (freq Demo.handler2019)) with (Some 60) in Hf.
  injection Hf as <-. f_equal. lia.
Defined.

End HandlerExamples.

(** ** More on [add_scen] *)

Section DictFacts.
Context {V : Type}.
Implicit Types d : list (string * V).

Lemma dict_get_None d k : Dict.get d k = None <-> k ∉ Dict.keys d.
Proof.
  unfold Dict.keys. induction d as [| [k' v'] d IH]; cbn.
  - split; [intros _; apply not_elem_of_nil | reflexivity].
  - rewrite not_elem_of_cons. destruct (decide (k' = k)) as [-> | Hne].
    + split; [discriminate | intros [Hk _]; congruence].
    + rewrite IH. split; [intros Hk; split; [congruence | exact Hk] | intros [_ Hk]; exact Hk].
Qed.

Lemma dict_get_Some_elem d k v : Dict.get d k = Some v -> (k, v) ∈ d.
Proof.
  induction d as [| [k' v'] d IH]; cbn; [discriminate |].
  destruct (decide (k' = k)) as [-> | Hne].
  - intros [= ->]. apply list_elem_of_here.
  - intros Hd. apply list_elem_of_further, IH, Hd.
Qed.

Lemma dict_elem_get d k v : NoDup (Dict.keys d) -> (k, v) ∈ d -> Dict.get d k = Some v.
Proof.
  unfold Dict.keys. induction d as [| [k' v'] d IH]; cbn; intros Hnd Hin.
  - apply elem_of_nil in Hin. destruct Hin.
  - apply NoDup_cons in Hnd as [Hk' Hnd].
    apply elem_of_cons in Hin as [[= -> ->] | Hin].
    + rewrite decide_True by reflexivity. reflexivity.
    + destruct (decide (k' = k)) as [-> | Hne]; [| apply IH; assumption].
      exfalso. apply Hk'. apply (list_elem_of_fmap_2 fst) in Hin. exact Hin.
Qed.

Lemma dict_set_NoDup d k v : NoDup (Dict.keys d) -> NoDup (Dict.keys (Dict.set d k v)).
Proof.
  intros Hnd. destruct (Dict.get d k) as [old |] eqn:Hk.
  - rewrite (dict_keys_set_present d k v old Hk). exact Hnd.
  - rewrite (dict_keys_set_absent d k v Hk).
    apply NoDup_app. split; [exact Hnd |]. split.
    + intros x Hx Hx'. apply list_elem_of_singleton in Hx'. subst x.
      apply dict_get_None in Hk. contradiction.
    + apply NoDup_singleton.
Qed.

Lemma dict_keys_del d k : Dict.keys (Dict.del d k) ⊆ Dict.keys d.
Proof.
  unfold Dict.keys. induction d as [| [k' v'] d IH]; cbn; [reflexivity |].
  destruct (decide (k' = k)); cbn.
  - intros x Hx. apply list_elem_of_further, Hx.
  - intros x Hx. apply elem_of_cons in Hx as [-> | Hx].
    + apply list_elem_of_here.
    + apply list_elem_of_further, IH, Hx.
Qed.

Lemma dict_del_NoDup d k : NoDup (Dict.keys d) -> NoDup (Dict.keys (Dict.del d k)).
Proof.
  unfold Dict.keys. induction d as [| [k' v'] d IH]; cbn; intros Hnd; [exact Hnd |].
  apply NoDup_cons in Hnd as [Hk' Hnd].
  destruct (decide (k' = k)); cbn; [exact Hnd |].
  apply NoDup_cons. split; [| apply IH, Hnd].
  intros Hin. apply Hk'. apply (dict_keys_del d k), Hin.
Qed.

Lemma dict_get_del d k : NoDup (Dict.keys d) -> Dict.get (Dict.del d k) k = None.
Proof.
  unfold Dict.keys. induction d as [| [k' v'] d IH]; cbn; intros Hnd; [reflexivity |].
  apply NoDup_cons in Hnd as [Hk' Hnd].
  destruct (decide (k' = k)) as [-> | Hne]; cbn.
  - apply dict_get_None. exact Hk'.
  - rewrite decide_False by exact Hne. apply IH, Hnd.
Qed.

Lemma dict_get_del_ne d k k' : k <> k' -> Dict.get (Dict.del d k) k' = Dict.get d k'.
Proof.
  intros Hne. induction d as [| [k0 v0] d IH]; cbn; [reflexivity |].
  destruct (decide (k0 = k)) as [-> | Hne0]; cbn.
  - rewrite decide_False by exact Hne. reflexivity.
  - destruct (decide (k0 = k')); [reflexivity | exact IH].
Qed.

Lemma dict_get_Some_del d k k' v : Dict.get (Dict.del d k) k' = Some v ->
  NoDup (Dict.keys d) -> Dict.get d k' = Some v.
Proof.
  intros Hd Hnd. destruct (decide (k = k')) as [-> | Hne].
  - rewrite dict_get_del in Hd by exact Hnd. discriminate.
  - rewrite dict_get_del_ne in Hd by exact Hne. exact Hd.
Qed.

End DictFacts.

Section HoareRules.
Context {S : Type}.

Lemma hoare_conseq {A} (P P' : S -> Prop) (c : M S A) (Q Q' : A -> S -> Prop)
    (E E' : exn -> S -> Prop) :
  hoare P' c Q' E' ->
  (forall s, P s -> P' s) ->
  (forall a s, Q' a s -> Q a s) ->
  (forall e s, E' e s -> E e s) ->
  hoare P c Q E.
Proof.
  intros Hc HP HQ HE s Hs. specialize (Hc s (HP s Hs)).
  destruct (c s) as [[a | e] s' l]; auto.
Qed.

Lemma hoare_bind {A B} (P : S -> Prop) (c : M S A) (k : A -> M S B)
    (R : A -> S -> Prop) (Q : B -> S -> Prop) (E : exn -> S -> Prop) :
  hoare P c R E ->
  (forall a, hoare (R a) (k a) Q E) ->
  hoare P (bind c k) Q E.
Proof.
  intros Hc Hk s Hs. specialize (Hc s Hs). unfold bind.
  destruct (c s) as [[a | e] s1 l1]; [| exact Hc].
  specialize (Hk a s1 Hc). destruct (k a s1) as [[b | e] s2 l2]; exact Hk.
Qed.

Lemma hoare_ret {A} (P : S -> Prop) (a : A) (E : exn -> S -> Prop) :
  hoare P (ret a) (fun a' s => a' = a /\ P s) E.
Proof. intros s Hs. cbn. auto. Qed.

Lemma hoare_raise {A} (P : S -> Prop) (e : exn) (Q : A -> S -> Prop) :
  hoare P (raise e) Q (fun _ s => P s).
Proof. intros s Hs. exact Hs. Qed.

Lemma hoare_get (P : S -> Prop) (E : exn -> S -> Prop) :
  hoare P get (fun a s => a = s /\ P s) E.
Proof. intros s Hs. cbn. auto. Qed.

Lemma hoare_modify (P : S -> Prop) (f : S -> S) (E : exn -> S -> Prop) :
  hoare P (modify f) (fun _ s => exists s0, P s0 /\ s = f s0) E.
Proof. intros s Hs. cbn. eauto. Qed.

Lemma hoare_unwrap {A} (P : S -> Prop) (o : option A) (e : exn) :
  hoare P (unwrap o e) (fun a s => o = Some a /\ P s) (fun _ s => P s).
Proof. intros s Hs. destruct o; cbn; auto. Qed.

Lemma hoare_lift {A} (P : S -> Prop) (o : outcome A) :
  hoare P (lift o) (fun a s => o = Returns a /\ P s) (fun _ s => P s).
Proof. intros s Hs. destruct o; cbn; auto. Qed.

Lemma hoare_for_each {A} (I : S -> Prop) (l : list A) (body : A -> M S unit)
    (E : exn -> S -> Prop) :
  (forall x, x ∈ l -> hoare I (body x) (fun _ => I) E) ->
  hoare I (for_each l body) (fun _ => I) E.
Proof.
  induction l as [| x l IH]; intros Hbody.
  - intros s Hs. exact Hs.
  - cbn [for_each]. apply (hoare_bind _ _ _ (fun _ => I)).
    + apply Hbody, list_elem_of_here.
    + intros _. apply IH. intros y Hy. apply Hbody, list_elem_of_further, Hy.
Qed.

Lemma hoare_for_acc {A B} (I : S -> Prop) (l : list A) (acc : B)
    (body : A -> B -> M S B) (E : exn -> S -> Prop) :
  (forall x b, x ∈ l -> hoare I (body x b) (fun _ => I) E) ->
  hoare I (for_acc l acc body) (fun _ => I) E.
Proof.
  revert acc. induction l as [| x l IH]; intros acc Hbody.
  - intros s Hs. exact Hs.
  - cbn [for_acc]. apply (hoare_bind _ _ _ (fun _ => I)).
    + apply Hbody, list_elem_of_here.
    + intros b. apply IH. intros y b' Hy. apply Hbody, list_elem_of_further, Hy.
Qed.

(** A method kept by an invariant that it keeps either way. *)
Lemma hoare_final {A} (I : S -> Prop) (c : M S A) :
  hoare I c (fun _ => I) (fun _ => I) -> forall s, I s -> I (final (c s)).
Proof.
  intros Hc s Hs. specialize (Hc s Hs). destruct (c s) as [[a | e] s' l]; exact Hc.
Qed.

End HoareRules.

Section MoreAddScenFacts.
Context {opq : Opaque} {lib : Library}.

Ltac world_simpl :=
  unfold call_update_params, getattr_scens, setattr_scens, delattr_scens, _special_copy,
    new_object, read_object, update_object, lift,
    bind, ret, raise, get, gets, modify, unwrap;
  cbn [result final logged fst snd self heap with_self with_heap app].

(** The ways [add_scen] fails before it has touched anything. *)
Lemma add_scen_no_last (w : World) id_ name_ doc_ based_on comps cm ud :
  getitem (Dict.keys (scens (self w))) (-1) = None ->
  add_scen id_ name_ doc_ based_on true comps cm ud w = Run (Raises IndexError) w [].
Proof.
  intros Hempty. unfold add_scen, scens_ids, scens_dic. world_simpl.
  rewrite Hempty. reflexivity.
Qed.

Lemma add_scen_components_with_base (w : World) id_ name_ doc_ based_on last b c cm ud :
  effective_base (self w) based_on last = Some b ->
  add_scen id_ name_ doc_ based_on last (Some c) cm ud w
    = Run (Raises (RuntimeError "Components can only be set if based_on='None'")) w [].
Proof.
  intros Heff. unfold add_scen, effective_base, scens_ids, scens_dic in *.
  destruct last; world_simpl.
  - rewrite Heff. world_simpl. destruct id_; reflexivity.
  - subst based_on. destruct id_; reflexivity.
Qed.

Lemma add_scen_unknown_base (w : World) id_ name_ doc_ based_on last b cm ud :
  effective_base (self w) based_on last = Some b ->
  Dict.get (scens (self w)) b = None ->
  add_scen id_ name_ doc_ based_on last None cm ud w
    = Run (Raises (AttributeError b)) w [].
Proof.
  intros Heff Hb. unfold add_scen, effective_base, scens_ids, scens_dic in *.
  destruct last; world_simpl.
  - rewrite Heff. world_simpl. destruct id_; world_simpl; rewrite Hb; reflexivity.
  - subst based_on. destruct id_; world_simpl; rewrite Hb; reflexivity.
Qed.

Lemma add_scen_dangling_base (w : World) id_ name_ doc_ based_on last b rb cm ud :
  effective_base (self w) based_on last = Some b ->
  Dict.get (scens (self w)) b = Some rb ->
  heap w !! rb = None ->
  add_scen id_ name_ doc_ based_on last None cm ud w
    = Run (Raises (AttributeError "")) w [].
Proof.
  intros Heff Hb Hrb. unfold add_scen, effective_base, scens_ids, scens_dic in *.
  destruct last; world_simpl.
  - rewrite Heff. world_simpl.
    destruct id_; world_simpl; rewrite Hb; world_simpl; rewrite Hrb; reflexivity.
  - subst based_on.
    destruct id_; world_simpl; rewrite Hb; world_simpl; rewrite Hrb; reflexivity.
Qed.

(** Every run of [add_scen]: it raises and leaves the world as it was,
    or it returns a new object, appended to the heap and bound to the
    chosen id. *)
Lemma add_scen_run_cases (w : World) id_ name_ doc_ based_on last comps cm ud :
  (exists e, add_scen id_ name_ doc_ based_on last comps cm ud w = Run (Raises e) w []) \/
  (exists h sc,
     add_scen id_ name_ doc_ based_on last comps cm ud w
       = Run (Returns (length (heap w)))
           {| self := with_scens
                        (Dict.set (scens (self w)) (chosen_id (self w) id_)
                           (length (heap w)))
                        (self w);
              heap := h ++ [sc] |} [] /\
     length h = length (heap w) /\
     (forall r x, heap w !! r = Some x ->
        exists x', h !! r = Some x' /\ kept_or_cleared x x')).
Proof.
  destruct (effective_base (self w) based_on last) as [b |] eqn:Heff.
  - destruct comps as [c |].
    { left. eexists.
      apply (add_scen_components_with_base w id_ name_ doc_ based_on last b c cm ud Heff). }
    destruct (Dict.get (scens (self w)) b) as [rb |] eqn:Hb.
    2:{ left. eexists.
        apply (add_scen_unknown_base w id_ name_ doc_ based_on last b cm ud Heff Hb). }
    destruct (heap w !! rb) as [base |] eqn:Hbase.
    2:{ left. eexists.
        apply (add_scen_dangling_base w id_ name_ doc_ based_on last b rb cm ud
                 Heff Hb Hbase). }
    right. eexists _, _. split; [| split].
    + apply (add_scen_derived_run_from w id_ name_ doc_ based_on last b cm ud rb base
               Heff Hb Hbase).
    + apply length_insert.
    + intros r x Hx. destruct (decide (r = rb)) as [Heq | Hne].
      * subst r. pose proof (eq_trans (eq_sym Hbase) Hx) as Hxb. injection Hxb as <-.
        exists (visited_base base). split.
        -- apply list_lookup_insert_eq. apply (lookup_lt_Some _ _ _ Hbase).
        -- unfold visited_base, kept_or_cleared.
           destruct (has_res base); [right; split; reflexivity | left; reflexivity].
      * exists x. split; [| left; reflexivity].
        rewrite list_lookup_insert_ne by congruence. exact Hx.
  - unfold effective_base in Heff. destruct last.
    + left. eexists.
      apply (add_scen_no_last w id_ name_ doc_ based_on comps cm ud Heff).
    + subst based_on. rewrite (add_scen_scratch_run w id_ name_ doc_ comps cm ud).
      destruct (Scenario_init _) as [s | e].
      * right. exists (heap w), s. split; [reflexivity |]. split; [reflexivity |].
        intros r x Hx. exists x. split; [exact Hx | left; reflexivity].
      * left. exists e. reflexivity.
Qed.

(** X10.  Whenever [add_scen] raises, the case study and every scenario are
    as they were before the call: no scenario was added, no id was
    bound and the base was not visited. *)
Theorem add_scen_failure_is_clean (w : World) (id_ : option string)
    (name_ doc_ : string) (based_on : option string) (based_on_last : bool)
    (comps : option (list Component)) (cm : option Callable) (ud : option Dims)
    (e : exn) :
  result (add_scen id_ name_ doc_ based_on based_on_last comps cm ud w) = Raises e ->
  final (add_scen id_ name_ doc_ based_on based_on_last comps cm ud w) = w /\
  logged (add_scen id_ name_ doc_ based_on based_on_last comps cm ud w) = [].
Proof.
  intros Hr.
  destruct (add_scen_run_cases w id_ name_ doc_ based_on based_on_last comps cm ud)
    as [[e' Hrun] | (h & sc & Hrun & _)]; rewrite Hrun in *.
  - split; reflexivity.
  - discriminate.
Qed.

(** X11.  The three errors of the derivation path, in the order the code
    meets them: [based_on_last] on an empty collection raises
    [IndexError]; components given together with a base raise
    [RuntimeError], whether or not the base exists; a base id that is
    not in the collection raises [AttributeError] with that id. *)
Theorem add_scen_derivation_errors (w : World) (id_ : option string)
    (name_ doc_ : string) (based_on : option string) (based_on_last : bool)
    (cm : option Callable) (ud : option Dims) :
  (scens (self w) = [] ->
   forall comps,
     result (add_scen id_ name_ doc_ based_on true comps cm ud w) = Raises IndexError) /\
  (forall b c,
     effective_base (self w) based_on based_on_last = Some b ->
     result (add_scen id_ name_ doc_ based_on based_on_last (Some c) cm ud w)
       = Raises (RuntimeError "Components can only be set if based_on='None'")) /\
  (forall b,
     effective_base (self w) based_on based_on_last = Some b ->
     Dict.get (scens (self w)) b = None ->
     result (add_scen id_ name_ doc_ based_on based_on_last None cm ud w)
       = Raises (AttributeError b)).
Proof.
  repeat apply conj.
  - intros Hempty comps.
    rewrite (add_scen_no_last w id_ name_ doc_ based_on comps cm ud).
    + reflexivity.
    + rewrite Hempty. reflexivity.
  - intros b c Heff.
    rewrite (add_scen_components_with_base w id_ name_ doc_ based_on based_on_last
               b c cm ud Heff). reflexivity.
  - intros b Heff Hb.
    rewrite (add_scen_unknown_base w id_ name_ doc_ based_on based_on_last b cm ud
               Heff Hb). reflexivity.
Qed.

(** X12.  What a successful [add_scen] changes and what it leaves alone.  The
    new scenario is a new object, bound to the chosen id; every other
    id keeps its scenario; the time window of the case study is not
    touched; and every scenario that existed before still exists with
    its labels, parameters, variables and results, its collectors being
    either as they were or all emptied. *)
Theorem add_scen_success_frame (w : World) (id_ : option string)
    (name_ doc_ : string) (based_on : option string) (based_on_last : bool)
    (comps : option (list Component)) (cm : option Callable) (ud : option Dims)
    (new : ref) :
  result (add_scen id_ name_ doc_ based_on based_on_last comps cm ud w) = Returns new ->
  let w' := final (add_scen id_ name_ doc_ based_on based_on_last comps cm ud w) in
  heap w !! new = None /\
  is_Some (heap w' !! new) /\
  Dict.get (scens (self w')) (chosen_id (self w) id_) = Some new /\
  (forall k, k <> chosen_id (self w) id_ ->
     Dict.get (scens (self w')) k = Dict.get (scens (self w)) k) /\
  dth (self w') = dth (self w) /\
  (forall r x, heap w !! r = Some x ->
     exists x', heap w' !! r = Some x' /\
       id x' = id x /\ name x' = name x /\ doc x' = doc x /\
       custom_model x' = custom_model x /\ params x' = params x /\
       vars x' = vars x /\ res x' = res x /\
       (collectors x' = collectors x \/ collectors_empty x')).
Proof.
  intros Hr w'. subst w'.
  destruct (add_scen_run_cases w id_ name_ doc_ based_on based_on_last comps cm ud)
    as [[e' Hrun] | (h & sc & Hrun & Hlen & Hframe)]; rewrite Hrun in *;
    [discriminate |].
  cbn [result final self heap scens with_scens dth] in *. injection Hr as <-.
  repeat apply conj.
  - apply lookup_ge_None. lia.
  - exists sc. apply list_lookup_middle. symmetry. exact Hlen.
  - apply dict_get_set.
  - intros k Hk. apply dict_get_set_ne. congruence.
  - reflexivity.
  - intros r x Hx. destruct (Hframe r x Hx) as (x' & Hx' & Hk).
    exists x'. split.
    + rewrite lookup_app_l by (rewrite Hlen; apply (lookup_lt_Some _ _ _ Hx)). exact Hx'.
    + destruct Hk as [-> | [-> _]].
      * repeat split; try reflexivity. left. reflexivity.
      * repeat split; try reflexivity. right. apply clear_collectors_empty.
Qed.

(** [add_scen] keeps the scenario collection well-formed, whether it
    returns or raises, and what it returns exists. *)
Lemma add_scen_store_ok id_ name_ doc_ based_on last comps cm ud :
  hoare store_ok (add_scen id_ name_ doc_ based_on last comps cm ud)
    (fun r w => store_ok w /\ is_Some (heap w !! r)) (fun _ => store_ok).
Proof.
  intros w [Hnd Hval].
  destruct (add_scen_run_cases w id_ name_ doc_ based_on last comps cm ud)
    as [[e' Hrun] | (h & sc & Hrun & Hlen & Hframe)]; rewrite Hrun.
  - split; assumption.
  - assert (Hnew : (h ++ [sc]) !! length (heap w) = Some sc)
      by (apply list_lookup_middle; symmetry; exact Hlen).
    split; [split |]; cbn [self heap scens with_scens].
    + apply dict_set_NoDup, Hnd.
    + intros k r Hk.
      destruct (decide (chosen_id (self w) id_ = k)) as [<- | Hne].
      * rewrite dict_get_set in Hk. injection Hk as <-. exists sc. exact Hnew.
      * rewrite dict_get_set_ne in Hk by exact Hne.
        destruct (Hval k r Hk) as [x Hx]. destruct (Hframe r x Hx) as (x' & Hx' & _).
        exists x'. rewrite lookup_app_l by (rewrite Hlen; apply (lookup_lt_Some _ _ _ Hx)).
        exact Hx'.
    + exists sc. exact Hnew.
Qed.

End MoreAddScenFacts.

Section MoreAddScenExamples.
#[local] Existing Instance Demo.opaque.
#[local] Existing Instance Demo.library.

Lemma add_scen_failure_is_clean_study :
  result (add_scen (Some "pv") "more PV" "" (Some "BASE") false None None None Demo.study)
    = Raises (AttributeError "BASE") /\
  final (add_scen (Some "pv") "more PV" "" (Some "BASE") false None None None Demo.study)
    = Demo.study.
Proof.
  assert (Hr : result (add_scen (Some "pv") "more PV" "" (Some "BASE") false None None None
                         Demo.study) = Raises (AttributeError "BASE")) by reflexivity.
  split; [exact Hr |].
  destruct (add_scen_failure_is_clean Demo.study (Some "pv") "more PV" "" (Some "BASE")
              false None None None (AttributeError "BASE") Hr) as [Hf _].
  exact Hf.
Defined.

Lemma add_scen_derivation_errors_2019 :
  scens Demo.cs2019 = [] /\
  result (add_scen None "" "" (Some "REF") true None None None
            {| self := Demo.cs2019; heap := [] |}) = Raises IndexError /\
  result (add_scen None "" "" (Some "REF") false (Some []) None None
            {| self := Demo.cs2019; heap := [] |})
    = Raises (RuntimeError "Components can only be set if based_on='None'") /\
  result (add_scen None "" "" (Some "REF") false None None None
            {| self := Demo.cs2019; heap := [] |}) = Raises (AttributeError "REF").
Proof.
  destruct (add_scen_derivation_errors {| self := Demo.cs2019; heap := [] |} None "" ""
              (Some "REF") false None None) as (H1 & H2 & H3).
  split; [reflexivity |]. split; [| split].
  - apply (H1 eq_refl None).
  - apply (H2 "REF" [] eq_refl).
  - apply (H3 "REF" eq_refl eq_refl).
Defined.

Lemma add_scen_success_frame_study :
  result (add_scen (Some "pv") "more PV" "" (Some "REF") false None None None Demo.study)
    = Returns 1%nat /\
  Dict.get
    (scens (self (final (add_scen (Some "pv") "more PV" "" (Some "REF") false None None
                           None Demo.study)))) "pv" = Some 1%nat /\
  Dict.get
    (scens (self (final (add_scen (Some "pv") "more PV" "" (Some "REF") false None None
                           None Demo.study)))) "REF" = Some 0%nat.
Proof.
  assert (Hr : result (add_scen (Some "pv") "more PV" "" (Some "REF") false None None None
                         Demo.study) = Returns 1%nat).
  { rewrite (add_scen_derived_run Demo.study (Some "pv") "more PV" "" "REF" None None
               0%nat Demo.solved_REF study_REF study_heap). reflexivity. }
  split; [exact Hr |].
  destruct (add_scen_success_frame Demo.study (Some "pv") "more PV" "" (Some "REF") false
              None None None 1%nat Hr) as (_ & _ & Hnew & Hother & _).
  split; [exact Hnew |].
  rewrite (Hother "REF") by discriminate. reflexivity.
Defined.

End MoreAddScenExamples.

(** ** Looking scenarios up *)

Section LookupFacts.
Context {opq : Opaque} {lib : Library}.

Ltac world_simpl :=
  unfold getattr_scens, setattr_scens, delattr_scens, _special_copy,
    new_object, read_object, update_object, lift,
    bind, ret, raise, get, gets, modify, unwrap;
  cbn [result final logged fst snd self heap with_self with_heap app].

Lemma getattr_scens_run (w : World) k r :
  Dict.get (scens (self w)) k = Some r ->
  is_Some (heap w !! r) ->
  getattr_scens k w = Run (Returns r) w [].
Proof.
  intros Hk [x Hx]. world_simpl. rewrite Hk. world_simpl. rewrite Hx. reflexivity.
Qed.

Lemma getattr_scens_missing (w : World) k :
  Dict.get (scens (self w)) k = None ->
  getattr_scens k w = Run (Raises (AttributeError k)) w [].
Proof. intros Hk. world_simpl. rewrite Hk. reflexivity. Qed.

Lemma REF_scen_bound (w : World) r :
  Dict.get (scens (self w)) "REF" = Some r ->
  is_Some (heap w !! r) ->
  REF_scen w = Run (Returns r) w [].
Proof.
  intros Hk Hr. unfold REF_scen, try_except.
  rewrite (getattr_scens_run w "REF" r Hk Hr). reflexivity.
Qed.

Lemma REF_scen_unbound (w : World) :
  Dict.get (scens (self w)) "REF" = None ->
  REF_scen w = any_scen w.
Proof.
  intros Hk. unfold REF_scen, try_except, any_scen.
  rewrite (getattr_scens_missing w "REF" Hk). cbn [is_AttributeError].
  destruct (bind get _ w) as [o s l]. reflexivity.
Qed.

(** X13.  [REF_scen] finds the reference scenario wherever it stands in the
    collection; without one it is [any_scen], the scenario added first;
    on an empty collection both raise [IndexError].  None of this
    changes the case study. *)
Theorem REF_scen_lookup (w : World) :
  store_ok w ->
  (forall r, Dict.get (scens (self w)) "REF" = Some r ->
     REF_scen w = Run (Returns r) w []) /\
  (forall k r rest, scens (self w) = (k, r) :: rest ->
     Dict.get (scens (self w)) "REF" = None ->
     REF_scen w = Run (Returns r) w [] /\ any_scen w = Run (Returns r) w []) /\
  (scens (self w) = [] ->
     REF_scen w = Run (Raises IndexError) w [] /\
     any_scen w = Run (Raises IndexError) w []).
Proof.
  intros [_ Hval]. repeat apply conj.
  - intros r Hk. apply (REF_scen_bound w r Hk). apply (Hval _ _ Hk).
  - intros k r rest Hs Hk. rewrite (REF_scen_unbound w Hk).
    assert (Hany : any_scen w = Run (Returns r) w []).
    { unfold any_scen, scens_list, scens_dic. world_simpl. rewrite Hs. reflexivity. }
    split; exact Hany.
  - intros Hs.
    assert (Hk : Dict.get (scens (self w)) "REF" = None) by (rewrite Hs; reflexivity).
    rewrite (REF_scen_unbound w Hk).
    assert (Hany : any_scen w = Run (Raises IndexError) w []).
    { unfold any_scen, scens_list, scens_dic. world_simpl. rewrite Hs. reflexivity. }
    split; exact Hany.
Qed.

(** X14.  After [add_REF_scen] has returned a scenario, [REF_scen] returns
    that scenario, whatever the collection held before. *)
Theorem REF_scen_after_add_REF_scen (w : World) (name_ doc_ : string)
    (comps : option (list Component)) (new : ref) :
  result (add_REF_scen name_ doc_ comps w) = Returns new ->
  result (REF_scen (final (add_REF_scen name_ doc_ comps w))) = Returns new /\
  final (REF_scen (final (add_REF_scen name_ doc_ comps w)))
    = final (add_REF_scen name_ doc_ comps w).
Proof.
  unfold add_REF_scen. intros Hr.
  destruct (add_scen_run_cases w (Some "REF") name_ doc_ None false comps None None)
    as [[e' Hrun] | (h & sc & Hrun & Hlen & _)]; rewrite Hrun in *; [discriminate |].
  cbn [result final chosen_id] in *. injection Hr as <-.
  rewrite (REF_scen_bound _ (length (heap w))).
  - split; reflexivity.
  - cbn [self scens with_scens]. apply dict_get_set.
  - cbn [heap]. exists sc. apply list_lookup_middle. symmetry. exact Hlen.
Qed.

Lemma dict_get_filter {V} (P : string * V -> Prop) `{forall p, Decision (P p)}
    (d : list (string * V)) k :
  NoDup (Dict.keys d) ->
  Dict.get (filter P d) k
    = match Dict.get d k with
      | Some v => if decide (P (k, v)) then Some v else None
      | None => None
      end.
Proof.
  unfold Dict.keys. induction d as [| [k' v'] d IH]; intros Hnd; [reflexivity |].
  cbn [fmap list_fmap fst] in Hnd. apply NoDup_cons in Hnd as [Hk' Hnd].
  rewrite filter_cons. cbn [Dict.get].
  destruct (decide (k' = k)) as [-> | Hne].
  - destruct (decide (P (k, v'))) as [HP | HP].
    + cbn [Dict.get]. rewrite decide_True by reflexivity. reflexivity.
    + apply dict_get_None. intros Hin. apply Hk'.
      apply list_elem_of_fmap in Hin as ([k0 v0] & -> & Hin).
      apply list_elem_of_filter in Hin as [_ Hin].
      apply (list_elem_of_fmap_2 fst) in Hin. exact Hin.
  - destruct (decide (P (k', v'))).
    + cbn [Dict.get]. rewrite decide_False by exact Hne. apply IH, Hnd.
    + apply IH, Hnd.
Qed.

(** X15.  Deriving a scenario changes nothing about which other scenarios
    count as valid (solved); the derived one itself is not valid, also
    when its id named a valid scenario before. *)
Theorem valid_scens_after_derivation (w : World) (id_ : option string)
    (name_ doc_ : string) (based_on : option string) (based_on_last : bool)
    (b : string) (cm : option Callable) (ud : option Dims) (new : ref) :
  store_ok w ->
  effective_base (self w) based_on based_on_last = Some b ->
  result (add_scen id_ name_ doc_ based_on based_on_last None cm ud w) = Returns new ->
  let w' := final (add_scen id_ name_ doc_ based_on based_on_last None cm ud w) in
  Dict.get (valid_scens w') (chosen_id (self w) id_) = None /\
  (forall k, k <> chosen_id (self w) id_ ->
     Dict.get (valid_scens w') k = Dict.get (valid_scens w) k).
Proof.
  intros [Hnd Hval] Heff Hr w'. subst w'.
  destruct (Dict.get (scens (self w)) b) as [rb |] eqn:Hb.
  2:{ rewrite (add_scen_unknown_base w id_ name_ doc_ based_on based_on_last b cm ud
                 Heff Hb) in Hr. discriminate. }
  destruct (Hval b rb Hb) as [base Hbase].
  rewrite (add_scen_derived_run_from w id_ name_ doc_ based_on based_on_last b cm ud
             rb base Heff Hb Hbase) in *.
  cbn [result final] in *. clear Hr.
  set (cid := chosen_id (self w) id_).
  set (d := derived base cid name_ (effective_doc b based_on_last doc_) cm).
  pose proof (lookup_lt_Some _ _ _ Hbase) as Hlt.
  unfold valid_scens, scens_dic. cbn [self scens with_scens].
  split.
  - rewrite dict_get_filter by (apply dict_set_NoDup, Hnd).
    rewrite dict_get_set. unfold object_has_res. cbn [heap snd].
    rewrite list_lookup_middle by (rewrite length_insert; reflexivity).
    unfold has_res, d. rewrite derived_res. reflexivity.
  - intros k Hk.
    rewrite !dict_get_filter by (try apply dict_set_NoDup; exact Hnd).
    rewrite dict_get_set_ne by congruence.
    destruct (Dict.get (scens (self w)) k) as [r |] eqn:Hkr; [| reflexivity].
    destruct (Hval k r Hkr) as [x Hx].
    pose proof (lookup_lt_Some _ _ _ Hx) as Hrlt.
    assert (Hsame : object_has_res
                      {| self := with_scens (Dict.set (scens (self w)) cid (length (heap w)))
                                   (self w);
                         heap := <[rb := visited_base base]> (heap w) ++ [d] |} r
                    = object_has_res w r).
    { unfold object_has_res. cbn [heap].
      rewrite lookup_app_l by (rewrite length_insert; exact Hrlt).
      destruct (decide (r = rb)) as [Heq | Hne].
      - subst r. rewrite list_lookup_insert_eq by exact Hlt. rewrite Hbase.
        unfold has_res. rewrite visited_base_res. reflexivity.
      - rewrite list_lookup_insert_ne by congruence. reflexivity. }
    cbn [snd]. destruct (decide (Is_true (object_has_res w r))) as [Hv | Hv].
    + rewrite decide_True by (rewrite Hsame; exact Hv). reflexivity.
    + rewrite decide_False by (rewrite Hsame; exact Hv). reflexivity.
Qed.

Lemma visited_base_unsolved (x : Scenario) : res x = None -> visited_base x = x.
Proof. intros Hx. unfold visited_base, has_res. rewrite Hx. reflexivity. Qed.

Lemma derived_unsolved (x : Scenario) i n d cm :
  res x = None -> derived x i n d cm = relabel i n d cm x.
Proof.
  intros Hx. unfold derived. rewrite (visited_base_unsolved x Hx).
  unfold has_res. rewrite Hx. reflexivity.
Qed.

Lemma getitem_last_snoc {A} (l : list A) (x : A) : getitem (l ++ [x]) (-1) = Some x.
Proof.
  unfold getitem, len. rewrite length_app. cbn [length].
  destruct (Z.ltb_spec (-1) 0) as [_ | Hc]; [| lia].
  destruct (Z.ltb_spec (-1 + Z.of_nat (length l + 1)) 0) as [Hc | _]; [lia |].
  replace (Z.to_nat (-1 + Z.of_nat (length l + 1))) with (length l) by lia.
  apply list_lookup_middle. reflexivity.
Qed.

(** X16.  A scenario added under a new id is the last of the collection, so
    a following call with [based_on_last] derives from it: the second
    scenario is the copy of the first, and its doc string starts with
    the first one's id. *)
Theorem add_scen_based_on_last_chain (w : World) (i1 name1 doc1 b : string)
    (id2 : option string) (name2 doc2 : string) (based_on2 : option string)
    (cm1 cm2 : option Callable) (ud1 ud2 : option Dims) (first : ref) :
  Dict.get (scens (self w)) i1 = None ->
  result (add_scen (Some i1) name1 doc1 (Some b) false None cm1 ud1 w) = Returns first ->
  let w1 := final (add_scen (Some i1) name1 doc1 (Some b) false None cm1 ud1 w) in
  exists sc1,
    heap w1 !! first = Some sc1 /\
    add_scen id2 name2 doc2 based_on2 true None cm2 ud2 w1
      = Run (Returns (length (heap w1)))
          {| self := with_scens
                       (Dict.set (scens (self w1)) (chosen_id (self w1) id2)
                          (length (heap w1)))
                       (self w1);
             heap := heap w1
                     ++ [relabel (chosen_id (self w1) id2) name2 (i1 +:+ " + " +:+ doc2)
                           cm2 sc1] |}
          [].
Proof.
  intros Hnew Hr w1. subst w1.
  destruct (Dict.get (scens (self w)) b) as [rb |] eqn:Hb.
  2:{ rewrite (add_scen_unknown_base w (Some i1) name1 doc1 (Some b) false b cm1 ud1
                 eq_refl Hb) in Hr. discriminate. }
  destruct (heap w !! rb) as [base |] eqn:Hbase.
  2:{ rewrite (add_scen_dangling_base w (Some i1) name1 doc1 (Some b) false b rb cm1 ud1
                 eq_refl Hb Hbase) in Hr. discriminate. }
  rewrite (add_scen_derived_run w (Some i1) name1 doc1 b cm1 ud1 rb base Hb Hbase) in *.
  cbn [result final chosen_id] in *. injection Hr as <-.
  set (sc1 := derived base i1 name1 doc1 cm1).
  set (h1 := <[rb := visited_base base]> (heap w) ++ [sc1]).
  set (cs1 := with_scens (Dict.set (scens (self w)) i1 (length (heap w))) (self w)).
  assert (Hsc1 : h1 !! length (heap w) = Some sc1).
  { apply list_lookup_middle. rewrite length_insert. reflexivity. }
  exists sc1. split; [exact Hsc1 |].
  rewrite (add_scen_derived_run_from {| self := cs1; heap := h1 |} id2 name2 doc2
             based_on2 true i1 cm2 ud2 (length (heap w)) sc1).
  - assert (Hres : res sc1 = None) by apply derived_res.
    rewrite (visited_base_unsolved sc1 Hres), (derived_unsolved sc1 _ _ _ _ Hres).
    rewrite list_insert_id by exact Hsc1.
    reflexivity.
  - unfold effective_base. cbn [self cs1 scens with_scens].
    rewrite (dict_keys_set_absent _ _ _ Hnew). apply getitem_last_snoc.
  - cbn [self cs1 scens with_scens]. apply dict_get_set.
  - exact Hsc1.
Qed.

End LookupFacts.

Section LookupExamples.
#[local] Existing Instance Demo.opaque.
#[local] Existing Instance Demo.library.

Lemma study_store_ok : store_ok Demo.study.
Proof.
  split.
  - cbn. apply NoDup_singleton.
  - intros k r Hk. change (scens (self Demo.study)) with [("REF", 0%nat)] in Hk.
    cbn [Dict.get] in Hk. destruct (decide ("REF" = k)); [| discriminate].
    injection Hk as <-. exists Demo.solved_REF. reflexivity.
Qed.

Lemma REF_scen_lookup_study :
  store_ok Demo.study /\ REF_scen Demo.study = Run (Returns 0%nat) Demo.study [].
Proof.
  split; [exact study_store_ok |].
  destruct (REF_scen_lookup Demo.study study_store_ok) as (H1 & _).
  apply (H1 0%nat study_REF).
Defined.

Lemma REF_scen_after_add_REF_scen_2019 :
  result (add_REF_scen "REF" "Reference scenario" None {| self := Demo.cs2019; heap := [] |})
    = Returns 0%nat /\
  result (REF_scen
            (final (add_REF_scen "REF" "Reference scenario" None
                      {| self := Demo.cs2019; heap := [] |}))) = Returns 0%nat.
Proof.
  assert (Hr : result (add_REF_scen "REF" "Reference scenario" None
                         {| self := Demo.cs2019; heap := [] |}) = Returns 0%nat)
    by reflexivity.
  split; [exact Hr |].
  destruct (REF_scen_after_add_REF_scen {| self := Demo.cs2019; heap := [] |}
              "REF" "Reference scenario" None 0%nat Hr) as [H _].
  exact H.
Defined.

Lemma add_scen_pv_returns :
  result (add_scen (Some "pv") "more PV" "" (Some "REF") false None None None Demo.study)
    = Returns 1%nat.
Proof.
  rewrite (add_scen_derived_run Demo.study (Some "pv") "more PV" "" "REF" None None
             0%nat Demo.solved_REF study_REF study_heap). reflexivity.
Qed.

Lemma valid_scens_after_derivation_study :
  Dict.get (valid_scens Demo.study) "REF" = Some 0%nat /\
  Dict.get
    (valid_scens (final (add_scen (Some "pv") "more PV" "" (Some "REF") false None None
                           None Demo.study))) "pv" = None /\
  Dict.get
    (valid_scens (final (add_scen (Some "pv") "more PV" "" (Some "REF") false None None
                           None Demo.study))) "REF" = Some 0%nat.
Proof.
  destruct (valid_scens_after_derivation Demo.study (Some "pv") "more PV" "" (Some "REF")
              false "REF" None None 1%nat study_store_ok eq_refl add_scen_pv_returns)
    as [Hnew Hother].
  split; [reflexivity |]. split; [exact Hnew |].
  rewrite (Hother "REF") by discriminate. reflexivity.
Defined.

Lemma add_scen_based_on_last_chain_study :
  Dict.get (scens (self Demo.study)) "pv" = None /\
  exists sc1,
    heap (final (add_scen (Some "pv") "more PV" "" (Some "REF") false None None None
                   Demo.study)) !! 1%nat = Some sc1 /\
    result (add_scen (Some "pv2") "still more" "10 kWp" (Some "REF") true None None None
              (final (add_scen (Some "pv") "more PV" "" (Some "REF") false None None None
                        Demo.study))) = Returns 2%nat.
Proof.
  split; [reflexivity |].
  destruct (add_scen_based_on_last_chain Demo.study "pv" "more PV" "" "REF"
              (Some "pv2") "still more" "10 kWp" (Some "REF") None None None None 1%nat
              eq_refl add_scen_pv_returns) as (sc1 & Hsc1 & Hrun).
  exists sc1. split; [exact Hsc1 |].
  rewrite Hrun. cbn [result]. f_equal.
Defined.

End LookupExamples.

(** ** Importing scenarios *)

Section ImportFacts.
Context {opq : Opaque} {lib : Library}.

Lemma with_self_same (w : World) : with_self (with_scens (scens (self w)) (self w)) w = w.
Proof. rewrite with_scens_same. destruct w; reflexivity. Qed.

(** The loop of [import_scens] over the entries [l], for a fixed
    selection [sel] of ids. *)
Lemma import_loop_run (sel : list string) (l : list (string * ref)) (w : World) :
  for_each l
    (fun p : string * ref =>
       if bool_decide (p.1 ∈ sel) then setattr_scens p.1 p.2 else ret tt) w
  = Run (Returns tt)
      (with_self
         (with_scens
            (fold_left (fun d (p : string * ref) =>
                          if bool_decide (p.1 ∈ sel) then Dict.set d p.1 p.2 else d)
               l (scens (self w)))
            (self w)) w) [].
Proof.
  revert w. induction l as [| [k r] l IH]; intros w.
  - cbn [for_each fold_left]. rewrite with_self_same. reflexivity.
  - cbn [for_each fold_left fst snd].
    destruct (bool_decide (k ∈ sel)).
    + unfold bind at 1. unfold setattr_scens at 1, modify.
      rewrite IH. reflexivity.
    + unfold bind at 1. unfold ret at 1. rewrite IH. reflexivity.
Qed.

Lemma import_fold_get (sel : string -> bool) (l : list (string * ref)) :
  forall (d : list (string * ref)) (n : string),
  NoDup (Dict.keys l) ->
  Dict.get (fold_left (fun d (p : string * ref) =>
                         if sel p.1 then Dict.set d p.1 p.2 else d) l d) n
  = if sel n then
      match Dict.get l n with
      | Some v => Some v
      | None => Dict.get d n
      end
    else Dict.get d n.
Proof.
  induction l as [| [k v] l IH]; intros d n Hnd.
  - cbn. destruct (sel n); reflexivity.
  - unfold Dict.keys in Hnd. cbn [fmap list_fmap fst] in Hnd.
    apply NoDup_cons in Hnd as [Hk Hnd].
    cbn [fold_left fst snd]. rewrite (IH _ n Hnd). cbn [Dict.get].
    destruct (decide (k = n)) as [<- | Hne].
    + assert (Hl : Dict.get l k = None) by (apply dict_get_None; exact Hk).
      rewrite Hl. destruct (sel k); [apply dict_get_set | reflexivity].
    + destruct (sel n) eqn:Hn.
      * destruct (Dict.get l n); [reflexivity |].
        destruct (sel k); [apply dict_get_set_ne; exact Hne | reflexivity].
      * destruct (sel k); [apply dict_get_set_ne; exact Hne | reflexivity].
Qed.

Lemma fold_left_pointwise {A B} (f g : A -> B -> A) (l : list B) (a : A) :
  (forall a b, f a b = g a b) -> fold_left f l a = fold_left g l a.
Proof.
  intros Hfg. revert a. induction l as [| b l IH]; intros a; [reflexivity |].
  cbn [fold_left]. rewrite Hfg. apply IH.
Qed.

Lemma imported_selected (other_cs : CaseStudy) exclude include n :
  imported other_cs exclude include n
  = bool_decide
      (n ∈ match include with
           | Some inc =>
               filter (fun n => n ∈ inc)
                 match exclude with
                 | Some ex => filter (fun n => n ∉ ex) (Dict.keys (scens other_cs))
                 | None => Dict.keys (scens other_cs)
                 end
           | None =>
               match exclude with
               | Some ex => filter (fun n => n ∉ ex) (Dict.keys (scens other_cs))
               | None => Dict.keys (scens other_cs)
               end
           end).
Proof.
  unfold imported. apply eq_true_iff_eq.
  rewrite !andb_true_iff, !bool_decide_eq_true.
  destruct include as [inc |], exclude as [ex |];
    rewrite ?list_elem_of_filter, ?bool_decide_eq_true; tauto.
Qed.

(** X17.  [import_scens] never fails and copies nothing: afterwards every
    selected id of the other case study names, in this case study, the
    very object it names there, also if the id was bound here before;
    every other id is bound as before; no scenario object is created or
    changed. *)
Theorem import_scens_shares_objects (w : World) (other_cs : CaseStudy)
    (exclude include : option (list string)) :
  NoDup (Dict.keys (scens other_cs)) ->
  result (import_scens other_cs exclude include w) = Returns tt /\
  heap (final (import_scens other_cs exclude include w)) = heap w /\
  (forall n,
     Dict.get (scens (self (final (import_scens other_cs exclude include w)))) n
     = if imported other_cs exclude include n then Dict.get (scens other_cs) n
       else Dict.get (scens (self w)) n).
Proof.
  intros Hnd. unfold import_scens. rewrite import_loop_run.
  cbn [result final heap with_self self scens with_scens].
  split; [reflexivity |]. split; [reflexivity |].
  intros n.
  rewrite (fold_left_pointwise _
             (fun d (p : string * ref) =>
                if imported other_cs exclude include p.1 then Dict.set d p.1 p.2 else d))
    by (intros d p; rewrite imported_selected; destruct include, exclude; reflexivity).
  rewrite (import_fold_get (imported other_cs exclude include)).
  - destruct (imported other_cs exclude include n) eqn:Hn; [| reflexivity].
    destruct (Dict.get (scens other_cs) n) eqn:Hget; [reflexivity |].
    unfold imported in Hn. rewrite !andb_true_iff, bool_decide_eq_true in Hn.
    destruct Hn as [[Hin _] _]. apply dict_get_None in Hget. contradiction.
  - exact Hnd.
Qed.

End ImportFacts.

Section ImportExamples.
#[local] Existing Instance Demo.opaque.
#[local] Existing Instance Demo.library.

Lemma import_scens_shares_objects_study :
  NoDup (Dict.keys (scens (with_scens [("REF", 0%nat); ("old", 0%nat)] Demo.cs2019))) /\
  Dict.get
    (scens (self (final (import_scens
                           (with_scens [("REF", 0%nat); ("old", 0%nat)] Demo.cs2019)
                           (Some ["REF"]) None Demo.study)))) "old" = Some 0%nat.
Proof.
  assert (Hnd : NoDup (Dict.keys
                         (scens (with_scens [("REF", 0%nat); ("old", 0%nat)] Demo.cs2019)))).
  { apply (bool_decide_unpack _). vm_compute. exact I. }
  split; [exact Hnd |].
  destruct (import_scens_shares_objects Demo.study
              (with_scens [("REF", 0%nat); ("old", 0%nat)] Demo.cs2019)
              (Some ["REF"]) None Hnd) as (_ & _ & H).
  rewrite (H "old"). reflexivity.
Defined.

End ImportExamples.

(** ** The Pareto norm factors *)

Section MonadFacts.
Context {S : Type}.

Lemma bind_inv_returns {A B} (c : M S A) (k : A -> M S B) s b s2 l :
  bind c k s = Run (Returns b) s2 l ->
  exists a s1 l1 l2, c s = Run (Returns a) s1 l1 /\ k a s1 = Run (Returns b) s2 l2.
Proof.
  unfold bind. destruct (c s) as [[a | e] s1 l1]; [| discriminate].
  destruct (k a s1) as [o s2' l2] eqn:Hk. intros [= -> -> _].
  exists a, s1, l1, l2. split; [reflexivity | exact Hk].
Qed.

Lemma bind_inv_raises {A B} (c : M S A) (k : A -> M S B) s e s2 l :
  bind c k s = Run (Raises e) s2 l ->
  c s = Run (Raises e) s2 l \/
  exists a s1 l1 l2, c s = Run (Returns a) s1 l1 /\ k a s1 = Run (Raises e) s2 l2.
Proof.
  unfold bind. destruct (c s) as [[a | e'] s1 l1]; [| intros [= -> -> ->]; left; reflexivity].
  destruct (k a s1) as [o s2' l2] eqn:Hk. intros [= -> -> _].
  right. exists a, s1, l1, l2. split; [reflexivity | exact Hk].
Qed.

Lemma hoare_bind_inv {A B} (I : S -> Prop) (c : M S A) (k : A -> M S B)
    (Q : B -> S -> Prop) (E : exn -> S -> Prop) :
  hoare I c (fun _ => I) (fun _ => I) ->
  (forall e s, I s -> E e s) ->
  (forall a, hoare I (k a) Q E) ->
  hoare I (bind c k) Q E.
Proof.
  intros Hc HE Hk. apply (hoare_bind _ _ _ (fun _ => I)); [| exact Hk].
  apply (hoare_conseq _ I _ _ (fun _ => I) _ (fun _ => I)); auto.
Qed.

Lemma hoare_assume {A} (P : S -> Prop) (phi : Prop) (c : M S A)
    (Q : A -> S -> Prop) (E : exn -> S -> Prop) :
  (phi -> hoare P c Q E) -> hoare (fun s => phi /\ P s) c Q E.
Proof. intros Hc s [Hphi Hs]. apply (Hc Hphi s Hs). Qed.

Lemma hoare_lift_inv {A} (I : S -> Prop) (o : outcome A) :
  hoare I (lift o) (fun _ => I) (fun _ => I).
Proof. intros s Hs. destruct o; exact Hs. Qed.

Lemma hoare_unwrap_inv {A} (I : S -> Prop) (o : option A) (e : exn) :
  hoare I (unwrap o e) (fun _ => I) (fun _ => I).
Proof. intros s Hs. destruct o; exact Hs. Qed.

End MonadFacts.

Section ParetoFacts.
Context {opq : Opaque} {lib : Library} {slv : Solver}.

Lemma store_ok_heap_stable : heap_stable store_ok.
Proof.
  intros w f r [Hnd Hval]. split; [exact Hnd |].
  intros k r' Hk. cbn [heap with_heap self] in *.
  apply lookup_lt_is_Some. rewrite length_alter.
  apply lookup_lt_is_Some. apply (Hval k r' Hk).
Qed.

Lemma hoare_update_object (I : World -> Prop) (r : ref) (f : Scenario -> Scenario) :
  heap_stable I -> hoare I (update_object r f) (fun _ => I) (fun _ => I).
Proof. intros HI w Hw. apply HI, Hw. Qed.

Lemma hoare_read_object (I : World -> Prop) (r : ref) :
  hoare I (read_object r) (fun _ => I) (fun _ => I).
Proof.
  intros w Hw. unfold read_object, bind, get, unwrap.
  destruct (heap w !! r); exact Hw.
Qed.

Lemma hoare_call_method (I : World -> Prop) (r : ref) (f : Scenario -> outcome Scenario) :
  heap_stable I -> hoare I (call_method r f) (fun _ => I) (fun _ => I).
Proof.
  intros HI. unfold call_method.
  apply hoare_bind_inv; [apply hoare_read_object | auto |]. intros s.
  apply hoare_bind_inv; [apply hoare_lift_inv | auto |]. intros s'.
  apply hoare_update_object, HI.
Qed.

Lemma hoare_read_res (I : World -> Prop) (r : ref) (attr : string) :
  hoare I (read_res r attr) (fun _ => I) (fun _ => I).
Proof.
  unfold read_res.
  apply hoare_bind_inv; [apply hoare_read_object | auto |]. intros s.
  apply hoare_bind_inv; [apply hoare_unwrap_inv | auto |]. intros rs.
  apply hoare_lift_inv.
Qed.

Lemma store_ok_del (w : World) k :
  store_ok w ->
  store_ok (with_self (with_scens (Dict.del (scens (self w)) k) (self w)) w).
Proof.
  intros [Hnd Hval]. split; cbn [self heap with_self scens with_scens].
  - apply dict_del_NoDup, Hnd.
  - intros k' r Hk. apply (Hval k' r). apply (dict_get_Some_del _ k k' r Hk Hnd).
Qed.

(** What one extreme point leaves behind.  If the body returns, the
    disposable scenario has been created and unbound again; if it
    raises, either nothing has happened or the disposable scenario is
    still bound. *)
Lemma pareto_point_spec (mf : option Callable) (adj : Object) (b : string) (i : Z)
    (acc : list Object * list Object) (w0 : World) :
  store_ok w0 ->
  match pareto_point mf adj b i acc w0 with
  | Run (Returns _) w' _ =>
      store_ok w' /\
      scens (self w')
        = Dict.del (Dict.set (scens (self w0)) (str i) (length (heap w0))) (str i) /\
      length (heap w') = Datatypes.S (length (heap w0))
  | Run (Raises e) w' _ =>
      store_ok w' /\
      ((w' = w0 /\
        result (add_scen (Some (str i)) "pareto_improver" "" (Some b) false None None None
                  w0) = Raises e) \/
       (scens (self w') = Dict.set (scens (self w0)) (str i) (length (heap w0)) /\
        length (heap w') = Datatypes.S (length (heap w0))))
  end.
Proof.
  intros Hok.
  set (N := length (heap w0)).
  set (d1 := Dict.set (scens (self w0)) (str i) N).
  set (J := fun w' : World =>
              store_ok w' /\ scens (self w') = d1 /\
              length (heap w') = Datatypes.S N).
  assert (HJ : heap_stable J).
  { intros w f r (H1 & H2 & H3). split; [apply store_ok_heap_stable, H1 |].
    split; [exact H2 |]. cbn [heap with_heap]. rewrite length_alter. exact H3. }
  set (Q := fun (_ : list Object * list Object) (w' : World) =>
              store_ok w' /\ scens (self w') = Dict.del d1 (str i) /\
              length (heap w') = Datatypes.S N).
  set (E := fun (e : exn) (w' : World) =>
              store_ok w' /\
              ((w' = w0 /\
                result (add_scen (Some (str i)) "pareto_improver" "" (Some b) false None
                          None None w0) = Raises e) \/
               (scens (self w') = d1 /\ length (heap w') = Datatypes.S N))).
  assert (HJE : forall e w', J w' -> E e w').
  { intros e w' (H1 & H2 & H3). split; [exact H1 |]. right. split; assumption. }
  assert (Hspec : hoare (fun w => w = w0) (pareto_point mf adj b i acc) Q E).
  { unfold pareto_point.
    apply (hoare_bind _ _ _ (fun r w' => r = N /\ J w')).
    - intros w ->.
      pose proof (add_scen_store_ok (Some (str i)) "pareto_improver" "" (Some b) false
                    None None None w0 Hok) as Hadd.
      destruct (add_scen_run_cases w0 (Some (str i)) "pareto_improver" "" (Some b) false
                  None None None) as [[e' Hrun] | (h & sc & Hrun & Hlen & _)];
        rewrite Hrun in *.
      + split; [exact Hok | left; split; [reflexivity | rewrite Hrun; reflexivity]].
      + destruct Hadd as [Hok1 _]. split; [reflexivity |]. split; [exact Hok1 |].
        split; [reflexivity |]. cbn [heap]. rewrite length_app, Hlen. cbn [length].
        fold N. lia.
    - intros r. apply hoare_assume. intros ->.
      apply hoare_bind_inv; [apply hoare_update_object, HJ | exact HJE |]. intros _.
      apply hoare_bind_inv; [apply hoare_call_method, HJ | exact HJE |]. intros _.
      apply hoare_bind_inv; [apply hoare_call_method, HJ | exact HJE |]. intros _.
      apply hoare_bind_inv; [apply hoare_read_res | exact HJE |]. intros c.
      apply hoare_bind_inv; [apply hoare_read_res | exact HJE |]. intros ce.
      apply (hoare_bind _ _ _ (fun _ => Q acc)).
      + intros w (H1 & H2 & H3). unfold delattr_scens, bind, get, unwrap, modify.
        rewrite H2.
        assert (Hd1 : Dict.get d1 (str i) = Some N) by apply dict_get_set.
        rewrite Hd1. unfold ret. cbn [app self scens with_self with_scens heap].
        split; [| split].
        * apply store_ok_del, H1.
        * rewrite H2. reflexivity.
        * exact H3.
      + intros _ w Hw. exact Hw. }
  specialize (Hspec w0 eq_refl).
  destruct (pareto_point mf adj b i acc w0) as [[a | e] w' l]; exact Hspec.
Qed.

(** The second loop: both assignments on every scenario of the
    list. *)
Lemma norm_loop_run (nC nCE : list Object) (L : list ref) (w : World) :
  for_each L (set_norm_factors nC nCE) w
  = Run (Returns tt)
      (with_heap
         (fold_left
            (fun h r =>
               alter (set_param "k_PTO_CE_" (VObj (norm_factor nCE))) r
                 (alter (set_param "k_PTO_C_" (VObj (norm_factor nC))) r h))
            L (heap w)) w) [].
Proof.
  revert w. induction L as [| r L IH]; intros w.
  - destruct w; reflexivity.
  - cbn [for_each fold_left]. unfold bind at 1.
    unfold set_norm_factors at 1, update_object, bind, modify.
    cbn [result final logged app]. rewrite IH. reflexivity.
Qed.

Lemma set_param_normed (nC nCE : list Object) (x : Scenario) :
  normed nC nCE
    (set_param "k_PTO_CE_" (VObj (norm_factor nCE))
       (set_param "k_PTO_C_" (VObj (norm_factor nC)) x)).
Proof.
  split; cbn [set_param params with_params].
  - rewrite lookup_insert_ne by discriminate. apply lookup_insert_eq.
  - apply lookup_insert_eq.
Qed.

Lemma norm_fold_lookup (nC nCE : list Object) (L : list ref) :
  forall (h : list Scenario) (r : ref),
  is_Some (h !! r) ->
  r ∈ L \/ (exists x, h !! r = Some x /\ normed nC nCE x) ->
  exists x,
    fold_left
      (fun h r =>
         alter (set_param "k_PTO_CE_" (VObj (norm_factor nCE))) r
           (alter (set_param "k_PTO_C_" (VObj (norm_factor nC))) r h))
      L h !! r = Some x /\ normed nC nCE x.
Proof.
  induction L as [| r0 L IH]; intros h r [x Hx] Hr.
  - destruct Hr as [Hin | Hn]; [| exact Hn]. apply elem_of_nil in Hin. destruct Hin.
  - cbn [fold_left].
    destruct (decide (r0 = r)) as [-> | Hne].
    + apply IH.
      * apply lookup_lt_is_Some. rewrite !length_alter. apply lookup_lt_is_Some. eauto.
      * right. eexists. split.
        -- unfold ref in *. rewrite !list_lookup_alter_eq, Hx. reflexivity.
        -- apply set_param_normed.
    + apply IH.
      * apply lookup_lt_is_Some. rewrite !length_alter. apply lookup_lt_is_Some. eauto.
      * destruct Hr as [Hin | (y & Hy & Hn)].
        -- left. apply elem_of_cons in Hin as [-> | Hin]; [congruence | exact Hin].
        -- right. exists y. split; [| exact Hn].
           rewrite !list_lookup_alter_ne by exact Hne. exact Hy.
Qed.

Lemma dict_get_values {V} (d : list (string * V)) k v :
  Dict.get d k = Some v -> v ∈ Dict.values d.
Proof.
  intros Hk. apply dict_get_Some_elem in Hk.
  apply (list_elem_of_fmap_2 snd) in Hk. exact Hk.
Qed.

(** X18.  When [improve_pareto_norm_factors] returns, the collection holds
    neither of the disposable ids ["0"] and ["1"], also if one of them
    named a scenario of the user before the call; every other id names
    the scenario it named before; and every scenario of the collection
    carries the two norm factors, the same for all. *)
Theorem improve_pareto_leaves_no_disposable (w : World) (mf : option Callable)
    (adj : Object) (b : string) :
  store_ok w ->
  result (improve_pareto_norm_factors mf adj b w) = Returns tt ->
  let w' := final (improve_pareto_norm_factors mf adj b w) in
  Dict.get (scens (self w')) "0" = None /\
  Dict.get (scens (self w')) "1" = None /\
  (forall k, k <> "0" -> k <> "1" ->
     Dict.get (scens (self w')) k = Dict.get (scens (self w)) k) /\
  exists nC nCE,
    forall k r, Dict.get (scens (self w')) k = Some r ->
      exists x, heap w' !! r = Some x /\ normed nC nCE x.
Proof.
  intros Hok Hr w'. subst w'.
  destruct (improve_pareto_norm_factors mf adj b w) as [o wf lf] eqn:Hrun.
  cbn [result final] in *. subst o.
  unfold improve_pareto_norm_factors in Hrun.
  apply bind_inv_returns in Hrun as (acc & w2 & l1 & l2 & Hacc & Hloop).
  cbn [for_acc] in Hacc.
  apply bind_inv_returns in Hacc as (a0 & w1 & l3 & l4 & Hp0 & Hacc).
  apply bind_inv_returns in Hacc as (a1 & w2' & l5 & l6 & Hp1 & Hret).
  unfold ret in Hret. injection Hret as -> -> _.
  pose proof (pareto_point_spec mf adj b 0 ([], []) w Hok) as H0.
  rewrite Hp0 in H0. destruct H0 as (Hok1 & Hs1 & Hl1).
  pose proof (pareto_point_spec mf adj b 1 a0 w1 Hok1) as H1.
  rewrite Hp1 in H1. destruct H1 as (Hok2 & Hs2 & Hl2).
  unfold bind, get in Hloop. rewrite norm_loop_run in Hloop.
  cbn [result final logged app] in Hloop. injection Hloop as <- _.
  cbn [self heap with_heap].
  destruct Hok as [Hnd _]. destruct Hok1 as [Hnd1 _].
  change (str 0) with "0" in *. change (str 1) with "1" in *.
  assert (Hget0 : Dict.get (scens (self w1)) "0" = None).
  { rewrite Hs1. apply dict_get_del, dict_set_NoDup, Hnd. }
  repeat apply conj.
  - rewrite Hs2, dict_get_del_ne, dict_get_set_ne by discriminate. exact Hget0.
  - rewrite Hs2. apply dict_get_del, dict_set_NoDup, Hnd1.
  - intros k Hk0 Hk1.
    rewrite Hs2, dict_get_del_ne, dict_get_set_ne by congruence.
    rewrite Hs1, dict_get_del_ne, dict_get_set_ne by congruence. reflexivity.
  - exists acc.1, acc.2. intros k r Hk.
    apply norm_fold_lookup.
    + destruct Hok2 as [_ Hval]. apply (Hval k r Hk).
    + left. unfold scens_list, scens_dic. apply (dict_get_values _ k r Hk).
Qed.

(** X19.  When the base scenario exists under an id other than ["0"] and
    [improve_pareto_norm_factors] raises, the failure came from the
    solver or the results, and the disposable scenario of the extreme
    point that failed is left in the collection: ["0"] or ["1"] names
    an object created by the call. *)
Theorem improve_pareto_failure_leaves_disposable (w : World) (mf : option Callable)
    (adj : Object) (b : string) (e : exn) :
  store_ok w ->
  is_Some (Dict.get (scens (self w)) b) ->
  b <> "0" ->
  result (improve_pareto_norm_factors mf adj b w) = Raises e ->
  let w' := final (improve_pareto_norm_factors mf adj b w) in
  (exists r, Dict.get (scens (self w')) "0" = Some r /\ (length (heap w) <= r)%nat) \/
  (exists r, Dict.get (scens (self w')) "1" = Some r /\ (length (heap w) <= r)%nat /\
             Dict.get (scens (self w')) "0" = None).
Proof.
  intros Hok [rb Hb] Hb0 Hr w'. subst w'.
  destruct (improve_pareto_norm_factors mf adj b w) as [o wf lf] eqn:Hrun.
  cbn [result final] in *. subst o.
  unfold improve_pareto_norm_factors in Hrun.
  apply bind_inv_raises in Hrun as [Hacc | (acc & w2 & l1 & l2 & _ & Hloop)].
  2:{ unfold bind, get in Hloop. rewrite norm_loop_run in Hloop. discriminate. }
  cbn [for_acc] in Hacc.
  assert (Hadd : forall (w1 : World) i e',
            store_ok w1 -> Dict.get (scens (self w1)) b = Some rb ->
            result (add_scen (Some i) "pareto_improver" "" (Some b) false None None None w1)
              <> Raises e').
  { intros w1 i e' [_ Hval] Hb1. destruct (Hval b rb Hb1) as [base Hbase].
    rewrite (add_scen_derived_run w1 (Some i) "pareto_improver" "" b None None rb base
               Hb1 Hbase). discriminate. }
  apply bind_inv_raises in Hacc as [Hp0 | (a0 & w1 & l3 & l4 & Hp0 & Hacc)].
  - pose proof (pareto_point_spec mf adj b 0 ([], []) w Hok) as H0.
    rewrite Hp0 in H0. destruct H0 as (_ & [[_ Hfail] | [Hs Hl]]).
    + exfalso. apply (Hadd w (str 0) e Hok Hb Hfail).
    + left. exists (length (heap w)). rewrite Hs.
      split; [apply dict_get_set | lia].
  - pose proof (pareto_point_spec mf adj b 0 ([], []) w Hok) as H0.
    rewrite Hp0 in H0. destruct H0 as (Hok1 & Hs1 & Hl1).
    assert (Hget0 : Dict.get (scens (self w1)) "0" = None).
    { rewrite Hs1. apply dict_get_del, dict_set_NoDup. destruct Hok as [Hnd _]. exact Hnd. }
    assert (Hb1 : Dict.get (scens (self w1)) b = Some rb).
    { rewrite Hs1. change (str 0) with "0".
      rewrite dict_get_del_ne, dict_get_set_ne by congruence. exact Hb. }
    apply bind_inv_raises in Hacc as [Hp1 | (a1 & w2 & l5 & l6 & _ & Hret)];
      [| discriminate].
    pose proof (pareto_point_spec mf adj b 1 a0 w1 Hok1) as H1.
    rewrite Hp1 in H1. destruct H1 as (_ & [[_ Hfail] | [Hs Hl]]).
    + exfalso. apply (Hadd w1 (str 1) e Hok1 Hb1 Hfail).
    + right. exists (length (heap w1)). rewrite Hs. change (str 1) with "1".
      split; [apply dict_get_set |]. split; [lia |].
      rewrite dict_get_set_ne by discriminate. exact Hget0.
Qed.

End ParetoFacts.

Section ParetoExamples.
#[local] Existing Instance Demo.opaque.
#[local] Existing Instance Demo.library.

Lemma improve_pareto_leaves_no_disposable_study :
  store_ok Demo.study /\
  result (@improve_pareto_norm_factors _ _ DemoSolver.solver None "1.0" "REF" Demo.study)
    = Returns tt /\
  Dict.get
    (scens (self (final (@improve_pareto_norm_factors _ _ DemoSolver.solver None "1.0"
                           "REF" Demo.study)))) "0" = None /\
  Dict.get
    (scens (self (final (@improve_pareto_norm_factors _ _ DemoSolver.solver None "1.0"
                           "REF" Demo.study)))) "1" = None.
Proof.
  assert (Hr : result (@improve_pareto_norm_factors _ _ DemoSolver.solver None "1.0"
                         "REF" Demo.study) = Returns tt) by (vm_compute; reflexivity).
  split; [exact study_store_ok |]. split; [exact Hr |].
  destruct (@improve_pareto_leaves_no_disposable _ _ DemoSolver.solver Demo.study None
              "1.0" "REF" study_store_ok Hr) as (H0 & H1 & _).
  split; [exact H0 | exact H1].
Defined.

Lemma improve_pareto_failure_leaves_disposable_study :
  store_ok Demo.study /\
  result (@improve_pareto_norm_factors _ _ DemoSolver.infeasible None "1.0" "REF"
            Demo.study) = Raises (RuntimeError "infeasible") /\
  ((exists r,
      Dict.get
        (scens (self (final (@improve_pareto_norm_factors _ _ DemoSolver.infeasible None
                               "1.0" "REF" Demo.study)))) "0" = Some r /\
      (1 <= r)%nat) \/
   (exists r,
      Dict.get
        (scens (self (final (@improve_pareto_norm_factors _ _ DemoSolver.infeasible None
                               "1.0" "REF" Demo.study)))) "1" = Some r /\
      (1 <= r)%nat /\
      Dict.get
        (scens (self (final (@improve_pareto_norm_factors _ _ DemoSolver.infeasible None
                               "1.0" "REF" Demo.study)))) "0" = None)).
Proof.
  assert (Hr : result (@improve_pareto_norm_factors _ _ DemoSolver.infeasible None "1.0"
                         "REF" Demo.study) = Raises (RuntimeError "infeasible"))
    by (vm_compute; reflexivity).
  split; [exact study_store_ok |]. split; [exact Hr |].
  apply (@improve_pareto_failure_leaves_disposable _ _ DemoSolver.infeasible Demo.study
           None "1.0" "REF" (RuntimeError "infeasible") study_store_ok).
  - exists 0%nat. reflexivity.
  - discriminate.
  - exact Hr.
Defined.

End ParetoExamples.

(** ** The sweep table in general *)

Section ProductFacts.
Context {opq : Opaque} {lib : Library}.

Lemma from_product_rows_length (vl : list (list Value)) :
  Forall (fun row => length row = length vl) (from_product vl).
Proof.
  induction vl as [| l vl IH]; cbn [from_product].
  - apply Forall_cons. split; [reflexivity | apply Forall_nil; exact I].
  - apply Forall_forall. intros row Hrow.
    apply list_elem_of_In, in_flat_map in Hrow as (x & _ & Hrow).
    apply list_elem_of_In, list_elem_of_fmap in Hrow as (row' & -> & Hrow').
    rewrite Forall_forall in IH. cbn [length]. rewrite (IH row' Hrow'). reflexivity.
Qed.

Lemma from_product_elem (vl : list (list Value)) (row : list Value) :
  row ∈ from_product vl <-> Forall2 (fun x l => x ∈ l) row vl.
Proof.
  revert row. induction vl as [| l vl IH]; intros row; cbn [from_product].
  - rewrite list_elem_of_singleton. split.
    + intros ->. apply Forall2_nil. exact I.
    + intros H. apply Forall2_nil_inv_r in H. exact H.
  - rewrite list_elem_of_In, in_flat_map. split.
    + intros (x & Hx & Hrow).
      apply list_elem_of_In, list_elem_of_fmap in Hrow as (row' & -> & Hrow').
      apply Forall2_cons. split; [apply list_elem_of_In, Hx | apply IH, Hrow'].
    + intros H. apply Forall2_cons_inv_r in H as (x & row' & Hx & Hrow' & ->).
      exists x. split; [apply list_elem_of_In, Hx |].
      apply list_elem_of_In, list_elem_of_fmap. exists row'.
      split; [reflexivity | apply IH, Hrow'].
Qed.

Lemma from_product_length (vl : list (list Value)) :
  length (from_product vl) = foldr (fun l n => (length l * n)%nat) 1%nat vl.
Proof.
  induction vl as [| l vl IH]; [reflexivity |].
  cbn [from_product foldr]. rewrite <- IH. clear IH.
  induction l as [| x l IHl]; [reflexivity |].
  cbn [flat_map]. rewrite length_app, length_fmap, IHl. cbn [length]. lia.
Qed.

(** The entry [i] of row [j] is the entry [j] of column [i]. *)
Lemma column_lookup (rows : list (list Value)) (n i : nat) :
  Forall (fun r => length r = n) rows -> (i < n)%nat ->
  forall j row, rows !! j = Some row -> column rows i !! j = row !! i.
Proof.
  intros Hall Hi. unfold column.
  induction Hall as [| r rows Hr Hall IH]; intros j row Hj; [discriminate |].
  cbn [omap list_omap].
  destruct (r !! i) as [x |] eqn:Hx.
  2:{ apply lookup_ge_None in Hx. lia. }
  destruct j as [| j].
  - injection Hj as <-. cbn. symmetry. exact Hx.
  - cbn. apply (IH j row Hj).
Qed.

Lemma drop_lookup_cons {A} (l : list A) (k : nat) (x : A) :
  l !! k = Some x -> drop k l = x :: drop (Datatypes.S k) l.
Proof.
  revert k. induction l as [| y l IH]; intros [| k] Hk; try discriminate.
  - injection Hk as ->. reflexivity.
  - cbn. apply IH, Hk.
Qed.

(** Transposing twice gives the rows back. *)
Lemma column_transpose (rows : list (list Value)) (n j : nat) (row : list Value) :
  Forall (fun r => length r = n) rows -> rows !! j = Some row ->
  forall m k, (k + m = n)%nat ->
  column (column rows <$> seq k m) j = drop k row.
Proof.
  intros Hall Hj.
  assert (Hrow : length row = n).
  { rewrite Forall_forall in Hall. apply Hall. apply (list_elem_of_lookup_2 _ _ _ Hj). }
  induction m as [| m IH]; intros k Hk.
  - cbn. rewrite drop_ge by lia. reflexivity.
  - cbn [seq fmap list_fmap]. unfold column at 1. cbn [omap list_omap].
    rewrite (column_lookup rows n k Hall ltac:(lia) j row Hj).
    destruct (row !! k) as [v |] eqn:Hv.
    2:{ apply lookup_ge_None in Hv. lia. }
    rewrite (drop_lookup_cons row k v Hv). f_equal.
    apply (IH (Datatypes.S k)). lia.
Qed.

(** Column [j] of the frame of name parts: the short names put in
    front of the values of row [j]. *)
Lemma column_prefixed (rows : list (list Value)) (n j : nat) (row : list Value) :
  Forall (fun r => length r = n) rows -> rows !! j = Some row ->
  forall (short : list string) k, (k + length short = n)%nat ->
  column
    (zip_with (fun p (r : list Value) => (fun v => VStr (p +:+ str_value v)) <$> r)
       short
       ((fun r : list Value => (fun v => VStr (str_value v)) <$> r)
          <$> (column rows <$> seq k (length short)))) j
  = zip_with (fun p v => VStr (p +:+ str_value v)) short (drop k row).
Proof.
  intros Hall Hj.
  assert (Hrow : length row = n).
  { rewrite Forall_forall in Hall. apply Hall. apply (list_elem_of_lookup_2 _ _ _ Hj). }
  induction short as [| p short IH]; intros k Hk.
  - reflexivity.
  - cbn [length] in Hk. cbn [length seq fmap list_fmap zip_with].
    unfold column at 1. cbn [omap list_omap].
    rewrite !list_lookup_fmap.
    rewrite (column_lookup rows n k Hall ltac:(lia) j row Hj).
    destruct (row !! k) as [v |] eqn:Hv.
    2:{ apply lookup_ge_None in Hv. lia. }
    rewrite (drop_lookup_cons row k v Hv). cbn [fmap option_fmap option_map zip_with].
    cbn [str_value]. f_equal.
    apply (IH (Datatypes.S k)). lia.
Qed.

Lemma names_lengths (l : list ScenVar) :
  length (names_long l) = length (value_lists l) /\
  length (names_short l) = length (value_lists l).
Proof. unfold names_long, names_short, value_lists. rewrite !length_fmap. auto. Qed.

Lemma fmap_zip_with_str (short : list string) (row : list Value) :
  str_value <$> zip_with (fun p v => VStr (p +:+ str_value v)) short row
  = zip_with (fun p v => p +:+ str_value v) short row.
Proof.
  revert row. induction short as [| p short IH]; intros [| v row]; try reflexivity.
  cbn. f_equal. apply IH.
Qed.

Lemma sweep_table_items (l : list ScenVar) :
  items (sweep_table (names_long l) (names_short l) (value_lists l))
  = sweep_column l <$> from_product (value_lists l).
Proof.
  destruct (names_lengths l) as [Hlong Hshort].
  pose proof (from_product_rows_length (value_lists l)) as Hall.
  set (rows := from_product (value_lists l)) in *.
  set (n := length (value_lists l)) in *.
  unfold sweep_table, items, T, set_index, joined_names, prefix_columns, astype_str,
    product_frame.
  cbn [index columns cells]. fold rows.
  rewrite !length_fmap, length_seq, Hlong. fold n.
  apply list_eq. intros j.
  rewrite list_lookup_imap, !list_lookup_fmap.
  destruct (rows !! j) as [row |] eqn:Hj.
  - rewrite lookup_seq_lt by (apply (lookup_lt_Some _ _ _ Hj)).
    cbn [fmap option_fmap option_map Nat.add]. unfold sweep_column. f_equal. f_equal.
    + f_equal. unfold composed_name. f_equal.
      rewrite <- Hshort.
      rewrite (column_prefixed rows n j row Hall Hj (names_short l) 0)
        by (rewrite Hshort; reflexivity).
      rewrite drop_0. apply fmap_zip_with_str.
    + f_equal.
      rewrite (column_transpose rows n j row Hall Hj n 0) by lia.
      apply drop_0.
  - rewrite lookup_seq_ge by (apply lookup_ge_None in Hj; exact Hj). reflexivity.
Qed.

(** X20.  For a sweep of [int64] values, the table [add_scens] stores
    has exactly one column for every combination of values, in the
    order of the product, the last list varying fastest: the column is
    named by the short names and values joined with underscores and
    holds the combination under the long names.  The combinations are
    the ways to pick one value from every list, so their number is the
    product of the lengths of the lists. *)
Theorem sweep_table_one_column_per_combination (l : list ScenVar) :
  int64_sweep l ->
  items (sweep_table (names_long l) (names_short l) (value_lists l))
    = sweep_column l <$> from_product (value_lists l) /\
  (forall row, row ∈ from_product (value_lists l)
               <-> Forall2 (fun x vs => x ∈ vs) row (value_lists l)) /\
  length (columns (sweep_table (names_long l) (names_short l) (value_lists l)))
    = foldr (fun vs n => (length vs * n)%nat) 1%nat (value_lists l).
Proof.
  intros _.
  split; [apply sweep_table_items |]. split; [intros row; apply from_product_elem |].
  rewrite <- from_product_length.
  unfold sweep_table, T, set_index, joined_names, prefix_columns, astype_str, product_frame.
  cbn [index columns cells].
  repeat (rewrite ?length_fmap, ?length_seq; cbn [index columns cells]).
  reflexivity.
Qed.

End ProductFacts.

(** ** [add_scens] in general *)

Section GeneralSweepFacts.
Context {opq : Opaque} {lib : Library}.

Lemma add_scens_unfold (l : list ScenVar) (n : Z) (remove_base : bool) (b : string)
    (w w' w'' : World) (o : outcome unit) (lg : list string) :
  l <> [] -> NoDup (names_long l) -> n <= 0 ->
  for_each (items (sweep_table (names_long l) (names_short l) (value_lists l)))
    (fun col => add_sweep_scen b (label_str col.1) col.2)
    (with_self
       (with_scen_df (sweep_table (names_long l) (names_short l) (value_lists l))
          (with_scen_vars (Some l) (self w))) w)
  = Run (Returns tt) w' [] ->
  (if remove_base then delattr_scens b else ret tt) w' = Run o w'' lg ->
  add_scens (Some l) n remove_base b w = Run o w'' lg.
Proof.
  intros Hl Hnd Hn Hfor Hrm. unfold add_scens.
  replace (0 <? n) with false by (symmetry; apply Z.ltb_ge; exact Hn).
  destruct l as [| v l]; [contradiction |].
  fold (names_long (v :: l)). fold (names_short (v :: l)). fold (value_lists (v :: l)).
  rewrite bool_decide_eq_true_2 by exact Hnd.
  unfold bind at 1. unfold modify at 1. cbn [result final logged].
  unfold bind at 1. unfold ret at 1. cbn [result final logged].
  unfold bind at 1. unfold modify at 1. cbn [result final logged].
  unfold bind at 1.
  match goal with
  | |- context [for_each _ _ ?w1] =>
      change w1 with
        (with_self
           (with_scen_df
              (sweep_table (names_long (v :: l)) (names_short (v :: l))
                 (value_lists (v :: l)))
              (with_scen_vars (Some (v :: l)) (self w))) w)
  end.
  rewrite Hfor, Hrm. reflexivity.
Qed.

Lemma delattr_scens_run (w : World) (k : string) (r : ref) :
  Dict.get (scens (self w)) k = Some r ->
  delattr_scens k w
  = Run (Returns tt) (with_self (with_scens (Dict.del (scens (self w)) k) (self w)) w) [].
Proof.
  intros Hk. unfold delattr_scens, bind, get, unwrap, modify. rewrite Hk. reflexivity.
Qed.

Lemma bind_all_NoDup (names : list string) :
  forall (d : list (string * ref)) (refs : list ref),
  NoDup (Dict.keys d) -> NoDup (Dict.keys (bind_all d names refs)).
Proof.
  induction names as [| k names IH]; intros d refs Hnd; [exact Hnd |].
  destruct refs as [| r refs]; [exact Hnd |].
  rewrite bind_all_cons. apply IH, dict_set_NoDup, Hnd.
Qed.

Lemma sweep_series_ok (base : Scenario) (l : list ScenVar) :
  Forall (fun v : ScenVar =>
            declared base v.1.1 /\ Forall (fun x => exists z, x = VInt z) v.2) l ->
  forall row, Forall2 (fun x vs => x ∈ vs) row (value_lists l) ->
  Forall (fun x : Label * Value =>
            (exists z, x.2 = VInt z) /\ declared base (label_str x.1))
    (zip (LName <$> names_long l) row).
Proof.
  induction 1 as [| v l [Hdecl Hints] Hall IH]; intros row Hrow.
  - apply Forall2_nil_inv_r in Hrow. subst row. apply Forall_nil. exact I.
  - cbn [value_lists fmap list_fmap] in Hrow.
    apply Forall2_cons_inv_r in Hrow as (x & row' & Hx & Hrow' & ->).
    cbn [names_long fmap list_fmap zip zip_with]. apply Forall_cons. split.
    + cbn [fst snd label_str]. split; [| exact Hdecl].
      rewrite Forall_forall in Hints. apply Hints, Hx.
    + apply IH, Hrow'.
Qed.

(** X21.  The general sweep over [int64] values.  Let the base scenario
    exist and declare [t__params_] and every swept entity, and let
    every composed name be an identifier other than the base id.  Then
    [add_scens] returns; it has stored [scen_vars] and the table; it
    has created one scenario for every combination of values, in the
    order of the product, with the composed name as id and name and
    the list [long=value] as doc string; the scenarios that existed
    keep their place; and the base id is unbound afterwards exactly
    when [remove_base] is set. *)
Theorem add_scens_one_scenario_per_combination (w : World) (l : list ScenVar) (n : Z)
    (remove_base : bool) (b : string) (rb : ref) (base : Scenario) :
  int64_sweep l -> n <= 0 ->
  NoDup (Dict.keys (scens (self w))) ->
  Dict.get (scens (self w)) b = Some rb ->
  heap w !! rb = Some base ->
  declared base "t__params_" ->
  Forall (fun v : ScenVar => declared base v.1.1) l ->
  Forall (fun row =>
            isidentifier (composed_name (names_short l) row) = true /\
            composed_name (names_short l) row <> b)
         (from_product (value_lists l)) ->
  let w' := final (add_scens (Some l) n remove_base b w) in
  result (add_scens (Some l) n remove_base b w) = Returns tt /\
  scen_vars (self w') = Some (Some l) /\
  scen_df (self w')
    = Some (sweep_table (names_long l) (names_short l) (value_lists l)) /\
  length (heap w')
    = (length (heap w) + foldr (fun vs k => (length vs * k)%nat) 1%nat (value_lists l))%nat /\
  (forall j row, from_product (value_lists l) !! j = Some row ->
     exists sc, heap w' !! (length (heap w) + j)%nat = Some sc /\
                id sc = composed_name (names_short l) row /\
                name sc = composed_name (names_short l) row /\
                doc sc = long_doc (zip (LName <$> names_long l) row) /\
                res sc = None) /\
  Dict.get (scens (self w')) b = (if remove_base then None else Some rb) /\
  (forall r x, r <> rb -> heap w !! r = Some x -> heap w' !! r = Some x).
Proof.
  intros (Hl & Hnd & Hvals) Hn Hkeys Hb Hbase Ht Hdecl Hnames w'. subst w'.
  assert (Hents : Forall (fun v : ScenVar =>
                            declared base v.1.1 /\
                            Forall (fun x => exists z, x = VInt z) v.2) l).
  { apply Forall_forall. intros v Hv. rewrite Forall_forall in Hdecl, Hvals.
    split; [apply Hdecl, Hv |].
    destruct (Hvals v Hv) as [_ Hints].
    eapply Forall_impl; [exact Hints |].
    intros x (z & Hx & _). exists z. exact Hx. }
  set (table := sweep_table (names_long l) (names_short l) (value_lists l)).
  set (rows := from_product (value_lists l)) in *.
  set (w0 := with_self (with_scen_df table (with_scen_vars (Some l) (self w))) w).
  assert (Hitems : items table = sweep_column l <$> rows) by apply sweep_table_items.
  destruct (sweep_columns_run b rb (items table) w0 base)
    as (w1 & Hrun & Hself & Hlen & _ & Hobjs & Hframe); try assumption.
  { rewrite Hitems. apply Forall_fmap. apply Forall_forall. intros row Hrow.
    rewrite Forall_forall in Hnames. destruct (Hnames row Hrow) as [Hid Hne].
    cbn [sweep_column fst snd label_str]. unfold sweep_column. cbn [fst snd label_str].
    split; [exact Hid |]. split; [exact Hne |].
    apply (sweep_series_ok base l Hents). apply from_product_elem. exact Hrow. }
  change (heap w0) with (heap w) in Hself, Hlen, Hobjs, Hframe.
  change (scens (self w0)) with (scens (self w)) in Hself.
  set (names := (fun col : Label * list (Label * Value) => label_str col.1) <$> items table)
    in *.
  set (d1 := bind_all (scens (self w)) names (seq (length (heap w)) (length (items table))))
    in *.
  assert (Hbnames : b ∉ names).
  { unfold names. rewrite Hitems, <- list_fmap_compose. intros Hin.
    apply list_elem_of_fmap in Hin as (row & Heq & Hrow).
    rewrite Forall_forall in Hnames. destruct (Hnames row Hrow) as [_ Hne].
    apply Hne. symmetry. exact Heq. }
  assert (Hb1 : Dict.get d1 b = Some rb).
  { unfold d1. rewrite bind_all_get_other by exact Hbnames. exact Hb. }
  assert (Hnd1 : NoDup (Dict.keys d1)) by (apply bind_all_NoDup, Hkeys).
  assert (Hcount : length (items table)
                   = foldr (fun vs k => (length vs * k)%nat) 1%nat (value_lists l)).
  { rewrite Hitems, length_fmap. apply from_product_length. }
  assert (Hobjs' : forall j row, rows !! j = Some row ->
            exists sc, heap w1 !! (length (heap w) + j)%nat = Some sc /\
                       id sc = composed_name (names_short l) row /\
                       name sc = composed_name (names_short l) row /\
                       doc sc = long_doc (zip (LName <$> names_long l) row) /\
                       res sc = None).
  { intros j row Hj.
    destruct (Hobjs j (sweep_column l row)) as (sc & H1 & H2 & H3 & H4 & H5).
    - rewrite Hitems, list_lookup_fmap, Hj. reflexivity.
    - exists sc. repeat split; assumption. }
  destruct remove_base.
  - assert (Hrm : delattr_scens b w1
                  = Run (Returns tt)
                      (with_self (with_scens (Dict.del (scens (self w1)) b) (self w1)) w1)
                      []).
    { apply (delattr_scens_run w1 b rb). rewrite Hself. exact Hb1. }
    rewrite (add_scens_unfold l n true b w w1 _ _ _ Hl Hnd Hn Hrun Hrm).
    cbn [result final self heap with_self scens with_scens scen_vars scen_df].
    rewrite Hself.
    cbn [scens with_scens scen_vars scen_df self w0 with_self with_scen_df with_scen_vars].
    repeat apply conj; try reflexivity.
    + rewrite Hlen, Hcount. reflexivity.
    + exact Hobjs'.
    + fold d1. apply dict_get_del, Hnd1.
    + exact Hframe.
  - assert (Hrm : @ret World unit tt w1 = Run (Returns tt) w1 []) by reflexivity.
    rewrite (add_scens_unfold l n false b w w1 _ _ _ Hl Hnd Hn Hrun Hrm).
    cbn [result final]. rewrite Hself.
    cbn [scens with_scens scen_vars scen_df self w0 with_self with_scen_df with_scen_vars].
    repeat apply conj; try reflexivity.
    + rewrite Hlen, Hcount. reflexivity.
    + exact Hobjs'.
    + fold d1. exact Hb1.
    + exact Hframe.
Qed.

(** X22.  Without [scen_vars] and without Pareto points the [RuntimeError]
    the code builds is never raised: the call stores [None] in
    [scen_vars] and fails with [TypeError]; an empty list fails with
    [ValueError] when it is unpacked, and two sweeps of the same
    entity fail with [ValueError] too.  In all three cases
    [scen_vars] has been overwritten, and no scenario was added or
    changed. *)
Theorem add_scens_early_failures (w : World) (n : Z) (remove_base : bool) (b : string) :
  n <= 0 ->
  (result (add_scens None n remove_base b w) = Raises TypeError /\
   final (add_scens None n remove_base b w)
     = with_self (with_scen_vars None (self w)) w) /\
  (exists msg, result (add_scens (Some []) n remove_base b w) = Raises (ValueError msg) /\
   final (add_scens (Some []) n remove_base b w)
     = with_self (with_scen_vars (Some []) (self w)) w) /\
  (forall l, l <> [] -> ~ NoDup (names_long l) ->
     exists msg, result (add_scens (Some l) n remove_base b w) = Raises (ValueError msg) /\
     final (add_scens (Some l) n remove_base b w)
       = with_self (with_scen_vars (Some l) (self w)) w).
Proof.
  intros Hn. unfold add_scens.
  replace (0 <? n) with false by (symmetry; apply Z.ltb_ge; exact Hn).
  repeat apply conj.
  - reflexivity.
  - reflexivity.
  - eexists. split; reflexivity.
  - intros [| v l] Hl Hdup; [contradiction |].
    fold (names_long (v :: l)).
    rewrite bool_decide_eq_false_2 by exact Hdup.
    eexists. split; reflexivity.
Qed.

End GeneralSweepFacts.

Section GeneralSweepExamples.
#[local] Existing Instance Demo.opaque.
#[local] Existing Instance Demo.library.

Lemma sweep_X_int64 : int64_sweep [("X", "x", [VInt 1; VInt 2; VInt 3])].
Proof.
  split; [discriminate |]. split; [apply NoDup_singleton |].
  apply Forall_cons. split; [| apply Forall_nil; exact I].
  split; [discriminate |].
  repeat (apply Forall_cons; split; [eexists; split; [reflexivity | lia] |]).
  apply Forall_nil. exact I.
Qed.

Lemma sweep_table_one_column_per_combination_X :
  int64_sweep [("X", "x", [VInt 1; VInt 2; VInt 3])] /\
  items (sweep_table ["X"] ["x"] [[VInt 1; VInt 2; VInt 3]])
    = [(LName "x1", [(LName "X", VInt 1)]);
       (LName "x2", [(LName "X", VInt 2)]);
       (LName "x3", [(LName "X", VInt 3)])].
Proof.
  split; [exact sweep_X_int64 |].
  destruct (sweep_table_one_column_per_combination
              [("X", "x", [VInt 1; VInt 2; VInt 3])] sweep_X_int64) as (Hitems & _).
  exact Hitems.
Defined.

Lemma add_scens_one_scenario_per_combination_study :
  int64_sweep [("X", "x", [VInt 1; VInt 2; VInt 3])] /\
  Dict.get (scens (self Demo.study)) "REF" = Some 0%nat /\
  result (add_scens (Some [("X", "x", [VInt 1; VInt 2; VInt 3])]) 0 true "REF" Demo.study)
    = Returns tt /\
  length (heap (final (add_scens (Some [("X", "x", [VInt 1; VInt 2; VInt 3])]) 0 true
                         "REF" Demo.study))) = 4%nat /\
  Dict.get
    (scens (self (final (add_scens (Some [("X", "x", [VInt 1; VInt 2; VInt 3])]) 0 true
                           "REF" Demo.study)))) "REF" = None.
Proof.
  split; [exact sweep_X_int64 |]. split; [reflexivity |].
  destruct solved_REF_declares as (Ht & HX & _).
  destruct (add_scens_one_scenario_per_combination Demo.study
              [("X", "x", [VInt 1; VInt 2; VInt 3])] 0 true "REF" 0%nat Demo.solved_REF)
    as (Hr & _ & _ & Hlen & _ & Hb & _).
  - exact sweep_X_int64.
  - lia.
  - apply NoDup_singleton.
  - exact study_REF.
  - exact study_heap.
  - exact Ht.
  - apply Forall_cons. split; [exact HX | apply Forall_nil; exact I].
  - cbn [value_lists fmap list_fmap snd from_product flat_map app].
    repeat (apply Forall_cons; split; [split; [reflexivity | discriminate] |]).
    apply Forall_nil. exact I.
  - split; [exact Hr |]. split; [exact Hlen | exact Hb].
Defined.

Lemma add_scens_early_failures_study :
  result (add_scens None 0 false "REF" Demo.study) = Raises TypeError /\
  scen_vars (self (final (add_scens None 0 false "REF" Demo.study))) = Some None /\
  heap (final (add_scens None 0 false "REF" Demo.study)) = heap Demo.study.
Proof.
  destruct (add_scens_early_failures Demo.study 0 false "REF" ltac:(lia)) as ([Hr Hf] & _).
  split; [exact Hr |]. rewrite Hf. split; reflexivity.
Defined.

End GeneralSweepExamples.

(** ** Calling [set_time_horizon] again, construction, automatic ids *)

Section AgainFacts.
Context {opq : Opaque} {lib : Library}.

Ltac run_simpl :=
  unfold inherited, zoom, bind, ret, raise, get, gets, modify, assert, unwrap;
  cbn [result final logged fst snd dth dtindex dtindex_custom _t1 _t2 year freq
       with_dth with_dtindex_custom with__t1 with__t2 app].

(** [_get_integer_locations] looks at the year and the full index
    only. *)
Lemma get_integer_locations_calendar start steps end_ (d d' : DateTimeHandler) :
  dtindex d = dtindex d' -> year d = year d' ->
  result (_get_integer_locations start steps end_ d)
    = result (_get_integer_locations start steps end_ d').
Proof.
  intros Hdt Hy.
  unfold _get_integer_locations, _get_first_int_loc_from_dtstring,
    _get_last_int_loc_from_dtstring, _get_int_loc_from_dtstring.
  destruct start as [i | s], steps as [n |], end_ as [[e | e] |];
    run_simpl; rewrite ?Hdt, ?Hy;
    repeat (match goal with
            | |- context [get_loc ?a ?b] =>
                destruct (get_loc a b) as [[? | ? ?] |]; run_simpl; rewrite ?Hdt, ?Hy
            end);
    repeat (match goal with
            | |- context [?a <? ?b] => destruct (a <? b); run_simpl
            end);
    reflexivity.
Qed.

Lemma set_time_horizon_calendar start steps end_ (cs cs' : CaseStudy) :
  dtindex cs = dtindex cs' -> year cs = year cs' ->
  result (set_time_horizon start steps end_ cs)
    = result (set_time_horizon start steps end_ cs').
Proof.
  intros Hdt Hy.
  pose proof (get_integer_locations_calendar start steps end_ cs cs' Hdt Hy) as Hloc.
  destruct (get_integer_locations_pure start steps end_ cs) as [o Ho].
  destruct (get_integer_locations_pure start steps end_ cs') as [o' Ho'].
  rewrite Ho, Ho' in Hloc. cbn [result] in Hloc. subst o'.
  unfold set_time_horizon. run_simpl. rewrite Ho, Ho'.
  destruct o as [[t1 t2] | e]; run_simpl; [| reflexivity].
  rewrite !with_dth_same, <- Hdt.
  destruct (getitem (slice (dtindex cs) t1 (t2 + 1)) 0) as [x |]; run_simpl;
    [| reflexivity].
  destruct (getitem (dtindex cs) t1) as [x' |]; run_simpl; [| reflexivity].
  destruct (x =? x'); run_simpl; [| reflexivity].
  destruct (getitem (slice (dtindex cs) t1 (t2 + 1)) (-1)) as [y |]; run_simpl;
    [| reflexivity].
  destruct (getitem (dtindex cs) t2) as [y' |]; run_simpl; [| reflexivity].
  destruct (y =? y'); reflexivity.
Qed.

(** X23.  [set_time_horizon] resolves its arguments against the index of
    the full year, never against the current window: after a call that
    returned, a second call raises or returns exactly as it would have
    on the case study before the first call, and when it returns it
    leaves the same case study.  The window is replaced, not narrowed. *)
Theorem set_time_horizon_replaces_window (cs : CaseStudy)
    (a : position) (sa : option Z) (ea : option position)
    (b : position) (sb : option Z) (eb : option position) :
  result (set_time_horizon a sa ea cs) = Returns tt ->
  result (set_time_horizon b sb eb (final (set_time_horizon a sa ea cs)))
    = result (set_time_horizon b sb eb cs) /\
  (result (set_time_horizon b sb eb cs) = Returns tt ->
   final (set_time_horizon b sb eb (final (set_time_horizon a sa ea cs)))
     = final (set_time_horizon b sb eb cs)).
Proof.
  intros Ha.
  destruct (set_time_horizon_returns a sa ea cs Ha) as (t1 & t2 & _ & _ & _ & Hfa & _).
  rewrite Hfa.
  assert (Hres : result (set_time_horizon b sb eb (windowed cs t1 t2))
                 = result (set_time_horizon b sb eb cs))
    by (apply set_time_horizon_calendar; reflexivity).
  split; [exact Hres |].
  intros Hb. rewrite <- Hres in Hb.
  destruct (set_time_horizon_returns b sb eb cs ltac:(rewrite <- Hres; exact Hb))
    as (u1 & u2 & _ & _ & Hloc & Hfb & _).
  destruct (set_time_horizon_returns b sb eb (windowed cs t1 t2) Hb)
    as (v1 & v2 & _ & _ & Hloc' & Hfb' & _).
  rewrite (get_integer_locations_calendar b sb eb (windowed cs t1 t2) cs eq_refl eq_refl)
    in Hloc'.
  rewrite Hloc in Hloc'. injection Hloc' as <- <-.
  rewrite Hfb, Hfb'. reflexivity.
Qed.

(** X24.  Construction checks the year after the frequency: a year outside
    1980..2099 aborts with [AssertionError], after [name] and [doc]
    have been assigned and before any attribute of the time window
    exists.  Inside the range the case study is built with the window
    on the whole index, [t1 = 0], [t2 = len - 1], and without
    scenarios or sweep attributes. *)
Theorem init_year_validation (name_ : string) (year_ : Z) (freq_ : string)
    (country_ : string) (consider_invest_ : bool) (doc_ : string)
    (coords_ : option (Object * Object)) (obj_vars_ : string * string)
    (mdl_language_ : string) :
  freq_ ∈ valid_freqs ->
  (year_ < 1980 \/ 2100 <= year_ ->
   CaseStudy__init__ name_ year_ freq_ country_ consider_invest_ doc_ coords_ obj_vars_
     mdl_language_ = Aborted (AssertionError "") ["name"; "doc"]) /\
  (1980 <= year_ < 2100 ->
   exists cs : CaseStudy,
     CaseStudy__init__ name_ year_ freq_ country_ consider_invest_ doc_ coords_ obj_vars_
       mdl_language_ = Built cs /\
     year cs = year_ /\ freq cs = freq_ /\
     dtindex cs = make_datetimeindex year_ freq_ /\
     dtindex_custom cs = dtindex cs /\
     _t1 cs = 0 /\ _t2 cs = len (dtindex cs) - 1 /\
     scens cs = [] /\ scen_vars cs = None /\ scen_df cs = None).
Proof.
  intros Hf. unfold CaseStudy__init__, _set_dtindex.
  rewrite !bool_decide_eq_true_2 by exact Hf.
  split.
  - intros Hy.
    destruct (Z.leb_spec 1980 year_), (Z.ltb_spec year_ 2100); cbn [andb]; try reflexivity.
    lia.
  - intros Hy.
    destruct (Z.leb_spec 1980 year_); [| lia].
    destruct (Z.ltb_spec year_ 2100); [| lia]. cbn [andb].
    eexists. split; [reflexivity |]. cbn. repeat split.
Qed.

Lemma auto_ids_S (n : nat) : auto_ids (Datatypes.S n) = auto_ids n ++ ["sc" +:+ str (Z.of_nat n)].
Proof. unfold auto_ids. rewrite seq_S, fmap_app. reflexivity. Qed.

Lemma auto_ids_fresh (n : nat) : "sc" +:+ str (Z.of_nat n) ∉ auto_ids n.
Proof.
  unfold auto_ids. intros Hin.
  apply list_elem_of_fmap in Hin as (k & Heq & Hk).
  apply String.app_inj in Heq. apply pretty_Z_inj in Heq.
  apply elem_of_seq in Hk. lia.
Qed.

(** X25.  Automatic ids do not collide as long as every id was given
    automatically: if the collection holds exactly [sc0 .. sc(n-1)], a
    scenario added without an id is bound to [scn], at the end, and
    every scenario that was there is still bound. *)
Theorem add_scen_auto_ids (w : World) (n : nat) (name_ doc_ : string)
    (based_on : option string) (based_on_last : bool)
    (comps : option (list Component)) (cm : option Callable) (ud : option Dims)
    (new : ref) :
  Dict.keys (scens (self w)) = auto_ids n ->
  result (add_scen None name_ doc_ based_on based_on_last comps cm ud w) = Returns new ->
  let w' := final (add_scen None name_ doc_ based_on based_on_last comps cm ud w) in
  Dict.keys (scens (self w')) = auto_ids (Datatypes.S n) /\
  Dict.get (scens (self w')) ("sc" +:+ str (Z.of_nat n)) = Some new /\
  (forall k, k ∈ auto_ids n ->
     Dict.get (scens (self w')) k = Dict.get (scens (self w)) k).
Proof.
  intros Hkeys Hr w'. subst w'.
  assert (Hid : chosen_id (self w) None = "sc" +:+ str (Z.of_nat n)).
  { cbn [chosen_id]. unfold len, Dict.values. rewrite length_fmap.
    rewrite <- (length_fmap fst). fold (Dict.keys (scens (self w))).
    rewrite Hkeys. unfold auto_ids. rewrite length_fmap, length_seq. reflexivity. }
  assert (Hfresh : Dict.get (scens (self w)) ("sc" +:+ str (Z.of_nat n)) = None).
  { apply dict_get_None. rewrite Hkeys. apply auto_ids_fresh. }
  destruct (add_scen_run_cases w None name_ doc_ based_on based_on_last comps cm ud)
    as [[e' Hrun] | (h & sc & Hrun & _)]; rewrite Hrun in *; [discriminate |].
  cbn [result final self scens with_scens] in *. injection Hr as <-.
  rewrite Hid. repeat apply conj.
  - rewrite (dict_keys_set_absent _ _ _ Hfresh), Hkeys. symmetry. apply auto_ids_S.
  - apply dict_get_set.
  - intros k Hk. apply dict_get_set_ne. intros <-.
    apply (auto_ids_fresh n Hk).
Qed.

End AgainFacts.

Section AgainExamples.
#[local] Existing Instance Demo.opaque.
#[local] Existing Instance Demo.library.

Lemma first_day_2019 :
  result (set_time_horizon (PInt 0) (Some 24) None Demo.cs2019) = Returns tt.
Proof.
  destruct (set_time_horizon_steps_accepted Demo.cs2019 (PInt 0) 0 24 eq_refl) as [Hr _];
    try lia; [rewrite len_index2019; lia | exact Hr].
Qed.

Lemma set_time_horizon_replaces_window_2019 :
  result (set_time_horizon (PInt 0) (Some 24) None Demo.cs2019) = Returns tt /\
  result (set_time_horizon (PInt 100) (Some 48) None
            (final (set_time_horizon (PInt 0) (Some 24) None Demo.cs2019))) = Returns tt /\
  _t1 (final (set_time_horizon (PInt 100) (Some 48) None
                (final (set_time_horizon (PInt 0) (Some 24) None Demo.cs2019)))) = 100 /\
  _t2 (final (set_time_horizon (PInt 100) (Some 48) None
                (final (set_time_horizon (PInt 0) (Some 24) None Demo.cs2019)))) = 147.
Proof.
  destruct (set_time_horizon_steps_accepted Demo.cs2019 (PInt 100) 100 48 eq_refl)
    as [Hr Hf]; try lia; [rewrite len_index2019; lia |].
  destruct (set_time_horizon_replaces_window Demo.cs2019 (PInt 0) (Some 24) None
              (PInt 100) (Some 48) None first_day_2019) as [Hres Hfin].
  split; [exact first_day_2019 |].
  rewrite Hres, (Hfin Hr), Hf. split; [exact Hr |]. split; reflexivity.
Defined.

Lemma init_year_validation_1979 :
  "60min" ∈ valid_freqs /\
  CaseStudy__init__ "test" 1979 "60min" "DE" false "No doc available." None
    ("C_TOT_", "CE_TOT_") "gp" = Aborted (AssertionError "") ["name"; "doc"].
Proof.
  assert (Hf : "60min" ∈ valid_freqs).
  { unfold valid_freqs. do 4 apply list_elem_of_further. apply list_elem_of_here. }
  split; [exact Hf |].
  destruct (init_year_validation "test" 1979 "60min" "DE" false "No doc available." None
              ("C_TOT_", "CE_TOT_") "gp" Hf) as [Hbad _].
  apply Hbad. lia.
Defined.

Lemma first_auto_scenario :
  add_scen None "first" "" None false None None None {| self := Demo.cs2019; heap := [] |}
  = Run (Returns 0%nat)
      {| self := with_scens [("sc0", 0%nat)] Demo.cs2019;
         heap := [{| id := "sc0"; name := "first"; doc := ""; custom_model := None;
                     params := ∅; vars := {| entities := ∅; _meta := ∅ |};
                     collectors := ∅; res := None |}] |} [].
Proof.
  rewrite (add_scen_scratch_run {| self := Demo.cs2019; heap := [] |} None "first" ""
             None None None). reflexivity.
Qed.

Lemma add_scen_auto_ids_second :
  Dict.keys
    (scens (self (final (add_scen None "first" "" None false None None None
                           {| self := Demo.cs2019; heap := [] |})))) = auto_ids 1 /\
  result (add_scen None "second" "" (Some "sc0") false None None None
            (final (add_scen None "first" "" None false None None None
                      {| self := Demo.cs2019; heap := [] |}))) = Returns 1%nat /\
  Dict.keys
    (scens (self (final (add_scen None "second" "" (Some "sc0") false None None None
                           (final (add_scen None "first" "" None false None None None
                                     {| self := Demo.cs2019; heap := [] |}))))))
    = ["sc0"; "sc1"] /\
  Dict.get
    (scens (self (final (add_scen None "second" "" (Some "sc0") false None None None
                           (final (add_scen None "first" "" None false None None None
                                     {| self := Demo.cs2019; heap := [] |}))))))
    "sc0" = Some 0%nat /\
  Dict.get
    (scens (self (final (add_scen None "second" "" (Some "sc0") false None None None
                           (final (add_scen None "first" "" None false None None None
                                     {| self := Demo.cs2019; heap := [] |}))))))
    "sc1" = Some 1%nat.
Proof.
  rewrite first_auto_scenario. cbn [final].
  set (w1 := {| self := with_scens [("sc0", 0%nat)] Demo.cs2019;
                heap := [{| id := "sc0"; name := "first"; doc := ""; custom_model := None;
                            params := ∅; vars := {| entities := ∅; _meta := ∅ |};
                            collectors := ∅; res := None |}] |}).
  assert (Hkeys : Dict.keys (scens (self w1)) = auto_ids 1) by reflexivity.
  assert (Hr : result (add_scen None "second" "" (Some "sc0") false None None None w1)
               = Returns 1%nat).
  { rewrite (add_scen_derived_run w1 None "second" "" "sc0" None None 0%nat _
               eq_refl eq_refl). reflexivity. }
  destruct (add_scen_auto_ids w1 1 "second" "" (Some "sc0") false None None None 1%nat
              Hkeys Hr) as (Hkeys' & Hnew & Hold).
  split; [exact Hkeys |]. split; [exact Hr |]. split; [rewrite Hkeys'; reflexivity |].
  split; [| exact Hnew].
  rewrite (Hold "sc0"); [reflexivity |].
  apply list_elem_of_here.
Defined.

End AgainExamples.

(** ** The positional id of a sweep scenario *)

Section FallbackFacts.
Context {opq : Opaque} {lib : Library}.

(** One column of the sweep table, whatever its name. *)
Lemma add_sweep_scen_run_any (w : World) (b nm : string) (ser : list (Label * Value))
    (rb : ref) (base : Scenario) :
  Dict.get (scens (self w)) b = Some rb ->
  heap w !! rb = Some base ->
  declared base "t__params_" ->
  Forall (fun x : Label * Value =>
            (exists z, x.2 = VInt z) /\ declared base (label_str x.1)) ser ->
  exists sc,
    add_sweep_scen b nm ser w
      = Run (Returns tt)
          {| self := with_scens
                       (Dict.set (scens (self w))
                          (if isidentifier nm then nm
                           else "sc" +:+ str (len (scens_dic (self w))))
                          (length (heap w)))
                       (self w);
             heap := <[rb := visited_base base]> (heap w) ++ [sc] |}
          [] /\
    same_shape
      (derived base
         (if isidentifier nm then nm else "sc" +:+ str (len (scens_dic (self w))))
         nm (long_doc ser) None) sc.
Proof.
  intros Hb Hbase Ht Hall.
  set (scen_id := if isidentifier nm then nm
                  else "sc" +:+ str (len (scens_dic (self w)))).
  pose proof (add_scen_derived_run w (Some scen_id) nm (long_doc ser) b None None rb base
                Hb Hbase) as Hadd.
  cbn [chosen_id] in Hadd.
  set (d := derived base scen_id nm (long_doc ser) None) in *.
  set (h1 := <[rb := visited_base base]> (heap w)) in *.
  set (cs1 := with_scens (Dict.set (scens (self w)) scen_id (length (heap w))) (self w))
    in *.
  assert (Hlen : length h1 = length (heap w)) by apply length_insert.
  assert (Hd : (h1 ++ [d]) !! length (heap w) = Some d).
  { apply list_lookup_middle. symmetry. exact Hlen. }
  assert (Hent : same_entities base d) by apply derived_entities.
  destruct (call_update_params_run {| self := cs1; heap := h1 ++ [d] |}
              (length (heap w)) d "t__params_" (VInt 0) Hd
              (same_entities_declared _ _ _ Hent Ht)) as (s1 & Hrun1 & Hsh1).
  cbn [heap with_heap self] in Hrun1.
  rewrite <- Hlen in Hrun1 at 2. rewrite insert_new_object in Hrun1.
  destruct (sweep_entities_run ser {| self := cs1; heap := h1 ++ [s1] |}
              (length (heap w)) s1) as (s2 & Hrun2 & Hsh2).
  - cbn [heap]. apply list_lookup_middle. symmetry. exact Hlen.
  - eapply Forall_impl; [exact Hall |].
    intros y [Hy Hdy]. split; [exact Hy |].
    destruct Hsh1 as (_ & _ & _ & _ & _ & Hent1).
    apply (same_entities_declared d s1 _ Hent1).
    apply (same_entities_declared base d _ Hent Hdy).
  - cbn [heap with_heap self] in Hrun2.
    rewrite <- Hlen in Hrun2 at 2. rewrite insert_new_object in Hrun2.
    exists s2. split; [| apply (same_shape_trans d s1 s2 Hsh1 Hsh2)].
    unfold add_sweep_scen. fold scen_id.
    unfold bind at 1. unfold get at 1. cbn [result final logged app].
    erewrite bind_returns; [| exact Hadd |].
    + reflexivity.
    + erewrite bind_returns; [reflexivity | exact Hrun1 | exact Hrun2].
Qed.

(** X26.  A combination whose composed name, of ASCII characters, is
    no identifier (a negative value gives [x-1]) gets the positional id
    [sc<number of scenarios>] instead: the new scenario is bound under
    that id and carries it, keeps the composed name as its name, and
    replaces whatever scenario the positional id named before; the
    composed name itself is not bound by the call. *)
Theorem add_scens_positional_id (w : World) (b nm : string)
    (ser : list (Label * Value)) (rb : ref) (base : Scenario) :
  is_ascii nm = true ->
  isidentifier nm = false ->
  Dict.get (scens (self w)) b = Some rb ->
  heap w !! rb = Some base ->
  declared base "t__params_" ->
  Forall (fun x : Label * Value =>
            (exists z, x.2 = VInt z) /\ declared base (label_str x.1)) ser ->
  let fid := "sc" +:+ str (len (scens_dic (self w))) in
  let w' := final (add_sweep_scen b nm ser w) in
  result (add_sweep_scen b nm ser w) = Returns tt /\
  Dict.get (scens (self w')) fid = Some (length (heap w)) /\
  (exists sc, heap w' !! length (heap w) = Some sc /\
              id sc = fid /\ name sc = nm /\ doc sc = long_doc ser /\ res sc = None) /\
  (forall k, k <> fid -> Dict.get (scens (self w')) k = Dict.get (scens (self w)) k).
Proof.
  intros _ Hid Hb Hbase Ht Hall fid w'. subst w'.
  destruct (add_sweep_scen_run_any w b nm ser rb base Hb Hbase Ht Hall)
    as (sc & Hrun & Hsh).
  rewrite Hid in Hrun, Hsh. fold fid in Hrun, Hsh. rewrite Hrun.
  cbn [result final self heap scens with_scens].
  repeat apply conj.
  - reflexivity.
  - apply dict_get_set.
  - exists sc. destruct Hsh as (H1 & H2 & H3 & H4 & _).
    split; [apply list_lookup_middle; rewrite length_insert; reflexivity |].
    repeat split.
    + exact H1.
    + exact H2.
    + exact H3.
    + rewrite H4. apply derived_res.
  - intros k Hk. apply dict_get_set_ne. congruence.
Qed.

End FallbackFacts.

Section FallbackExamples.
#[local] Existing Instance Demo.opaque.
#[local] Existing Instance Demo.library.

Lemma add_scens_positional_id_study :
  is_ascii "x-1" = true /\
  isidentifier "x-1" = false /\
  result (add_sweep_scen "REF" "x-1" [(LName "X", VInt (-1))] Demo.study) = Returns tt /\
  Dict.get (scens (self (final (add_sweep_scen "REF" "x-1" [(LName "X", VInt (-1))]
                                  Demo.study)))) "sc1" = Some 1%nat /\
  Dict.get (scens (self (final (add_sweep_scen "REF" "x-1" [(LName "X", VInt (-1))]
                                  Demo.study)))) "x-1" = None.
Proof.
  split; [reflexivity |]. split; [reflexivity |].
  destruct solved_REF_declares as (Ht & HX & _).
  destruct (add_scens_positional_id Demo.study "REF" "x-1" [(LName "X", VInt (-1))]
              0%nat Demo.solved_REF eq_refl eq_refl study_REF study_heap Ht)
    as (Hr & Hfid & _ & Hother).
  - apply Forall_cons. split; [| apply Forall_nil; exact I].
    split; [eexists; reflexivity | exact HX].
  - split; [exact Hr |]. split; [exact Hfid |].
    rewrite (Hother "x-1") by discriminate. reflexivity.
Defined.

End FallbackExamples.
